(** * Latency tracker: a shallow embedding of latency_tracker.c and wrapper/ht.h

    The tracker keeps a fixed pool of event records, a hash table of the
    records that are in flight, one timer per record and one garbage
    collector timer.  The embedding follows the hashtable.h branch of
    wrapper/ht.h (the one compiled when RHASHTABLE is not defined).

    - C integers are [Z]; the 64-bit subtraction of time stamps wraps.
    - A pointer to a pooled record is a [nat]; the records themselves live
      in a finite map, so that a record keeps its identity through reuse.
    - A function pointer that may be NULL is an [option].
    - A call through a NULL function pointer, or a read through a pointer
      to storage that was freed, has no result; neither has a call that
      spins for ever on tracker->lock.  Every operation runs in the option
      monad and [None] stands for a call that does not return.
    - User callbacks are opaque: calling one appends the callee, the record
      it was given and the contents of that record at the time of the call
      to a trace.
    - Every operation is run to completion, one at a time, so that
      tracker->lock is free when a call starts and the state of the lock at
      each point of the code is known from the text.  The model records the
      places where the code takes the lock while it holds it: there the call
      returns only on a kernel whose spin locks do not spin.  The one place
      where the code gives up the lock in the middle of a walk, in
      wrapper_ht_check_event, is modelled a second time in two parts, so
      that another call can be run between them.  RCU sections are not
      represented. *)

From stdpp Require Import base option list gmap.
From Stdlib Require Import ZArith Lia.

(** ** Machine integers *)

Definition u64 (z : Z) : Z := (z mod 2 ^ 64)%Z.
Definition u32 (z : Z) : Z := (z mod 2 ^ 32)%Z.

(** ** Data model *)

(** Modelled from the spec: the enum latency_tracker_cb_flag is declared in
    latency_tracker.h, which is not among the sources; the spec lists the
    close reasons as NONE, EXPLICIT_CLOSE, TIMEOUT, GARBAGE_COLLECTED and
    DUPLICATE_KEY.  The code names four of them; NONE is what a cleared
    record holds. *)
Inductive latency_tracker_cb_flag :=
  | LATENCY_TRACKER_CB_NONE
  | LATENCY_TRACKER_CB_NORMAL
  | LATENCY_TRACKER_CB_TIMEOUT
  | LATENCY_TRACKER_CB_UNIQUE
  | LATENCY_TRACKER_CB_GC.

(** Modelled from the spec: enum latency_tracker_event_in_ret, also from
    latency_tracker.h.  The spec calls LATENCY_TRACKER_ERR "INVALID". *)
Inductive latency_tracker_event_in_ret :=
  | LATENCY_TRACKER_OK
  | LATENCY_TRACKER_FULL
  | LATENCY_TRACKER_ERR.

(** struct latency_tracker_event, with the fields the two source files use.
    The list, hlist and timer members are represented by the membership of
    the record in the free list, in a bucket and in the set of pending
    timers of its tracker. *)
Record latency_tracker_event := mk_event {
  hkey : Z;
  key : list Z;
  start_ts : Z;
  end_ts : Z;
  thresh : Z;
  timeout : Z;
  cb : option nat;
  priv : Z;
  cb_flag : latency_tracker_cb_flag;
  cb_out_id : Z;
}.

Definition set_end_ts (v : Z) (e : latency_tracker_event) :=
  mk_event (hkey e) (key e) (start_ts e) v (thresh e) (timeout e) (cb e)
           (priv e) (cb_flag e) (cb_out_id e).
Definition set_timeout (v : Z) (e : latency_tracker_event) :=
  mk_event (hkey e) (key e) (start_ts e) (end_ts e) (thresh e) v (cb e)
           (priv e) (cb_flag e) (cb_out_id e).
Definition set_cb_flag (v : latency_tracker_cb_flag) (e : latency_tracker_event) :=
  mk_event (hkey e) (key e) (start_ts e) (end_ts e) (thresh e) (timeout e)
           (cb e) (priv e) v (cb_out_id e).
Definition set_cb_out_id (v : Z) (e : latency_tracker_event) :=
  mk_event (hkey e) (key e) (start_ts e) (end_ts e) (thresh e) (timeout e)
           (cb e) (priv e) (cb_flag e) v.

(** One call of a user callback: [cb((unsigned long) s)] with the contents
    of [*s] as the callee sees them. *)
Record cb_call := Call {
  call_fn : nat;
  call_ptr : nat;
  call_ev : latency_tracker_event;
}.

(** struct latency_tracker, together with the storage it owns. *)
Record latency_tracker := mk_tracker {
  hash_fct : option (list Z → Z → Z → Z);
  match_fct : option (list Z → list Z → Z → Z);
  gc_period : Z;
  gc_thresh : Z;
  tracker_priv : Z;
  (* tracker->timer: [Some expires] while the timer is pending *)
  gc_timer : option Z;
  (* tracker->ht: the array of buckets, each an hlist, head first *)
  ht : list (list nat);
  (* tracker->events_free_list, head first *)
  events_free_list : list nat;
  (* the records allocated for this tracker *)
  events : gmap nat latency_tracker_event;
  (* pending per-event timers: record ↦ expires *)
  timers : gmap nat Z;
}.

Definition set_ht (f : list (list nat) → list (list nat)) (t : latency_tracker) :=
  mk_tracker (hash_fct t) (match_fct t) (gc_period t) (gc_thresh t)
    (tracker_priv t) (gc_timer t) (f (ht t)) (events_free_list t) (events t)
    (timers t).
Definition set_free (f : list nat → list nat) (t : latency_tracker) :=
  mk_tracker (hash_fct t) (match_fct t) (gc_period t) (gc_thresh t)
    (tracker_priv t) (gc_timer t) (ht t) (f (events_free_list t)) (events t)
    (timers t).
Definition set_events
    (f : gmap nat latency_tracker_event → gmap nat latency_tracker_event)
    (t : latency_tracker) :=
  mk_tracker (hash_fct t) (match_fct t) (gc_period t) (gc_thresh t)
    (tracker_priv t) (gc_timer t) (ht t) (events_free_list t) (f (events t))
    (timers t).
Definition set_timers (f : gmap nat Z → gmap nat Z) (t : latency_tracker) :=
  mk_tracker (hash_fct t) (match_fct t) (gc_period t) (gc_thresh t)
    (tracker_priv t) (gc_timer t) (ht t) (events_free_list t) (events t)
    (f (timers t)).
Definition set_gc_timer (v : option Z) (t : latency_tracker) :=
  mk_tracker (hash_fct t) (match_fct t) (gc_period t) (gc_thresh t)
    (tracker_priv t) v (ht t) (events_free_list t) (events t) (timers t).
Definition set_gc_period (v : Z) (t : latency_tracker) :=
  mk_tracker (hash_fct t) (match_fct t) v (gc_thresh t)
    (tracker_priv t) (gc_timer t) (ht t) (events_free_list t) (events t)
    (timers t).
Definition set_gc_thresh (v : Z) (t : latency_tracker) :=
  mk_tracker (hash_fct t) (match_fct t) (gc_period t) v
    (tracker_priv t) (gc_timer t) (ht t) (events_free_list t) (events t)
    (timers t).

(** What the kernel provides at the time of a call: whether the caller is
    in an NMI, the monotonic clock in nanoseconds, and the jiffies counter. *)
Record kernel_env := mk_env {
  in_nmi : bool;
  ktime_ns : Z;
  jiffies : Z;
}.

(** The memory the module works on: the trackers that exist, by address,
    and the trace of the user callbacks called so far. *)
Record world := mk_world {
  trackers : gmap nat latency_tracker;
  trace : list cb_call;
}.

(** ** Library routines *)

(** memcpy(dst, src, n); [src] holds at least [n] bytes. *)
Definition memcpy (dst src : list Z) (n : nat) : list Z :=
  take n src ++ drop n dst.

(** memcmp(a, b, n): zero when the first [n] bytes agree, else the
    difference of the first pair that differs.  This is memcmp for [n]
    bytes that lie within both buffers.  Past the end of a buffer the model
    reads zeros, where the C function reads whatever follows in memory:
    latency_tracker_event_in bounds key_len by LATENCY_TRACKER_MAX_KEY_SIZE,
    latency_tracker_event_out does not, and what is stated of a comparison
    is stated for lengths within the buffers. *)
Fixpoint memcmp_n (a b : list Z) (n : nat) : Z :=
  match n with
  | O => 0%Z
  | S n' =>
      let x := hd 0%Z a in
      let y := hd 0%Z b in
      if (x =? y)%Z then memcmp_n (tl a) (tl b) n' else (x - y)%Z
  end.

Definition memcmp (a b : list Z) (n : Z) : Z := memcmp_n a b (Z.to_nat n).

(** EIO of errno.h. *)
Definition EIO : Z := 5%Z.

Definition trace_clock_monotonic_wrapper (env : kernel_env) : Z :=
  if in_nmi env then u64 (- EIO) else u64 (ktime_ns env).

(** A loop over a snapshot of a list whose body may fault. *)
Fixpoint for_each {S : Type} (body : nat → S → option S) (l : list nat) (st : S)
    : option S :=
  match l with
  | [] => Some st
  | s :: l' => st' ← body s st; for_each body l' st'
  end.

(** Constants and routines that the sources use and do not define. *)
Class platform := {
  (* LATENCY_TRACKER_MAX_KEY_SIZE, from latency_tracker.h *)
  LATENCY_TRACKER_MAX_KEY_SIZE : Z;
  (* HASH_SIZE(tracker->ht), that is 1 << DEFAULT_LATENCY_TABLE_SIZE *)
  HASH_SIZE : nat;
  (* hash_min(k, HASH_BITS(tracker->ht)) of linux/hashtable.h *)
  hash_min : Z → nat;
  (* jhash of linux/jhash.h *)
  jhash : list Z → Z → Z → Z;
  (* wrapper_nsecs_to_jiffies of wrapper/jiffies.h *)
  wrapper_nsecs_to_jiffies : Z → Z;
  (* whether spin_lock_irqsave of linux/spinlock.h waits for a lock that is
     held: it does on an SMP kernel and with CONFIG_DEBUG_SPINLOCK; on a
     uniprocessor kernel without it the lock operations only disable
     interrupts and preemption *)
  spin_lock_spins : bool;
}.

(** The state of tracker->lock at a point of the code. *)
Inductive lock_state := LockFree | LockHeld.

Section tracker.
Context {PF : platform}.

Definition DEFAULT_MAX_ALLOC_EVENTS : Z := 100%Z.

(** A record as kzalloc and memset leave it. *)
Definition zero_event : latency_tracker_event :=
  mk_event 0 (replicate (Z.to_nat LATENCY_TRACKER_MAX_KEY_SIZE) 0%Z) 0 0 0 0
           None 0 LATENCY_TRACKER_CB_NONE 0.

(** ** wrapper/ht.h: the primitive operations *)

(* hash_init(tracker->ht) *)
Definition wrapper_ht_init (t : latency_tracker) : latency_tracker :=
  set_ht (λ _, replicate HASH_SIZE []) t.

(* hash_add(tracker->ht, &s->hlist, s->hkey): insertion at the head *)
Definition wrapper_ht_add (t : latency_tracker) (s : nat) : option latency_tracker :=
  e ← events t !! s;
  Some (set_ht (alter (cons s) (hash_min (hkey e))) t).

(* hash_del(&s->hlist): the node is unlinked from the bucket it is in *)
Definition wrapper_ht_del (t : latency_tracker) (s : nat) : latency_tracker :=
  set_ht (fmap (filter (λ x, x ≠ s))) t.

(* the bucket that hash_for_each_possible_safe walks for hash value k *)
Definition bucket (t : latency_tracker) (k : Z) : list nat :=
  default [] (ht t !! hash_min k).

(* the order in which hash_for_each_safe visits the table *)
Definition ht_entries (t : latency_tracker) : list nat := mjoin (ht t).

(** ** tracker->lock *)

(* spin_lock_irqsave(&tracker->lock, flags), reached with the lock in
   state [l].  Where spin locks spin, taking the lock that the caller
   itself holds never returns. *)
Definition spin_lock_irqsave (l : lock_state) : option lock_state :=
  match l with
  | LockFree => Some LockHeld
  | LockHeld => if spin_lock_spins then None else Some LockHeld
  end.

(** ** latency_tracker.c: pool and retirement *)

Definition latency_tracker_get_event (t : latency_tracker)
    : option nat * latency_tracker :=
  match last (events_free_list t) with
  | None => (None, t)
  | Some e => (Some e, set_free (@removelast nat) t)
  end.

Definition latency_tracker_put_event (t : latency_tracker) (e : nat)
    : latency_tracker :=
  set_free (cons e) (set_events <[e := zero_event]> t).

Definition del_timer (t : latency_tracker) (s : nat) : latency_tracker :=
  set_timers (delete s) t.

(* [l] is the state of tracker->lock when the function is called: it
   takes the lock itself, whatever the comment above it in the source
   says, and has released it when it returns. *)
Definition latency_tracker_event_destroy (l : lock_state)
    (t : latency_tracker) (s : nat) : option latency_tracker :=
  _ ← spin_lock_irqsave l;
  let t1 := wrapper_ht_del t s in
  e ← events t1 !! s;
  let t2 := if (timeout e >? 0)%Z then del_timer t1 s else t1 in
  Some (latency_tracker_put_event t2 s).

(* if (s->cb) s->cb((unsigned long) s); *)
Definition run_cb (t : latency_tracker) (s : nat) (tr : list cb_call)
    : option (list cb_call) :=
  e ← events t !! s;
  Some (match cb e with
        | Some f => tr ++ [Call f s e]
        | None => tr
        end).

(* *s = e *)
Definition store (t : latency_tracker) (s : nat) (e : latency_tracker_event)
    : latency_tracker :=
  set_events <[s := e]> t.

(** ** wrapper/ht.h: the walks over the table *)

Definition clear_visit (s : nat) (st : latency_tracker * Z)
    : option (latency_tracker * Z) :=
  t' ← latency_tracker_event_destroy LockFree st.1 s;
  Some (t', (st.2 + 1)%Z).

(** Returns the number of events still active at destruction time.
    latency_tracker_destroy calls it before it takes the lock. *)
Definition wrapper_ht_clear (t : latency_tracker) : option (Z * latency_tracker) :=
  st ← for_each clear_visit (ht_entries t) (t, 0%Z);
  Some (st.2, st.1).

(* The body of the loop of wrapper_ht_gc; [l] is the state of tracker->lock
   during the walk. *)
Definition gc_visit (l : lock_state) (now : Z) (s : nat)
    (st : latency_tracker * list cb_call)
    : option (latency_tracker * list cb_call) :=
  e ← events st.1 !! s;
  st1 ← (if (u64 (now - start_ts e) >? gc_thresh st.1)%Z then
           let t1 := store st.1 s
                       (set_cb_flag LATENCY_TRACKER_CB_GC (set_end_ts now e)) in
           tr1 ← run_cb t1 s st.2;
           Some (t1, tr1)
         else Some st);
  t2 ← latency_tracker_event_destroy l st1.1 s;
  Some (t2, st1.2).

Definition wrapper_ht_gc (l : lock_state) (t : latency_tracker) (now : Z)
    (tr : list cb_call) : option (latency_tracker * list cb_call) :=
  for_each (gc_visit l now) (ht_entries t) (t, tr).

(* The body of the loop of wrapper_ht_check_event, which holds
   tracker->lock except around latency_tracker_event_destroy. *)
Definition check_visit (key_arg : list Z) (key_len id now : Z) (s : nat)
    (st : latency_tracker * list cb_call * Z)
    : option (latency_tracker * list cb_call * Z) :=
  let '(t, tr, found) := st in
  e ← events t !! s;
  m ← match_fct t;
  if bool_decide (m key_arg (key e) key_len ≠ 0%Z) then Some st
  else
    st1 ← (if (u64 (now - start_ts e) >? thresh e)%Z then
             let t1 := store t s
                         (set_cb_out_id id
                            (set_cb_flag LATENCY_TRACKER_CB_NORMAL
                               (set_end_ts now e))) in
             tr1 ← run_cb t1 s tr;
             Some (t1, tr1)
           else Some (t, tr));
    t2 ← latency_tracker_event_destroy LockFree st1.1 s;
    Some (t2, st1.2, 1%Z).

Definition wrapper_ht_check_event (t : latency_tracker) (key_arg : list Z)
    (key_len id now : Z) (tr : list cb_call)
    : option (latency_tracker * list cb_call * Z) :=
  h ← hash_fct t;
  let k := h key_arg key_len 0%Z in
  for_each (check_visit key_arg key_len id now) (bucket t k) (t, tr, 0%Z).

(* The loop of wrapper_ht_unique_check, which ends at the first match;
   [lk] is the state of tracker->lock during the walk. *)
Fixpoint unique_loop (lk : lock_state) (key_arg : list Z) (key_len : Z)
    (l : list nat) (st : latency_tracker * list cb_call)
    : option (latency_tracker * list cb_call) :=
  match l with
  | [] => Some st
  | s :: l' =>
      e ← events st.1 !! s;
      m ← match_fct st.1;
      if bool_decide (m key_arg (key e) key_len ≠ 0%Z)
      then unique_loop lk key_arg key_len l' st
      else
        let t1 := store st.1 s (set_cb_flag LATENCY_TRACKER_CB_UNIQUE e) in
        tr1 ← run_cb t1 s st.2;
        t2 ← latency_tracker_event_destroy lk t1 s;
        Some (t2, tr1)
  end.

Definition wrapper_ht_unique_check (lk : lock_state) (t : latency_tracker)
    (key_arg : list Z) (key_len : Z) (tr : list cb_call)
    : option (latency_tracker * list cb_call) :=
  h ← hash_fct t;
  let k := h key_arg (u32 key_len) 0%Z in
  unique_loop lk key_arg key_len (bucket t k) (t, tr).

(** ** latency_tracker.c: the garbage collector *)

(* Must be called with the lock held. *)
Definition latency_tracker_enable_gc (t : latency_tracker) (env : kernel_env)
    : latency_tracker :=
  let t1 := set_gc_timer None t in
  if bool_decide (gc_period t1 = 0%Z ∨ gc_thresh t1 = 0%Z) then t1
  else
    set_gc_timer
      (Some (u64 (jiffies env + wrapper_nsecs_to_jiffies (gc_period t1)))) t1.

Definition latency_tracker_gc_cb (w : world) (ptr : nat) (env : kernel_env)
    : option world :=
  t ← trackers w !! ptr;
  let now := trace_clock_monotonic_wrapper env in
  lk ← spin_lock_irqsave LockFree;
  st ← wrapper_ht_gc lk t now (trace w);
  Some (mk_world (<[ptr := latency_tracker_enable_gc st.1 env]> (trackers w))
                 st.2).

Definition latency_tracker_set_gc_thresh (w : world) (tracker : nat) (v : Z)
    (env : kernel_env) : option world :=
  t ← trackers w !! tracker;
  Some (mk_world
          (<[tracker := latency_tracker_enable_gc (set_gc_thresh v t) env]>
             (trackers w))
          (trace w)).

Definition latency_tracker_set_gc_period (w : world) (tracker : nat) (v : Z)
    (env : kernel_env) : option world :=
  t ← trackers w !! tracker;
  Some (mk_world
          (<[tracker := latency_tracker_enable_gc (set_gc_period v t) env]>
             (trackers w))
          (trace w)).

(** ** latency_tracker.c: create and destroy *)

(* The loop of latency_tracker_create that fills the free list.  [avail]
   counts the calls of kzalloc that will still succeed; [None] is the jump
   to error_free_events.  The i-th record gets address i. *)
Fixpoint alloc_events (n i avail : nat) (t : latency_tracker)
    : option latency_tracker :=
  match n with
  | O => Some t
  | S n' =>
      match avail with
      | O => None
      | S avail' =>
          alloc_events n' (S i) avail'
            (set_free (cons i) (set_events <[i := zero_event]> t))
      end
  end.

(* [avail]: how many calls of kzalloc succeed; [module_ok]: the result of
   try_module_get.  The result is the address of the tracker, or NULL. *)
Definition latency_tracker_create (w : world)
    (match_arg : option (list Z → list Z → Z → Z))
    (hash_arg : option (list Z → Z → Z → Z))
    (max_events gc_period_arg gc_thresh_arg priv_arg : Z)
    (env : kernel_env) (avail : nat) (module_ok : bool)
    : option nat * world :=
  match avail with
  | O => (None, w)
  | S avail' =>
      let hf := match hash_arg with None => Some jhash | Some _ => None end in
      let mf := match match_arg with None => Some memcmp | Some _ => None end in
      let max_events :=
        if bool_decide (max_events = 0%Z) then DEFAULT_MAX_ALLOC_EVENTS
        else max_events in
      let t0 := mk_tracker hf mf gc_period_arg gc_thresh_arg priv_arg None
                  [] [] ∅ ∅ in
      let t1 := latency_tracker_enable_gc t0 env in
      let t2 := wrapper_ht_init t1 in
      match alloc_events (Z.to_nat max_events) 0 avail' t2 with
      | None => (None, w)
      | Some t3 =>
          if module_ok then
            let a := fresh (dom (trackers w)) in
            (Some a, mk_world (<[a := t3]> (trackers w)) (trace w))
          else (None, w)
      end
  end.

Definition latency_tracker_destroy_free_list (t : latency_tracker)
    : latency_tracker :=
  set_free (λ _, [])
    (set_events (λ m, foldr delete m (events_free_list t)) t).

(* The result is the number that the printk reports. *)
Definition latency_tracker_destroy (w : world) (tracker : nat)
    : option (Z * world) :=
  t ← trackers w !! tracker;
  let t1 := set_gc_timer None t in
  r ← wrapper_ht_clear t1;
  (* the free list is emptied and the tracker itself is freed: nothing of
     it remains in memory *)
  let t2 := latency_tracker_destroy_free_list r.2 in
  Some (r.1, mk_world (delete tracker (<[tracker := t2]> (trackers w)))
                      (trace w)).

(** ** latency_tracker.c: the timeout of one event *)

Definition latency_tracker_timeout_cb (w : world) (tracker ptr : nat)
    : option world :=
  t ← trackers w !! tracker;
  data ← events t !! ptr;
  let t1 := del_timer t ptr in
  let t2 := store t1 ptr
              (set_timeout 0 (set_cb_flag LATENCY_TRACKER_CB_TIMEOUT data)) in
  data' ← events t2 !! ptr;
  f ← cb data';
  Some (mk_world (<[tracker := t2]> (trackers w))
                 (trace w ++ [Call f ptr data'])).

(** ** latency_tracker.c: event_in and event_out *)

Definition latency_tracker_event_in (w : world) (tracker : option nat)
    (key_arg : list Z) (key_len thresh_arg : Z) (cb_arg : option nat)
    (timeout_arg : Z) (unique : Z) (priv_arg : Z) (env : kernel_env)
    : option (latency_tracker_event_in_ret * world) :=
  match tracker with
  | None => Some (LATENCY_TRACKER_ERR, w)
  | Some a =>
      if (key_len >? LATENCY_TRACKER_MAX_KEY_SIZE)%Z
      then Some (LATENCY_TRACKER_ERR, w)
      else
        t ← trackers w !! a;
        lk ← spin_lock_irqsave LockFree;
        st ← (if bool_decide (unique ≠ 0%Z)
              then wrapper_ht_unique_check lk t key_arg key_len (trace w)
              else Some (t, trace w));
        match latency_tracker_get_event st.1 with
        | (None, t1) =>
            Some (LATENCY_TRACKER_FULL,
                  mk_world (<[a := t1]> (trackers w)) st.2)
        | (Some s, t1) =>
            h ← hash_fct t1;
            e ← events t1 !! s;
            let e' :=
              mk_event (h key_arg (u32 key_len) 0%Z)
                (memcpy (key e) key_arg (Z.to_nat key_len))
                (trace_clock_monotonic_wrapper env) (end_ts e)
                thresh_arg timeout_arg cb_arg priv_arg (cb_flag e)
                (cb_out_id e) in
            let t2 := store t1 s e' in
            let t3 :=
              if (timeout_arg >? 0)%Z then
                set_timers
                  <[s := u64 (jiffies env
                              + wrapper_nsecs_to_jiffies timeout_arg)]> t2
              else t2 in
            t4 ← wrapper_ht_add t3 s;
            Some (LATENCY_TRACKER_OK,
                  mk_world (<[a := t4]> (trackers w)) st.2)
        end
  end.

Definition latency_tracker_event_out (w : world) (tracker : option nat)
    (key_arg : list Z) (key_len id : Z) (env : kernel_env)
    : option (Z * world) :=
  match tracker with
  | None => Some ((-1)%Z, w)
  | Some a =>
      t ← trackers w !! a;
      let now := trace_clock_monotonic_wrapper env in
      r ← wrapper_ht_check_event t key_arg key_len id now (trace w);
      let '(t', tr', found) := r in
      let w' := mk_world (<[a := t']> (trackers w)) tr' in
      if bool_decide (found = 0%Z) then Some ((-1)%Z, w')
      else Some (0%Z, w')
  end.

Definition latency_tracker_get_priv (w : world) (tracker : nat) : option Z :=
  t ← trackers w !! tracker;
  Some (tracker_priv t).

(** ** latency_tracker_event_out between two releases of tracker->lock

    wrapper_ht_check_event gives up tracker->lock before each call of
    latency_tracker_event_destroy and takes it again after the call.
    The lock is free twice: before latency_tracker_event_destroy takes it,
    when the record [s] that is about to be retired is still linked, and
    after latency_tracker_event_destroy has released it.  At both points
    another call on the tracker can run.  The function is given here once
    more, in the parts that lie between two such points. *)

(* Where a call of wrapper_ht_check_event stands when it does not hold the
   lock: at its end, with the value of found; before
   latency_tracker_event_destroy(tracker, s), with s and the pointer next
   that hash_for_each_possible_safe keeps; or after that call, before the
   spin_lock_irqsave that follows it, with the pointer next. *)
Inductive check_point :=
  | CheckDone (found : Z)
  | CheckUnlocked (s : nat) (next : option nat)
  | CheckRelock (next : option nat).

(* The walk over the records [l], made with the lock held, up to the next
   spin_unlock_irqrestore. *)
Fixpoint check_walk (key_arg : list Z) (key_len id now : Z) (l : list nat)
    (found : Z) (st : latency_tracker * list cb_call)
    : option (latency_tracker * list cb_call * check_point) :=
  match l with
  | [] => Some (st, CheckDone found)
  | s :: l' =>
      e ← events st.1 !! s;
      m ← match_fct st.1;
      if bool_decide (m key_arg (key e) key_len ≠ 0%Z)
      then check_walk key_arg key_len id now l' found st
      else
        st1 ← (if (u64 (now - start_ts e) >? thresh e)%Z then
                 let t1 := store st.1 s
                             (set_cb_out_id id
                                (set_cb_flag LATENCY_TRACKER_CB_NORMAL
                                   (set_end_ts now e))) in
                 tr1 ← run_cb t1 s st.2;
                 Some (t1, tr1)
               else Some st);
        Some (st1, CheckUnlocked s (head l'))
  end.

(* the records that follow [n] in the hlist [b], if [n] is in it *)
Fixpoint hlist_after (n : nat) (b : list nat) : option (list nat) :=
  match b with
  | [] => None
  | x :: b' => if decide (x = n) then Some b' else hlist_after n b'
  end.

(* The records that a walk visits from the pointer [next] on: the record
   itself and those that follow it in the bucket it is linked in.  The next
   pointer of a record that is not linked is NULL: hash_del and the memset
   of latency_tracker_put_event leave it so. *)
Definition chain_from (t : latency_tracker) (next : option nat) : list nat :=
  match next with
  | None => []
  | Some n => n :: default [] (head (omap (hlist_after n) (ht t)))
  end.

(* latency_tracker_event_out on the tracker at [a], from its start to the
   first point where wrapper_ht_check_event does not hold the lock *)
Definition latency_tracker_event_out_begin (w : world) (a : nat)
    (key_arg : list Z) (key_len id : Z) (env : kernel_env)
    : option (world * check_point) :=
  t ← trackers w !! a;
  let now := trace_clock_monotonic_wrapper env in
  h ← hash_fct t;
  r ← check_walk key_arg key_len id now (bucket t (h key_arg key_len 0%Z))
         0%Z (t, trace w);
  Some (mk_world (<[a := r.1.1]> (trackers w)) r.1.2, r.2).

(* The same call, from the point [p] where it stands to the next point
   where it does not hold the lock: latency_tracker_event_destroy, which
   takes the lock and releases it, or found = 1, spin_lock_irqsave and the
   walk from next on.  [now] is the time that latency_tracker_event_out
   read when it was called. *)
Definition latency_tracker_event_out_resume (w : world) (a : nat)
    (key_arg : list Z) (key_len id now : Z) (p : check_point)
    : option (world * check_point) :=
  match p with
  | CheckDone found => Some (w, CheckDone found)
  | CheckUnlocked s next =>
      t ← trackers w !! a;
      t1 ← latency_tracker_event_destroy LockFree t s;
      Some (mk_world (<[a := t1]> (trackers w)) (trace w), CheckRelock next)
  | CheckRelock next =>
      t ← trackers w !! a;
      r ← check_walk key_arg key_len id now (chain_from t next) 1%Z
             (t, trace w);
      Some (mk_world (<[a := r.1.1]> (trackers w)) r.1.2, r.2)
  end.

(* what latency_tracker_event_out returns for the value of found *)
Definition event_out_ret (found : Z) : Z :=
  if bool_decide (found = 0%Z) then (-1)%Z else 0%Z.

(* The parts of one call run one after the other with nothing in between;
   [fuel] bounds the number of parts, two for each record retired. *)
Fixpoint latency_tracker_event_out_finish (fuel : nat) (w : world) (a : nat)
    (key_arg : list Z) (key_len id now : Z) (p : check_point)
    : option (Z * world) :=
  match p with
  | CheckDone found => Some (event_out_ret found, w)
  | _ =>
      match fuel with
      | O => None
      | S fuel' =>
          r ← latency_tracker_event_out_resume w a key_arg key_len id now p;
          latency_tracker_event_out_finish fuel' r.1 a key_arg key_len id now
            r.2
      end
  end.

(** ** Notions used to state the properties *)

(** The test of the two bucket walks: [match_fct(key, s->key, key_len)]
    returns zero. *)
Definition key_matches (t : latency_tracker) (key_arg : list Z) (key_len : Z)
    (s : nat) : bool :=
  match events t !! s, match_fct t with
  | Some e, Some m => bool_decide (m key_arg (key e) key_len = 0%Z)
  | _, _ => false
  end.

(** The callback that the sweep of the collector makes for record [s]:
    the record is given with end_ts = now and cb_flag =
    LATENCY_TRACKER_CB_GC, its other fields as they were. *)
Definition gc_call (t : latency_tracker) (now : Z) (s : nat) : list cb_call :=
  match events t !! s with
  | Some e =>
      if (u64 (now - start_ts e) >? gc_thresh t)%Z then
        match cb e with
        | Some f =>
            [Call f s
               (mk_event (hkey e) (key e) (start_ts e) now (thresh e)
                  (timeout e) (cb e) (priv e) LATENCY_TRACKER_CB_GC
                  (cb_out_id e))]
        | None => []
        end
      else []
  | None => []
  end.

(** The callback that a close makes for a matching record [s]: the record
    is given with end_ts = now, cb_flag = LATENCY_TRACKER_CB_NORMAL and
    cb_out_id = id, its other fields as they were. *)
Definition check_call (t : latency_tracker) (id now : Z) (s : nat)
    : list cb_call :=
  match events t !! s with
  | Some e =>
      if (u64 (now - start_ts e) >? thresh e)%Z then
        match cb e with
        | Some f =>
            [Call f s
               (mk_event (hkey e) (key e) (start_ts e) now (thresh e)
                  (timeout e) (cb e) (priv e) LATENCY_TRACKER_CB_NORMAL id)]
        | None => []
        end
      else []
  | None => []
  end.

(** The callback that the duplicate check makes for the record it evicts:
    the record is given with cb_flag = LATENCY_TRACKER_CB_UNIQUE, its other
    fields as they were. *)
Definition unique_call (t : latency_tracker) (s : nat) : list cb_call :=
  match events t !! s with
  | Some e =>
      match cb e with
      | Some f =>
          [Call f s
             (mk_event (hkey e) (key e) (start_ts e) (end_ts e) (thresh e)
                (timeout e) (cb e) (priv e) LATENCY_TRACKER_CB_UNIQUE
                (cb_out_id e))]
      | None => []
      end
  | None => []
  end.

(** The records of the bucket of [key_arg] that match it, in bucket order. *)
Definition matching (t : latency_tracker) (k : Z) (key_arg : list Z)
    (key_len : Z) : list nat :=
  filter (λ s, key_matches t key_arg key_len s) (bucket t k).

(** The table is keyed by hkey: a record that is in bucket [i] holds a
    hash value that hash_min maps to [i]. *)
Definition placed (t : latency_tracker) : Prop :=
  ∀ i b s, ht t !! i = Some b → s ∈ b →
    ∃ e, events t !! s = Some e ∧ hash_min (hkey e) = i.

(** Record [s] holds a hash value that falls in the bucket of [k]. *)
Definition hashes_with (t : latency_tracker) (k : Z) (s : nat) : bool :=
  match events t !! s with
  | Some e => bool_decide (hash_min (hkey e) = hash_min k)
  | None => false
  end.

(** The records of the whole table whose hash value falls in the bucket of
    [k] and whose key matches [key_arg], in the order of the table. *)
Definition index_matching (t : latency_tracker) (k : Z) (key_arg : list Z)
    (key_len : Z) : list nat :=
  filter (λ s, hashes_with t k s && key_matches t key_arg key_len s)
    (ht_entries t).

(** An open with these arguments evicts a record: [unique] is set and the
    bucket of the key holds a record that matches. *)
Definition evicts (t : latency_tracker) (key_arg : list Z) (key_len unique : Z)
    : Prop :=
  unique ≠ 0%Z ∧
  ∃ h, hash_fct t = Some h ∧
       matching t (h key_arg (u32 key_len) 0%Z) key_arg key_len ≠ [].

(** An open with these arguments does not return: it is not refused for
    the length of its key, it evicts a record, for which it takes
    tracker->lock while it holds it, and spin locks spin. *)
Definition open_deadlocks (t : latency_tracker) (key_arg : list Z)
    (key_len unique : Z) : Prop :=
  spin_lock_spins = true ∧
  (key_len ≤ LATENCY_TRACKER_MAX_KEY_SIZE)%Z ∧
  evicts t key_arg key_len unique.

(** A run of the collector does not return: the table holds a record, for
    which the sweep takes tracker->lock while it holds it, and spin locks
    spin. *)
Definition sweep_deadlocks (t : latency_tracker) : Prop :=
  spin_lock_spins = true ∧ ht_entries t ≠ [].

(** [retired l t t']: from [t] to [t'] exactly the records of [l] were
    retired, in that order: each is unlinked from its bucket, cleared and
    put at the head of the free list; everything else is as it was. *)
Record retired (l : list nat) (t t' : latency_tracker) : Prop := {
  retired_ht : ht t' = filter (λ x, x ∉ l) <$> ht t;
  retired_free : events_free_list t' = reverse l ++ events_free_list t;
  retired_zero : ∀ s, s ∈ l → events t' !! s = Some zero_event;
  retired_events : ∀ s, s ∉ l → events t' !! s = events t !! s;
  retired_timers : ∀ s, s ∉ l → timers t' !! s = timers t !! s;
  retired_hash : hash_fct t' = hash_fct t;
  retired_match : match_fct t' = match_fct t;
  retired_gc_period : gc_period t' = gc_period t;
  retired_gc_thresh : gc_thresh t' = gc_thresh t;
  retired_gc_timer : gc_timer t' = gc_timer t;
  retired_priv : tracker_priv t' = tracker_priv t;
}.

(** The invariant of the data model: every record is either free in the
    pool or in one bucket, never both and never twice, and it is
    allocated; the table has its full array of buckets. *)
Record wf (t : latency_tracker) : Prop := {
  wf_nodup : NoDup (ht_entries t ++ events_free_list t);
  wf_alloc : ∀ s, s ∈ ht_entries t ++ events_free_list t →
                  is_Some (events t !! s);
  wf_size : length (ht t) = HASH_SIZE;
}.

(** The tracker can hash and compare keys: neither function pointer is
    NULL. *)
Definition usable (t : latency_tracker) : Prop :=
  is_Some (hash_fct t) ∧ is_Some (match_fct t).

(** [untouched p t t' calls]: going from [t] to [t'] while making the
    callbacks [calls] left the pooled record [p] alone: it is still in the
    pool, its contents are the same, no callback was given it, and the
    invariant still holds, so it is in the pool once and in no bucket. *)
Definition untouched (p : nat) (t t' : latency_tracker) (calls : list cb_call)
    : Prop :=
  wf t' ∧ p ∈ events_free_list t' ∧ events t' !! p = events t !! p ∧
  ∀ c, c ∈ calls → call_ptr c ≠ p.

(** hash_min yields an index into the array of buckets. *)
Definition hash_min_in_range : Prop := ∀ k, hash_min k < HASH_SIZE.

(** [opens a w n w']: [n] calls of latency_tracker_event_in on the tracker
    at [a] lead from [w] to [w'], each returned LATENCY_TRACKER_OK and none
    evicted a record; nothing else happened in between. *)
Inductive opens (a : nat) : world → nat → world → Prop :=
  | opens_nil w : opens a w 0 w
  | opens_step w n w1 w2 t key_arg key_len thresh_arg cb_arg timeout_arg
               unique priv_arg env :
      opens a w n w1 →
      trackers w1 !! a = Some t →
      ¬ evicts t key_arg key_len unique →
      latency_tracker_event_in w1 (Some a) key_arg key_len thresh_arg cb_arg
        timeout_arg unique priv_arg env = Some (LATENCY_TRACKER_OK, w2) →
      opens a w (S n) w2.

End tracker.

(** ** Invariants of a tracker across its entry points *)

Section invariants.
Context {PF : platform}.

(** Every record on the free list is cleared, as kzalloc and memset leave
    it. *)
Definition pool_zeroed (t : latency_tracker) : Prop :=
  Forall (λ p, events t !! p = Some zero_event) (events_free_list t).

(** A timer is pending only for a record that is in the table and whose
    timeout field is positive. *)
Definition timers_ok (t : latency_tracker) : Prop :=
  map_Forall
    (λ s _, s ∈ ht_entries t ∧
            from_option (λ e, (0 < timeout e)%Z) False (events t !! s))
    (timers t).

(** The tracker holds no record besides those in the table and those on
    the free list. *)
Definition records_owned (t : latency_tracker) : Prop :=
  map_Forall (λ s _, s ∈ ht_entries t ++ events_free_list t) (events t).

(** [tracker_ok C t]: the tracker has [C] records in all, each either in
    one bucket or once on the free list; the pooled ones are cleared and
    have no timer pending; both function pointers are set. *)
Record tracker_ok (C : nat) (t : latency_tracker) : Prop := {
  ok_wf : wf t;
  ok_usable : usable t;
  ok_size : length (ht_entries t) + length (events_free_list t) = C;
  ok_zeroed : pool_zeroed t;
  ok_timers : timers_ok t;
  ok_owned : records_owned t;
}.

(** The capacity that latency_tracker_create gives a tracker. *)
Definition capacity (max_events : Z) : nat :=
  Z.to_nat (if bool_decide (max_events = 0%Z)
            then DEFAULT_MAX_ALLOC_EVENTS else max_events).

End invariants.

Section create_error.
Context {PF : platform}.

(* The loop of latency_tracker_create that fills the free list, keeping
   the tracker as it is when a kzalloc fails: [inl t] is the jump to
   error_free_events with the tracker [t], [inr t] the end of the loop. *)
Fixpoint alloc_events_or_fail (n i avail : nat) (t : latency_tracker)
    : latency_tracker + latency_tracker :=
  match n with
  | O => inr t
  | S n' =>
      match avail with
      | O => inl t
      | S avail' =>
          alloc_events_or_fail n' (S i) avail'
            (set_free (cons i) (set_events <[i := zero_event]> t))
      end
  end.

(* latency_tracker_create on the path through error_free_events: the
   tracker as it is when kfree(tracker) is reached, after
   latency_tracker_destroy_free_list; [None] if that label is not
   reached. *)
Definition latency_tracker_create_error
    (match_arg : option (list Z → list Z → Z → Z))
    (hash_arg : option (list Z → Z → Z → Z))
    (max_events gc_period_arg gc_thresh_arg priv_arg : Z)
    (env : kernel_env) (avail : nat) (module_ok : bool)
    : option latency_tracker :=
  match avail with
  | O => None
  | S avail' =>
      let hf := match hash_arg with None => Some jhash | Some _ => None end in
      let mf := match match_arg with None => Some memcmp | Some _ => None end in
      let max_events :=
        if bool_decide (max_events = 0%Z) then DEFAULT_MAX_ALLOC_EVENTS
        else max_events in
      let t0 := mk_tracker hf mf gc_period_arg gc_thresh_arg priv_arg None
                  [] [] ∅ ∅ in
      let t1 := latency_tracker_enable_gc t0 env in
      let t2 := wrapper_ht_init t1 in
      match alloc_events_or_fail (Z.to_nat max_events) 0 avail' t2 with
      | inl t => Some (latency_tracker_destroy_free_list t)
      | inr t3 =>
          if module_ok then None
          else Some (latency_tracker_destroy_free_list t3)
      end
  end.

End create_error.

(** ** wrapper/ht.h: the variant built on rhashtable (RHASHTABLE defined)

    The table of the tracker is then a struct rhashtable keyed by hkey.
    wrapper_ht_add, wrapper_ht_del, wrapper_ht_clear and wrapper_ht_gc do
    to it what the other variant does to the array of hlists, and
    latency_tracker_event_destroy is the same function; the two bucket
    walks are written differently, as do-while loops around
    rhashtable_lookup. *)
Module RHASHTABLE.
Section rhashtable.
Context {PF : platform}.

(* the records of the chain of [k] whose hkey is [k], in chain order *)
Definition same_hash (t : latency_tracker) (k : Z) : list nat :=
  filter (λ s, hkey <$> events t !! s = Some k) (bucket t k).

(* rhashtable_lookup(&tracker->rht, &k): the first record of the chain of k
   whose hkey equals k, or NULL *)
Definition rhashtable_lookup (t : latency_tracker) (k : Z) : option nat :=
  head (same_hash t k).

(* The do-while loop of wrapper_ht_check_event.  Its body is the body of
   the loop of the other variant; after both the continue and the end of
   the body the test while (s) holds, since s is not NULL, and the lookup
   is made again; only the break on NULL leaves the loop.  The outer
   [None] means that the loop is still running when [fuel] iterations
   were made; [Some None] is a fault. *)
Fixpoint check_event_loop (fuel : nat) (key_arg : list Z)
    (key_len id now k : Z) (st : latency_tracker * list cb_call * Z)
    : option (option (latency_tracker * list cb_call * Z)) :=
  match fuel with
  | O => None
  | S fuel' =>
      match rhashtable_lookup st.1.1 k with
      | None => Some (Some st)
      | Some s =>
          match check_visit key_arg key_len id now s st with
          | None => Some None
          | Some st' => check_event_loop fuel' key_arg key_len id now k st'
          end
      end
  end.

Definition wrapper_ht_check_event (fuel : nat) (t : latency_tracker)
    (key_arg : list Z) (key_len id now : Z) (tr : list cb_call)
    : option (option (latency_tracker * list cb_call * Z)) :=
  match hash_fct t with
  | None => Some None
  | Some h =>
      check_event_loop fuel key_arg key_len id now (h key_arg key_len 0%Z)
        (t, tr, 0%Z)
  end.

(* The do-while loop of wrapper_ht_unique_check: the continue leads to
   the test while (s) and to the next lookup; the loop is left on NULL and
   after the first record that matches.  The function is taken on its own
   here, entered with tracker->lock free. *)
Fixpoint unique_check_loop (fuel : nat) (key_arg : list Z) (key_len k : Z)
    (st : latency_tracker * list cb_call)
    : option (option (latency_tracker * list cb_call)) :=
  match fuel with
  | O => None
  | S fuel' =>
      match rhashtable_lookup st.1 k with
      | None => Some (Some st)
      | Some s =>
          match events st.1 !! s, match_fct st.1 with
          | Some e, Some m =>
              if bool_decide (m key_arg (key e) key_len ≠ 0%Z)
              then unique_check_loop fuel' key_arg key_len k st
              else
                let t1 := store st.1 s
                            (set_cb_flag LATENCY_TRACKER_CB_UNIQUE e) in
                Some (tr1 ← run_cb t1 s st.2;
                      t2 ← latency_tracker_event_destroy LockFree t1 s;
                      Some (t2, tr1))
          | _, _ => Some None
          end
      end
  end.

Definition wrapper_ht_unique_check (fuel : nat) (t : latency_tracker)
    (key_arg : list Z) (key_len : Z) (tr : list cb_call)
    : option (option (latency_tracker * list cb_call)) :=
  match hash_fct t with
  | None => Some None
  | Some h =>
      unique_check_loop fuel key_arg key_len (h key_arg (u32 key_len) 0%Z)
        (t, tr)
  end.

End rhashtable.
End RHASHTABLE.

(** ** latency_tracker.c: the self test of the module *)

(* strlen: the number of bytes before the first NUL *)
Fixpoint strlen (s : list Z) : nat :=
  match s with
  | [] => 0
  | c :: s' => if (c =? 0)%Z then 0 else S (strlen s')
  end.

(* the address of example_cb, which prints the key, the private pointer
   and the cb_flag of the record it is given *)
Definition example_cb : nat := 0.

Section module_init.
Context {PF : platform}.

(* [clock i] is what the kernel provides during the i-th call that
   test_tracker makes; the results of the two latency_tracker_event_in are
   only printed. *)
Definition test_tracker (w : world) (clock : nat → kernel_env) (avail : nat)
    (module_ok : bool) : option (Z * world) :=
  (* "blablabla1" and "bliblibli1", with their terminators *)
  let k1 := [98; 108; 97; 98; 108; 97; 98; 108; 97; 49; 0]%Z in
  let k2 := [98; 108; 105; 98; 108; 105; 98; 108; 105; 49; 0]%Z in
  match latency_tracker_create w None None 3 0 0 0 (clock 0) avail
          module_ok with
  | (None, w0) => Some ((-1)%Z, w0)
  | (Some tracker, w0) =>
      r1 ← latency_tracker_event_in w0 (Some tracker) k1
              (Z.of_nat (strlen k1) + 1) 6 (Some example_cb) 0 0 0 (clock 1);
      r2 ← latency_tracker_event_in r1.2 (Some tracker) k2
              (Z.of_nat (strlen k2) + 1) 400 (Some example_cb) 0 0 0
              (clock 2);
      r3 ← latency_tracker_event_out r2.2 (Some tracker) k1
              (Z.of_nat (strlen k1) + 1) 0 (clock 3);
      r4 ← latency_tracker_event_out r3.2 (Some tracker) k2
              (Z.of_nat (strlen k2) + 1) 0 (clock 4);
      r5 ← latency_tracker_event_out r4.2 (Some tracker) k1
              (Z.of_nat (strlen k1) + 1) 0 (clock 5);
      r6 ← latency_tracker_destroy r5.2 tracker;
      Some (0%Z, r6.2)
  end.

(* [lttng_ret] is the result of lttng_tracepoint_init *)
Definition latency_tracker_init (w : world) (clock : nat → kernel_env)
    (avail : nat) (module_ok : bool) (lttng_ret : Z) : option (Z * world) :=
  r ← test_tracker w clock avail module_ok;
  Some (lttng_ret, r.2).

End module_init.

(** ** The life of a tracker *)

Section life.
Context {PF : platform}.

(** [tracker_step a w w']: one call on the tracker at [a] that returns leads
    from [w] to [w']: an entry point called with any arguments, or one of
    the two timer handlers, run for a timer that is pending. *)
Inductive tracker_step (a : nat) : world → world → Prop :=
  | step_event_in w key_arg key_len thresh_arg cb_arg timeout_arg unique
                  priv_arg env r w' :
      latency_tracker_event_in w (Some a) key_arg key_len thresh_arg cb_arg
        timeout_arg unique priv_arg env = Some (r, w') →
      tracker_step a w w'
  | step_event_out w key_arg key_len id env r w' :
      latency_tracker_event_out w (Some a) key_arg key_len id env
        = Some (r, w') →
      tracker_step a w w'
  | step_timeout_cb w t ptr x w' :
      trackers w !! a = Some t → timers t !! ptr = Some x →
      latency_tracker_timeout_cb w a ptr = Some w' →
      tracker_step a w w'
  | step_gc_cb w t x env w' :
      trackers w !! a = Some t → gc_timer t = Some x →
      latency_tracker_gc_cb w a env = Some w' →
      tracker_step a w w'
  | step_set_gc_period w v env w' :
      latency_tracker_set_gc_period w a v env = Some w' →
      tracker_step a w w'
  | step_set_gc_thresh w v env w' :
      latency_tracker_set_gc_thresh w a v env = Some w' →
      tracker_step a w w'.

End life.

(** ** A small platform on which the operations can be run *)

(* a stand-in for jhash: the sum of the bytes of the key *)
Definition demo_jhash (k : list Z) (len initval : Z) : Z :=
  foldr Z.add initval (take (Z.to_nat len) k).

(* an SMP kernel: spin locks spin *)
Definition demo_platform : platform := {|
  LATENCY_TRACKER_MAX_KEY_SIZE := 8;
  HASH_SIZE := 4;
  hash_min := λ k, Z.to_nat (k mod 4);
  jhash := demo_jhash;
  wrapper_nsecs_to_jiffies := λ n, (n / 1000)%Z;
  spin_lock_spins := true;
|}.

(* the same on a uniprocessor kernel, where the lock operations only
   disable interrupts *)
Definition demo_platform_up : platform := {|
  LATENCY_TRACKER_MAX_KEY_SIZE := 8;
  HASH_SIZE := 4;
  hash_min := λ k, Z.to_nat (k mod 4);
  jhash := demo_jhash;
  wrapper_nsecs_to_jiffies := λ n, (n / 1000)%Z;
  spin_lock_spins := false;
|}.

Definition demo_env (now : Z) : kernel_env := mk_env false now (now / 1000).

Definition demo_w0 : world := mk_world ∅ [].

Definition demo_k1 : list Z := [1; 2; 3]%Z.
Definition demo_k2 : list Z := [2; 2; 3]%Z.

(* the world that a call leaves behind *)
Definition after {A} (r : option (A * world)) : world :=
  default demo_w0 (snd <$> r).

(* latency_tracker_create(NULL, NULL, n, 0, 0, NULL) *)
Definition demo_created (n : Z) : world :=
  (latency_tracker_create (PF := demo_platform) demo_w0 None None n 0 0 0
     (demo_env 0) 200 true).2.

(* event_in(tracker, key, 3, thresh, cb 7, timeout, unique, NULL) at [now] *)
Definition demo_in (w : world) (k : list Z) (thresh_arg timeout_arg unique now : Z)
    : option (latency_tracker_event_in_ret * world) :=
  latency_tracker_event_in (PF := demo_platform) w (Some 0) k 3 thresh_arg
    (Some 7) timeout_arg unique 0 (demo_env now).

(* event_out(tracker, key, 3, id) at [now] *)
Definition demo_out (w : world) (k : list Z) (id now : Z) : option (Z * world) :=
  latency_tracker_event_out (PF := demo_platform) w (Some 0) k 3 id
    (demo_env now).

(* the tracker at address 0 *)
Definition demo_tracker (w : world) : latency_tracker :=
  default (mk_tracker None None 0 0 0 None [] [] ∅ ∅) (trackers w !! 0).

(* the record at address [s] of the tracker at address 0 *)
Definition demo_event (w : world) (s : nat) : latency_tracker_event :=
  default (mk_event 0 [] 0 0 0 0 None 0 LATENCY_TRACKER_CB_NONE 0)
          (events (demo_tracker w) !! s).

(* what a trace shows of each call: the record and its cb_flag *)
Definition flags (tr : list cb_call) : list (nat * latency_tracker_cb_flag) :=
  (λ c, (call_ptr c, cb_flag (call_ev c))) <$> tr.

(* capacity 2; key 1 opened at time 10, threshold 6: it is in record 0 *)
Definition demo_w1 : world := after (demo_in (demo_created 2) demo_k1 6 0 0 10).
(* then key 2 opened at time 20, threshold 400: the pool is empty *)
Definition demo_w2 : world := after (demo_in demo_w1 demo_k2 400 0 0 20).

(* a key that differs from key 1 and falls in the same bucket *)
Definition demo_k3 : list Z := [5; 2; 3]%Z.
(* key 1 then key 3: both are in bucket 2, key 3 first *)
Definition demo_w13 : world := after (demo_in demo_w1 demo_k3 6 0 0 20).

(* capacity 1; key 1 opened: the pool is empty *)
Definition demo_v1 : world := after (demo_in (demo_created 1) demo_k1 6 0 0 10).

(* capacity 2; key 1 opened at time 10 with a timeout of 5 ms *)
Definition demo_wt : world :=
  after (demo_in (demo_created 2) demo_k1 6 5000000 0 10).

(* latency_tracker_create(NULL, NULL, 2, 1000, 100, NULL), then key 1
   opened at time 10 *)
Definition demo_g0 : world :=
  (latency_tracker_create (PF := demo_platform) demo_w0 None None 2 1000 100 0
     (demo_env 0) 200 true).2.
Definition demo_g1 : world := after (demo_in demo_g0 demo_k1 6 0 0 10).

(* latency_tracker_create(memcmp, demo_jhash, 3, 0, 0, NULL) *)
Definition demo_supplied : world :=
  (latency_tracker_create (PF := demo_platform) demo_w0 (Some memcmp)
     (Some demo_jhash) 3 0 0 0 (demo_env 0) 200 true).2.

(* a key that differs from key 1 and has the same hash value *)
Definition demo_k4 : list Z := [3; 2; 1]%Z.
(* key 1 then key 4: both have hkey 6, key 4 is first in the chain *)
Definition demo_w14 : world := after (demo_in demo_w1 demo_k4 6 0 0 20).

(* the demo platform with room for keys of 16 bytes *)
Definition demo_platform16 : platform := {|
  LATENCY_TRACKER_MAX_KEY_SIZE := 16;
  HASH_SIZE := 4;
  hash_min := λ k, Z.to_nat (k mod 4);
  jhash := demo_jhash;
  wrapper_nsecs_to_jiffies := λ n, (n / 1000)%Z;
  spin_lock_spins := true;
|}.

(* the i-th call is made at time 1000 * i *)
Definition demo_clock (i : nat) : kernel_env := demo_env (1000 * Z.of_nat i).

(* a call made from an NMI *)
Definition demo_nmi : kernel_env := mk_env true 0 0.

(* the first two bytes of key 1 *)
Definition demo_k12 : list Z := [1; 2]%Z.

(* From demo_w1, on two processors.  A call event_out(tracker, key 1, 3,
   id 1) made at time 30 has reached the spin_unlock_irqrestore that
   precedes latency_tracker_event_destroy for record 0 *)
Definition demo_w1a : world :=
  default demo_w0
    (fst <$> latency_tracker_event_out_begin (PF := demo_platform) demo_w1 0
               demo_k1 3 1 (demo_env 30)).
(* then a call event_out(tracker, key 1, 3, id 2) made at time 31 on the
   other processor has run to its end *)
Definition demo_w1ab : world := after (demo_out demo_w1a demo_k1 2 31).
(* then the first call has retired record 0 in its turn *)
Definition demo_w1aba : world :=
  default demo_w0
    (fst <$> latency_tracker_event_out_resume (PF := demo_platform) demo_w1ab
               0 demo_k1 3 1 30 (CheckUnlocked 0 None)).

(* capacity 2; key 1 opened at time 10 with a timeout of 5 ms and no
   callback *)
Definition demo_wtn : world :=
  after (latency_tracker_event_in (PF := demo_platform) (demo_created 2)
           (Some 0) demo_k1 3 6 None 5000000 0 0 (demo_env 10)).

(** * Proofs *)

(* the record that a chain of field assignments leaves, field by field *)
Ltac by_value :=
  unfold set_cb_out_id, set_cb_flag, set_end_ts, set_timeout;
  cbn [hkey key start_ts end_ts thresh timeout cb priv cb_flag cb_out_id].

Section proofs.
Context {PF : platform}.
Implicit Types (t : latency_tracker) (s : nat) (l : list nat).

(** ** Lists *)

Lemma filter_all (P : nat → Prop) `{∀ x, Decision (P x)} l :
  (∀ x, x ∈ l → P x) → filter P l = l.
Proof.
  induction l as [|x l IH]; intros Hall; [done|].
  rewrite filter_cons_True by (apply Hall; left).
  f_equal. apply IH. intros y Hy. apply Hall. by right.
Qed.

Lemma filter_none (P : nat → Prop) `{∀ x, Decision (P x)} l :
  (∀ x, x ∈ l → ¬ P x) → filter P l = [].
Proof.
  induction l as [|x l IH]; intros Hall; [done|].
  rewrite filter_cons_False by (apply Hall; left).
  apply IH. intros y Hy. apply Hall. by right.
Qed.

Lemma join_fmap_filter (P : nat → Prop) `{∀ x, Decision (P x)}
    (ls : list (list nat)) :
  mjoin (filter P <$> ls) = filter P (mjoin ls).
Proof.
  induction ls as [|x ls IH]; [done|].
  simpl. rewrite filter_app. by f_equal.
Qed.

Lemma bind_ext_in {B} (f g : nat → list B) l :
  (∀ x, x ∈ l → f x = g x) → l ≫= f = l ≫= g.
Proof.
  induction l as [|x l IH]; intros Hfg; [done|].
  rewrite !bind_cons. f_equal; [apply Hfg; left|].
  apply IH. intros y Hy. apply Hfg. by right.
Qed.

Lemma filter_ext_in (P Q : nat → Prop) `{∀ x, Decision (P x)}
    `{∀ x, Decision (Q x)} l :
  (∀ x, x ∈ l → P x ↔ Q x) → filter P l = filter Q l.
Proof.
  induction l as [|x l IH]; intros HPQ; [done|].
  rewrite !filter_cons.
  assert (filter P l = filter Q l) as ->.
  { apply IH. intros y Hy. apply HPQ. by right. }
  destruct (decide (P x)) as [HP|HP]; destruct (decide (Q x)) as [HQ|HQ];
    try done; exfalso; apply (HPQ x) in HP || apply (HPQ x) in HQ;
    done || by left.
Qed.

Lemma filter_not_in_remainder (E l : list nat) :
  NoDup E → NoDup l → (∀ x, x ∈ l → x ∈ E) →
  filter (λ x, x ∉ l) E ++ l ≡ₚ E.
Proof.
  intros HE Hl Hsub.
  rewrite <- (filter_app_complement (λ x, x ∉ l) E) at 2.
  apply Permutation_app_head.
  apply NoDup_Permutation; [done|by apply NoDup_filter|].
  intros x. rewrite list_elem_of_filter. split.
  - intros Hx. split; [tauto|by apply Hsub].
  - intros [Hx _]. by destruct (decide (x ∈ l)).
Qed.

Lemma join_alter_cons x (ls : list (list nat)) b :
  b < length ls → mjoin (alter (cons x) b ls) ≡ₚ x :: mjoin ls.
Proof.
  revert b. induction ls as [|y ls IH]; intros b Hb; simpl in *; [lia|].
  destruct b as [|b]; simpl; [done|].
  etransitivity; [|apply Permutation_sym, Permutation_middle].
  apply Permutation_app_head, IH. lia.
Qed.

Lemma elem_of_bucket_entries t k s : s ∈ bucket t k → s ∈ ht_entries t.
Proof.
  unfold bucket, ht_entries. intros Hs.
  destruct (ht t !! hash_min k) as [b|] eqn:Hb; simpl in Hs.
  - apply list_elem_of_join. exists b. split; [done|].
    by eapply list_elem_of_lookup_2.
  - by apply elem_of_nil in Hs.
Qed.

Lemma NoDup_join_lookup (ls : list (list nat)) b i :
  NoDup (mjoin ls) → ls !! i = Some b → NoDup b.
Proof.
  revert i. induction ls as [|x ls IH]; intros i Hnd Hi; [done|].
  simpl in Hnd. apply NoDup_app in Hnd as (Hx & _ & Hls).
  destruct i as [|i]; simpl in Hi; [by simplify_eq|]. by eapply IH.
Qed.

(** ** Retirement *)

Lemma retired_refl t : retired [] t t.
Proof.
  constructor; try done.
  - rewrite <- (list_fmap_id (ht t)) at 1. apply list_fmap_ext.
    intros i b _. simpl. symmetry. apply filter_all.
    intros x _. apply not_elem_of_nil.
  - intros s Hs. by apply elem_of_nil in Hs.
Qed.

Lemma retired_trans l1 l2 t t1 t2 :
  retired l1 t t1 → retired l2 t1 t2 → retired (l1 ++ l2) t t2.
Proof.
  intros H1 H2. constructor.
  - rewrite (retired_ht _ _ _ H2), (retired_ht _ _ _ H1).
    rewrite <- list_fmap_compose. apply list_fmap_ext. intros i b _. simpl.
    rewrite list_filter_filter. apply list_filter_iff.
    intros x. rewrite not_elem_of_app. tauto.
  - rewrite (retired_free _ _ _ H2), (retired_free _ _ _ H1).
    by rewrite reverse_app, (assoc_L (++)).
  - intros s Hs. destruct (decide (s ∈ l2)) as [Hin|Hout].
    + by apply (retired_zero _ _ _ H2).
    + rewrite (retired_events _ _ _ H2) by done.
      apply (retired_zero _ _ _ H1).
      apply elem_of_app in Hs as [?|?]; done.
  - intros s Hs. apply not_elem_of_app in Hs as [Hs1 Hs2].
    rewrite (retired_events _ _ _ H2) by done.
    by apply (retired_events _ _ _ H1).
  - intros s Hs. apply not_elem_of_app in Hs as [Hs1 Hs2].
    rewrite (retired_timers _ _ _ H2) by done.
    by apply (retired_timers _ _ _ H1).
  - by rewrite (retired_hash _ _ _ H2), (retired_hash _ _ _ H1).
  - by rewrite (retired_match _ _ _ H2), (retired_match _ _ _ H1).
  - by rewrite (retired_gc_period _ _ _ H2), (retired_gc_period _ _ _ H1).
  - by rewrite (retired_gc_thresh _ _ _ H2), (retired_gc_thresh _ _ _ H1).
  - by rewrite (retired_gc_timer _ _ _ H2), (retired_gc_timer _ _ _ H1).
  - by rewrite (retired_priv _ _ _ H2), (retired_priv _ _ _ H1).
Qed.

Lemma retired_cons s l t t1 t2 :
  retired [s] t t1 → retired l t1 t2 → retired (s :: l) t t2.
Proof. apply (retired_trans [s] l). Qed.

Lemma filter_ne_singleton s (b : list nat) :
  filter (λ x, x ≠ s) b = filter (λ x, x ∉ [s]) b.
Proof.
  apply list_filter_iff. intros x. by rewrite list_elem_of_singleton.
Qed.

Ltac retired_one :=
  case_match; constructor; simpl; try done;
  try (apply list_fmap_ext; intros ? ? _; apply filter_ne_singleton);
  (intros x Hx; rewrite list_elem_of_singleton in Hx; try subst x;
   by rewrite ?lookup_insert_eq, ?lookup_insert_ne, ?lookup_delete_ne
     by congruence).

Lemma destroy_spec t s e :
  events t !! s = Some e →
  ∃ t', latency_tracker_event_destroy LockFree t s = Some t' ∧
        retired [s] t t'.
Proof.
  intros He. unfold latency_tracker_event_destroy. simpl. rewrite He. simpl.
  eexists. split; [done|]. retired_one.
Qed.

Lemma destroy_store_spec t s e' :
  ∃ t', latency_tracker_event_destroy LockFree (store t s e') s = Some t' ∧
        retired [s] t t'.
Proof.
  unfold latency_tracker_event_destroy. simpl. rewrite lookup_insert_eq.
  simpl. eexists. split; [done|]. retired_one.
Qed.

Lemma destroy_lock lk t s :
  is_Some (spin_lock_irqsave lk) →
  latency_tracker_event_destroy lk t s
  = latency_tracker_event_destroy LockFree t s.
Proof. unfold latency_tracker_event_destroy. by intros [lk' ->]. Qed.

Lemma destroy_spins t s :
  spin_lock_spins = true → latency_tracker_event_destroy LockHeld t s = None.
Proof.
  intros Hspin. unfold latency_tracker_event_destroy, spin_lock_irqsave.
  by rewrite Hspin.
Qed.

Lemma lock_held_returns :
  spin_lock_spins = false → is_Some (spin_lock_irqsave LockHeld).
Proof. intros Hspin. unfold spin_lock_irqsave. rewrite Hspin. by eexists. Qed.

Lemma retired_entries l t t' :
  retired l t t' → ht_entries t' = filter (λ x, x ∉ l) (ht_entries t).
Proof.
  intros Hr. unfold ht_entries. rewrite (retired_ht _ _ _ Hr).
  apply join_fmap_filter.
Qed.

Lemma retired_bucket l t t' k :
  retired l t t' → bucket t' k = filter (λ x, x ∉ l) (bucket t k).
Proof.
  intros Hr. unfold bucket. rewrite (retired_ht _ _ _ Hr), list_lookup_fmap.
  by destruct (ht t !! hash_min k).
Qed.

Lemma retired_key_matches l t t' key_arg key_len s :
  retired l t t' → s ∉ l →
  key_matches t' key_arg key_len s = key_matches t key_arg key_len s.
Proof.
  intros Hr Hs. unfold key_matches.
  by rewrite (retired_events _ _ _ Hr), (retired_match _ _ _ Hr).
Qed.

Lemma retired_wf l t t' :
  wf t → retired l t t' → NoDup l → (∀ s, s ∈ l → s ∈ ht_entries t) → wf t'.
Proof.
  intros [Hnd Hal Hsz] Hr Hl Hsub.
  apply NoDup_app in Hnd as (HE & Hdisj & HF).
  constructor.
  - rewrite (retired_entries _ _ _ Hr), (retired_free _ _ _ Hr).
    apply NoDup_app. split; [by apply NoDup_filter|]. split.
    + intros x [Hx HxE]%list_elem_of_filter [HxL|HxF]%elem_of_app.
      * rewrite elem_of_reverse in HxL. by apply Hx.
      * by apply (Hdisj x HxE).
    + apply NoDup_app. split; [by rewrite reverse_Permutation|]. split; [|done].
      intros x HxL. rewrite elem_of_reverse in HxL. apply Hdisj. by apply Hsub.
  - intros s Hs. destruct (decide (s ∈ l)) as [Hin|Hout].
    + rewrite (retired_zero _ _ _ Hr) by done. by eexists.
    + rewrite (retired_events _ _ _ Hr) by done. apply Hal.
      rewrite (retired_entries _ _ _ Hr), (retired_free _ _ _ Hr) in Hs.
      rewrite !elem_of_app, list_elem_of_filter, elem_of_reverse in Hs.
      rewrite elem_of_app. tauto.
  - by rewrite (retired_ht _ _ _ Hr), length_fmap.
Qed.

Lemma retired_lengths l t t' :
  wf t → retired l t t' → NoDup l → (∀ s, s ∈ l → s ∈ ht_entries t) →
  length (ht_entries t') + length l = length (ht_entries t) ∧
  length (events_free_list t') = length l + length (events_free_list t).
Proof.
  intros [Hnd _ _] Hr Hl Hsub.
  apply NoDup_app in Hnd as (HE & _ & _). split.
  - rewrite (retired_entries _ _ _ Hr), <- length_app.
    by rewrite (filter_not_in_remainder _ _ HE Hl Hsub).
  - by rewrite (retired_free _ _ _ Hr), length_app, length_reverse.
Qed.

(** ** The walks over the table *)

Local Arguments latency_tracker_event_destroy : simpl never.
Local Arguments clear_visit : simpl never.
Local Arguments gc_visit : simpl never.
Local Arguments check_visit : simpl never.

Lemma alloc_after_retired s l t t1 :
  retired [s] t t1 →
  (∀ x, x ∈ s :: l → is_Some (events t !! x)) →
  ∀ x, x ∈ l → is_Some (events t1 !! x).
Proof.
  intros Hr Hal x Hx. destruct (decide (x = s)) as [->|Hne].
  - rewrite (retired_zero _ _ _ Hr) by (by left). by eexists.
  - rewrite (retired_events _ _ _ Hr).
    + apply Hal. by right.
    + by rewrite list_elem_of_singleton.
Qed.

Lemma for_each_cons {S} (body : nat → S → option S) s l (st : S) :
  for_each body (s :: l) st = body s st ≫= for_each body l.
Proof. done. Qed.

Lemma bind_Some_l {A B} (x : A) (f : A → option B) : Some x ≫= f = f x.
Proof. done. Qed.

Lemma clear_loop l : ∀ t n,
  (∀ s, s ∈ l → is_Some (events t !! s)) →
  ∃ t', for_each clear_visit l (t, n) = Some (t', (n + Z.of_nat (length l))%Z) ∧
        retired l t t'.
Proof.
  induction l as [|s l IH]; intros t n Hal.
  - exists t. simpl. rewrite Z.add_0_r. split; [done|apply retired_refl].
  - destruct (Hal s) as [e He]; [by left|].
    destruct (destroy_spec t s e He) as (t1 & Hd & Hr1).
    destruct (IH t1 (n + 1)%Z) as (t' & Hloop & Hr).
    { by apply (alloc_after_retired s l t). }
    exists t'. split; [|by eapply retired_cons].
    rewrite for_each_cons.
    change (clear_visit s (t, n)) with
      (latency_tracker_event_destroy LockFree t s
         ≫= λ t', Some (t', (n + 1)%Z)).
    rewrite Hd. simpl.
    rewrite Hloop. do 2 f_equal. simpl length. lia.
Qed.

Lemma gc_call_retired l t t1 now s :
  retired l t t1 → s ∉ l → gc_call t1 now s = gc_call t now s.
Proof.
  intros Hr Hs. unfold gc_call.
  by rewrite (retired_events _ _ _ Hr), (retired_gc_thresh _ _ _ Hr).
Qed.

Lemma check_call_retired l t t1 id now s :
  retired l t t1 → s ∉ l → check_call t1 id now s = check_call t id now s.
Proof.
  intros Hr Hs. unfold check_call. by rewrite (retired_events _ _ _ Hr).
Qed.

Lemma gc_visit_spec lk now t tr s e :
  is_Some (spin_lock_irqsave lk) →
  events t !! s = Some e →
  ∃ t1, gc_visit lk now s (t, tr) = Some (t1, tr ++ gc_call t now s) ∧
        retired [s] t t1.
Proof.
  intros Hlk He. unfold gc_visit, gc_call. simpl. rewrite He. simpl.
  destruct (u64 (now - start_ts e) >? gc_thresh t)%Z.
  - destruct (destroy_store_spec t s
                (set_cb_flag LATENCY_TRACKER_CB_GC (set_end_ts now e)))
      as (t1 & Hd & Hr).
    exists t1. split; [|done].
    unfold run_cb. simpl. rewrite lookup_insert_eq. simpl.
    rewrite (destroy_lock lk _ _ Hlk), Hd. simpl. by_value.
    destruct (cb e); by rewrite ?app_nil_r.
  - destruct (destroy_spec t s e He) as (t1 & Hd & Hr).
    exists t1. split; [|done]. simpl.
    rewrite (destroy_lock lk _ _ Hlk), Hd. simpl.
    by rewrite app_nil_r.
Qed.

(* where spin locks spin, the walk of the collector does not get past the
   first record: latency_tracker_event_destroy waits for the lock that
   latency_tracker_gc_cb holds *)
Lemma gc_visit_spins now s st :
  spin_lock_spins = true → gc_visit LockHeld now s st = None.
Proof.
  intros Hspin. unfold gc_visit.
  destruct (events st.1 !! s) as [e|]; [|done]. simpl.
  destruct (u64 (now - start_ts e) >? gc_thresh st.1)%Z; simpl.
  - unfold run_cb. simpl. rewrite lookup_insert_eq. simpl.
    by rewrite destroy_spins.
  - by rewrite destroy_spins.
Qed.

Lemma gc_loop lk now l : ∀ t tr,
  is_Some (spin_lock_irqsave lk) →
  NoDup l → (∀ s, s ∈ l → is_Some (events t !! s)) →
  ∃ t', for_each (gc_visit lk now) l (t, tr)
          = Some (t', tr ++ (l ≫= gc_call t now)) ∧
        retired l t t'.
Proof.
  induction l as [|s l IH]; intros t tr Hlk Hnd Hal.
  - exists t. simpl. rewrite app_nil_r. split; [done|apply retired_refl].
  - apply NoDup_cons in Hnd as [Hs Hnd].
    destruct (Hal s) as [e He]; [by left|].
    destruct (gc_visit_spec lk now t tr s e Hlk He) as (t1 & Hv & Hr1).
    destruct (IH t1 (tr ++ gc_call t now s) Hlk Hnd) as (t' & Hloop & Hr).
    { by apply (alloc_after_retired s l t). }
    exists t'. split; [|by eapply retired_cons].
    rewrite for_each_cons, Hv, bind_Some_l, Hloop.
    rewrite bind_cons, <- (assoc_L (++)).
    rewrite (bind_ext_in (gc_call t1 now) (gc_call t now)); [done|].
    intros x Hx. apply (gc_call_retired [s]); [done|].
    rewrite list_elem_of_singleton. by intros ->.
Qed.

Lemma key_matches_eq t key_arg key_len s e m :
  events t !! s = Some e → match_fct t = Some m →
  key_matches t key_arg key_len s
    = negb (bool_decide (m key_arg (key e) key_len ≠ 0%Z)).
Proof.
  intros He Hm. unfold key_matches. rewrite He, Hm.
  repeat case_bool_decide; simpl; done.
Qed.

Lemma check_visit_spec key_arg key_len id now t tr found s e m :
  events t !! s = Some e → match_fct t = Some m →
  if key_matches t key_arg key_len s then
    ∃ t1, check_visit key_arg key_len id now s (t, tr, found)
            = Some (t1, tr ++ check_call t id now s, 1%Z) ∧
          retired [s] t t1
  else check_visit key_arg key_len id now s (t, tr, found)
         = Some (t, tr, found).
Proof.
  intros He Hm. rewrite (key_matches_eq _ _ _ _ _ _ He Hm).
  unfold check_visit, check_call. rewrite He, Hm. simpl.
  destruct (bool_decide (m key_arg (key e) key_len ≠ 0%Z)); simpl; [done|].
  destruct (u64 (now - start_ts e) >? thresh e)%Z.
  - destruct (destroy_store_spec t s
                (set_cb_out_id id
                   (set_cb_flag LATENCY_TRACKER_CB_NORMAL (set_end_ts now e))))
      as (t1 & Hd & Hr).
    exists t1. split; [|done].
    unfold run_cb. simpl. rewrite lookup_insert_eq. simpl. rewrite Hd. simpl.
    by_value. destruct (cb e); by rewrite ?app_nil_r.
  - destruct (destroy_spec t s e He) as (t1 & Hd & Hr).
    exists t1. split; [|done]. simpl. rewrite Hd. simpl.
    by rewrite app_nil_r.
Qed.

Lemma check_loop key_arg key_len id now m l : ∀ t tr found,
  NoDup l → (∀ s, s ∈ l → is_Some (events t !! s)) →
  match_fct t = Some m →
  let M := filter (λ s, key_matches t key_arg key_len s) l in
  ∃ t', for_each (check_visit key_arg key_len id now) l (t, tr, found)
          = Some (t', tr ++ (M ≫= check_call t id now),
                  if bool_decide (M = []) then found else 1%Z) ∧
        retired M t t'.
Proof.
  induction l as [|s l IH]; intros t tr found Hnd Hal Hm M.
  - exists t. simpl. rewrite app_nil_r. split; [done|apply retired_refl].
  - apply NoDup_cons in Hnd as [Hs Hnd].
    destruct (Hal s) as [e He]; [by left|].
    pose proof (check_visit_spec key_arg key_len id now t tr found s e m
                  He Hm) as Hv.
    subst M. rewrite filter_cons.
    destruct (key_matches t key_arg key_len s) eqn:Hk.
    + destruct Hv as (t1 & Hv & Hr1).
      destruct (IH t1 (tr ++ check_call t id now s) 1%Z Hnd)
        as (t' & Hloop & Hr).
      { by apply (alloc_after_retired s l t). }
      { by rewrite (retired_match _ _ _ Hr1). }
      assert (filter (λ x, key_matches t1 key_arg key_len x) l
              = filter (λ x, key_matches t key_arg key_len x) l) as Hf.
      { apply filter_ext_in. intros x Hx.
        rewrite (retired_key_matches [s] t t1); [done|done|].
        rewrite list_elem_of_singleton. by intros ->. }
      rewrite Hf in Hloop, Hr.
      rewrite decide_True by (rewrite ?Hk; simpl; tauto).
      exists t'. split; [|by eapply retired_cons].
      rewrite for_each_cons, Hv, bind_Some_l, Hloop.
      rewrite bind_cons, <- (assoc_L (++)).
      rewrite (bind_ext_in (check_call t1 id now) (check_call t id now)).
      * by repeat case_bool_decide.
      * intros x [_ Hx]%list_elem_of_filter.
        apply (check_call_retired [s]); [done|].
        rewrite list_elem_of_singleton. by intros ->.
    + destruct (IH t tr found Hnd) as (t' & Hloop & Hr); [|done|].
      { intros x Hx. apply Hal. by right. }
      rewrite decide_False by (rewrite ?Hk; simpl; tauto).
      exists t'. split; [|done]. by rewrite for_each_cons, Hv.
Qed.

Lemma unique_loop_spec lk key_arg key_len m l : ∀ t tr,
  (∀ s, s ∈ l → is_Some (events t !! s)) →
  match_fct t = Some m →
  is_Some (spin_lock_irqsave lk) ∨
    filter (λ s, key_matches t key_arg key_len s) l = [] →
  let M := take 1 (filter (λ s, key_matches t key_arg key_len s) l) in
  ∃ t', unique_loop lk key_arg key_len l (t, tr)
          = Some (t', tr ++ (M ≫= unique_call t)) ∧
        retired M t t'.
Proof.
  induction l as [|s l IH]; intros t tr Hal Hm Hlk M.
  - exists t. simpl. rewrite app_nil_r. split; [done|apply retired_refl].
  - destruct (Hal s) as [e He]; [by left|].
    subst M. rewrite filter_cons in Hlk |- *.
    pose proof (key_matches_eq t key_arg key_len s e m He Hm) as Hk.
    simpl. rewrite He, Hm. simpl.
    destruct (bool_decide (m key_arg (key e) key_len ≠ 0%Z)); simpl in Hk.
    + rewrite decide_False by (rewrite ?Hk; simpl; tauto).
      rewrite decide_False in Hlk by (rewrite ?Hk; simpl; tauto).
      apply IH; [|done|done]. intros x Hx. apply Hal. by right.
    + rewrite decide_True by (rewrite ?Hk; simpl; tauto). simpl.
      rewrite decide_True in Hlk by (rewrite ?Hk; simpl; tauto).
      destruct Hlk as [Hlk|Hlk]; [|done].
      destruct (destroy_store_spec t s
                  (set_cb_flag LATENCY_TRACKER_CB_UNIQUE e))
        as (t1 & Hd & Hr).
      exists t1. split; [|done].
      unfold run_cb, unique_call. simpl. rewrite lookup_insert_eq, He. simpl.
      rewrite (destroy_lock lk _ _ Hlk), Hd. simpl. rewrite app_nil_r.
      by_value. destruct (cb e); by rewrite ?app_nil_r.
Qed.

(* where spin locks spin, the duplicate check does not get past the first
   record that matches: latency_tracker_event_destroy waits for the lock
   that latency_tracker_event_in holds *)
Lemma unique_loop_spins key_arg key_len l : ∀ st,
  spin_lock_spins = true →
  filter (λ s, key_matches st.1 key_arg key_len s) l ≠ [] →
  unique_loop LockHeld key_arg key_len l st = None.
Proof.
  induction l as [|s l IH]; intros st Hspin HM; [done|].
  simpl. destruct (events st.1 !! s) as [e|] eqn:He; [|done]. simpl.
  destruct (match_fct st.1) as [m|] eqn:Hm; [|done]. simpl.
  pose proof (key_matches_eq st.1 key_arg key_len s e m He Hm) as Hk.
  destruct (bool_decide (m key_arg (key e) key_len ≠ 0%Z)); simpl in Hk.
  - apply IH; [done|].
    rewrite filter_cons, decide_False in HM by (rewrite ?Hk; simpl; tauto).
    done.
  - unfold run_cb. simpl. rewrite lookup_insert_eq. simpl.
    by rewrite destroy_spins.
Qed.

(** ** The invariant and the table operations *)

Lemma wf_entries t :
  wf t →
  NoDup (ht_entries t) ∧ ∀ s, s ∈ ht_entries t → is_Some (events t !! s).
Proof.
  intros [Hnd Hal _]. apply NoDup_app in Hnd as (HE & _ & _).
  split; [done|]. intros s Hs. apply Hal, elem_of_app. by left.
Qed.

Lemma wf_bucket t k :
  wf t →
  NoDup (bucket t k) ∧ ∀ s, s ∈ bucket t k → is_Some (events t !! s).
Proof.
  intros Hwf. destruct (wf_entries t Hwf) as [HE Hal]. split.
  - unfold bucket. destruct (ht t !! hash_min k) as [b|] eqn:Hb; simpl.
    + by eapply NoDup_join_lookup.
    + apply NoDup_nil_2.
  - intros s Hs. by eapply Hal, elem_of_bucket_entries.
Qed.

Lemma retired_nil_eq t t' : retired [] t t' → t' = t.
Proof.
  intros [Hht Hfree _ Hev Htm Hh Hm Hp Hth Hgt Hpr].
  assert (ht t' = ht t) as Hht'.
  { rewrite Hht. rewrite <- (list_fmap_id (ht t)) at 2. apply list_fmap_ext.
    intros i b _. simpl. apply filter_all. intros x _. apply not_elem_of_nil. }
  assert (events t' = events t) as Hev'.
  { apply map_eq. intros s. apply Hev, not_elem_of_nil. }
  assert (timers t' = timers t) as Htm'.
  { apply map_eq. intros s. apply Htm, not_elem_of_nil. }
  change (reverse [] ++ events_free_list t) with (events_free_list t) in Hfree.
  clear Hht Hev Htm.
  destruct t, t'. simpl in *. by subst.
Qed.

Lemma matching_subset t k key_arg key_len s :
  s ∈ matching t k key_arg key_len → s ∈ bucket t k.
Proof. unfold matching. by intros [_ ?]%list_elem_of_filter. Qed.

Lemma wrapper_ht_clear_spec t :
  wf t →
  ∃ t', wrapper_ht_clear t
          = Some (Z.of_nat (length (ht_entries t)), t') ∧
        retired (ht_entries t) t t'.
Proof.
  intros Hwf. destruct (wf_entries t Hwf) as [_ Hal].
  destruct (clear_loop (ht_entries t) t 0%Z Hal) as (t' & Hloop & Hr).
  exists t'. split; [|done]. unfold wrapper_ht_clear. by rewrite Hloop.
Qed.

Lemma wrapper_ht_gc_spec lk t now tr :
  is_Some (spin_lock_irqsave lk) →
  wf t →
  ∃ t', wrapper_ht_gc lk t now tr
          = Some (t', tr ++ (ht_entries t ≫= gc_call t now)) ∧
        retired (ht_entries t) t t'.
Proof.
  intros Hlk Hwf. destruct (wf_entries t Hwf) as [Hnd Hal].
  apply (gc_loop lk now (ht_entries t) t tr Hlk Hnd Hal).
Qed.

Lemma wrapper_ht_gc_empty lk t now tr :
  ht_entries t = [] → wrapper_ht_gc lk t now tr = Some (t, tr).
Proof. intros Hent. unfold wrapper_ht_gc. by rewrite Hent. Qed.

Lemma wrapper_ht_gc_spins t now tr :
  spin_lock_spins = true → ht_entries t ≠ [] →
  wrapper_ht_gc LockHeld t now tr = None.
Proof.
  intros Hspin Hent. unfold wrapper_ht_gc.
  destruct (ht_entries t) as [|s l]; [done|].
  by rewrite for_each_cons, gc_visit_spins.
Qed.

Lemma wrapper_ht_check_event_spec t key_arg key_len id now tr h m :
  wf t → hash_fct t = Some h → match_fct t = Some m →
  let M := matching t (h key_arg key_len 0%Z) key_arg key_len in
  ∃ t', wrapper_ht_check_event t key_arg key_len id now tr
          = Some (t', tr ++ (M ≫= check_call t id now),
                  if bool_decide (M = []) then 0%Z else 1%Z) ∧
        retired M t t'.
Proof.
  intros Hwf Hh Hm M.
  destruct (wf_bucket t (h key_arg key_len 0%Z) Hwf) as [Hnd Hal].
  unfold wrapper_ht_check_event. rewrite Hh. simpl.
  apply (check_loop key_arg key_len id now m _ t tr 0%Z Hnd Hal Hm).
Qed.

Lemma wrapper_ht_unique_check_spec lk t key_arg key_len tr h m :
  wf t → hash_fct t = Some h → match_fct t = Some m →
  is_Some (spin_lock_irqsave lk) ∨
    matching t (h key_arg (u32 key_len) 0%Z) key_arg key_len = [] →
  let M := take 1 (matching t (h key_arg (u32 key_len) 0%Z) key_arg key_len) in
  ∃ t', wrapper_ht_unique_check lk t key_arg key_len tr
          = Some (t', tr ++ (M ≫= unique_call t)) ∧
        retired M t t'.
Proof.
  intros Hwf Hh Hm Hlk M.
  destruct (wf_bucket t (h key_arg (u32 key_len) 0%Z) Hwf) as [Hnd Hal].
  unfold wrapper_ht_unique_check. rewrite Hh. simpl.
  apply (unique_loop_spec lk key_arg key_len m _ t tr Hal Hm Hlk).
Qed.

Lemma wrapper_ht_unique_check_spins t key_arg key_len tr h :
  spin_lock_spins = true → hash_fct t = Some h →
  matching t (h key_arg (u32 key_len) 0%Z) key_arg key_len ≠ [] →
  wrapper_ht_unique_check LockHeld t key_arg key_len tr = None.
Proof.
  intros Hspin Hh HM. unfold wrapper_ht_unique_check. rewrite Hh. simpl.
  by apply (unique_loop_spins key_arg key_len _ (t, tr)).
Qed.

Lemma retired_sub_wf l t t' k key_arg key_len :
  wf t → retired l t t' →
  (∀ s, s ∈ l → s ∈ matching t k key_arg key_len) → NoDup l → wf t'.
Proof.
  intros Hwf Hr Hsub Hnd. apply (retired_wf l t t' Hwf Hr Hnd).
  intros s Hs. eapply elem_of_bucket_entries, matching_subset. by apply Hsub.
Qed.

Lemma matching_NoDup t k key_arg key_len :
  wf t → NoDup (matching t k key_arg key_len).
Proof.
  intros Hwf. apply NoDup_filter. by apply wf_bucket.
Qed.

Lemma take_1_sub (l : list nat) s : s ∈ take 1 l → s ∈ l.
Proof. destruct l as [|x l]; simpl; [done|]. intros ->%list_elem_of_singleton. by left. Qed.

Lemma take_1_NoDup (l : list nat) : NoDup (take 1 l).
Proof. destruct l; simpl; [apply NoDup_nil_2|apply NoDup_singleton]. Qed.

Lemma entries_after_all t t' : retired (ht_entries t) t t' → ht_entries t' = [].
Proof.
  intros Hr. rewrite (retired_entries _ _ _ Hr). apply filter_none. tauto.
Qed.

(** ** Opening an event *)

Lemma insert_wf t t3 l' s hk e' :
  hash_min_in_range → wf t →
  events_free_list t = l' ++ [s] →
  ht t3 = ht t → events_free_list t3 = l' →
  events t3 = <[s := e']> (events t) →
  let t4 := set_ht (alter (cons s) (hash_min hk)) t3 in
  wf t4 ∧
  length (ht_entries t4) = S (length (ht_entries t)) ∧
  S (length (events_free_list t4)) = length (events_free_list t).
Proof.
  intros Hrange [Hnd Hal Hsz] Hfree Hht3 Hfree3 Hev3 t4.
  assert (ht_entries t4 ≡ₚ s :: ht_entries t) as Hperm.
  { unfold ht_entries, t4. simpl. rewrite Hht3.
    apply join_alter_cons. rewrite Hsz. apply Hrange. }
  split; [|split].
  - constructor.
    + simpl. rewrite Hfree3. rewrite Hperm.
      rewrite Hfree in Hnd.
      eapply NoDup_Permutation_proper; [|exact Hnd].
      rewrite (assoc_L (++)), <- Permutation_cons_append. done.
    + intros x Hx. simpl. rewrite Hev3.
      destruct (decide (x = s)) as [->|Hne].
      * rewrite lookup_insert_eq. by eexists.
      * rewrite lookup_insert_ne by done. apply Hal.
        simpl in Hx. rewrite Hfree3, Hperm in Hx. rewrite Hfree.
        rewrite elem_of_app, elem_of_cons in Hx.
        rewrite !elem_of_app. tauto.
    + simpl. by rewrite length_alter, Hht3.
  - by rewrite Hperm.
  - simpl. rewrite Hfree3, Hfree, length_app. simpl. lia.
Qed.

Lemma event_in_spec w a t key_arg key_len thresh_arg cb_arg timeout_arg
    unique priv_arg env h m :
  trackers w !! a = Some t → wf t →
  hash_fct t = Some h → match_fct t = Some m →
  (key_len ≤ LATENCY_TRACKER_MAX_KEY_SIZE)%Z →
  spin_lock_spins = false ∨ ¬ evicts t key_arg key_len unique →
  let M := if bool_decide (unique ≠ 0%Z)
           then take 1 (matching t (h key_arg (u32 key_len) 0%Z)
                          key_arg key_len)
           else [] in
  let tr1 := trace w ++ (M ≫= unique_call t) in
  let r := latency_tracker_event_in w (Some a) key_arg key_len thresh_arg
             cb_arg timeout_arg unique priv_arg env in
  ∃ t1, retired M t t1 ∧ wf t1 ∧
    match last (events_free_list t1) with
    | None =>
        r = Some (LATENCY_TRACKER_FULL,
                  mk_world (<[a := t1]> (trackers w)) tr1)
    | Some s =>
        ∃ t4 e,
          r = Some (LATENCY_TRACKER_OK,
                    mk_world (<[a := t4]> (trackers w)) tr1) ∧
          events t1 !! s = Some e ∧
          events t4 =
            <[s := mk_event (h key_arg (u32 key_len) 0%Z)
                     (memcpy (key e) key_arg (Z.to_nat key_len))
                     (trace_clock_monotonic_wrapper env) (end_ts e)
                     thresh_arg timeout_arg cb_arg priv_arg (cb_flag e)
                     (cb_out_id e)]> (events t1) ∧
          ht t4 = alter (cons s) (hash_min (h key_arg (u32 key_len) 0%Z))
                    (ht t1) ∧
          events_free_list t4 = removelast (events_free_list t1) ∧
          timers t4 =
            (if (timeout_arg >? 0)%Z
             then <[s := u64 (jiffies env
                              + wrapper_nsecs_to_jiffies timeout_arg)]>
                    (timers t1)
             else timers t1) ∧
          hash_fct t4 = hash_fct t ∧ match_fct t4 = match_fct t ∧
          (hash_min_in_range →
           wf t4 ∧
           length (ht_entries t4) = S (length (ht_entries t1)) ∧
           S (length (events_free_list t4)) = length (events_free_list t1))
    end.
Proof.
  intros Hlook Hwf Hh Hm Hlen Hlk M tr1 r.
  assert (∃ t1,
    (if bool_decide (unique ≠ 0%Z)
     then wrapper_ht_unique_check LockHeld t key_arg key_len (trace w)
     else Some (t, trace w)) = Some (t1, tr1) ∧ retired M t t1 ∧ wf t1)
    as (t1 & Hst & Hr & Hwf1).
  { subst M tr1. case_bool_decide.
    - destruct (wrapper_ht_unique_check_spec LockHeld t key_arg key_len
                  (trace w) h m Hwf Hh Hm) as (t1 & Hu & Hr).
      { destruct Hlk as [Hspin|Hq]; [left; by apply lock_held_returns|].
        right.
        destruct (matching t (h key_arg (u32 key_len) 0%Z) key_arg key_len)
          as [|x l] eqn:HM; [done|].
        exfalso. apply Hq. split; [done|]. exists h. split; [done|].
        by rewrite HM. }
      exists t1. split; [done|]. split; [done|].
      eapply (retired_sub_wf _ t t1); [done|done| |apply take_1_NoDup].
      intros s Hs. by apply take_1_sub.
    - exists t. rewrite app_nil_r. split; [done|].
      split; [apply retired_refl|done]. }
  exists t1. split; [done|]. split; [done|].
  assert (r = (st ← Some (t1, tr1);
               match latency_tracker_get_event st.1 with
               | (None, t1') =>
                   Some (LATENCY_TRACKER_FULL,
                         mk_world (<[a := t1']> (trackers w)) st.2)
               | (Some s, t1') =>
                   h ← hash_fct t1';
                   e ← events t1' !! s;
                   let e' :=
                     mk_event (h key_arg (u32 key_len) 0%Z)
                       (memcpy (key e) key_arg (Z.to_nat key_len))
                       (trace_clock_monotonic_wrapper env) (end_ts e)
                       thresh_arg timeout_arg cb_arg priv_arg (cb_flag e)
                       (cb_out_id e) in
                   let t2 := store t1' s e' in
                   let t3 :=
                     if (timeout_arg >? 0)%Z then
                       set_timers
                         <[s := u64 (jiffies env
                                     + wrapper_nsecs_to_jiffies timeout_arg)]>
                         t2
                     else t2 in
                   t4 ← wrapper_ht_add t3 s;
                   Some (LATENCY_TRACKER_OK,
                         mk_world (<[a := t4]> (trackers w)) st.2)
               end)) as ->.
  { subst r. unfold latency_tracker_event_in.
    assert ((key_len >? LATENCY_TRACKER_MAX_KEY_SIZE)%Z = false) as ->
      by lia.
    rewrite Hlook. simpl. by rewrite Hst. }
  rewrite bind_Some_l. unfold latency_tracker_get_event. simpl.
  destruct (last (events_free_list t1)) as [s|] eqn:Hlast; [|done].
  apply last_Some in Hlast as [l' Hfree].
  simpl. rewrite (retired_hash _ _ _ Hr), Hh. simpl.
  destruct (wf_alloc _ Hwf1 s) as [e He].
  { rewrite Hfree, !elem_of_app, list_elem_of_singleton. tauto. }
  rewrite He. simpl.
  set (e' := mk_event (h key_arg (u32 key_len) 0%Z)
               (memcpy (key e) key_arg (Z.to_nat key_len))
               (trace_clock_monotonic_wrapper env) (end_ts e)
               thresh_arg timeout_arg cb_arg priv_arg (cb_flag e)
               (cb_out_id e)).
  set (t2 := store (set_free (@removelast nat) t1) s e').
  set (t3 := if (timeout_arg >? 0)%Z then _ else t2).
  assert (ht t3 = ht t1 ∧ events_free_list t3 = l' ∧
          events t3 = <[s := e']> (events t1) ∧
          hash_fct t3 = hash_fct t1 ∧ match_fct t3 = match_fct t1 ∧
          timers t3 =
            (if (timeout_arg >? 0)%Z
             then <[s := u64 (jiffies env
                              + wrapper_nsecs_to_jiffies timeout_arg)]>
                    (timers t1)
             else timers t1))
    as (Hht3 & Hfree3 & Hev3 & Hh3 & Hm3 & Htm3).
  { subst t3 t2. destruct (timeout_arg >? 0)%Z; simpl;
      by rewrite Hfree, removelast_last. }
  unfold wrapper_ht_add. rewrite Hev3, lookup_insert_eq. simpl.
  eexists _, e. split; [done|]. simpl.
  rewrite Hev3, Hht3, Hfree3, Hh3, Hm3, Htm3, Hfree, removelast_last.
  rewrite (retired_hash _ _ _ Hr), (retired_match _ _ _ Hr).
  do 7 (split; [done|]).
  intros Hrange.
  destruct (insert_wf t1 t3 l' s (h key_arg (u32 key_len) 0%Z) e'
              Hrange Hwf1 Hfree Hht3 Hfree3 Hev3) as (Hw4 & Hl4 & Hf4).
  split; [done|]. split; [done|].
  simpl in Hf4. by rewrite Hfree3, Hfree in Hf4.
Qed.

(** ** Creating a tracker *)

Lemma alloc_events_spec n : ∀ i avail t t',
  alloc_events n i avail t = Some t' →
  ht t' = ht t ∧
  events_free_list t' = reverse (seq i n) ++ events_free_list t ∧
  (∀ s, s ∈ seq i n → events t' !! s = Some zero_event) ∧
  (∀ s, s ∉ seq i n → events t' !! s = events t !! s) ∧
  hash_fct t' = hash_fct t ∧ match_fct t' = match_fct t ∧
  gc_period t' = gc_period t ∧ gc_thresh t' = gc_thresh t ∧
  gc_timer t' = gc_timer t ∧ tracker_priv t' = tracker_priv t ∧
  timers t' = timers t.
Proof.
  induction n as [|n IH]; intros i avail t t' Halloc; simpl in Halloc.
  - simplify_eq. repeat split; try done.
    intros s Hs. by apply elem_of_nil in Hs.
  - destruct avail as [|avail]; [done|].
    apply IH in Halloc
      as (Hht & Hfree & Hev & Hout & Hh & Hm & Hp & Hth & Hgt & Hpr & Htm).
    simpl in *. repeat split; try done.
    + by rewrite Hfree, reverse_cons, <- (assoc_L (++)).
    + intros s [->|Hs]%elem_of_cons; [|by apply Hev].
      rewrite Hout, lookup_insert_eq; [done|].
      rewrite elem_of_seq. lia.
    + intros s [Hne Hs]%not_elem_of_cons.
      rewrite Hout by done. by rewrite lookup_insert_ne.
Qed.

Lemma join_replicate_nil n : mjoin (replicate n ([] : list nat)) = [].
Proof. induction n as [|n IH]; [done|]. by simpl. Qed.

Lemma enable_gc_fields t env :
  gc_period (latency_tracker_enable_gc t env) = gc_period t ∧
  gc_thresh (latency_tracker_enable_gc t env) = gc_thresh t ∧
  hash_fct (latency_tracker_enable_gc t env) = hash_fct t ∧
  match_fct (latency_tracker_enable_gc t env) = match_fct t ∧
  tracker_priv (latency_tracker_enable_gc t env) = tracker_priv t ∧
  timers (latency_tracker_enable_gc t env) = timers t ∧
  ht (latency_tracker_enable_gc t env) = ht t ∧
  events_free_list (latency_tracker_enable_gc t env) = events_free_list t ∧
  events (latency_tracker_enable_gc t env) = events t.
Proof.
  unfold latency_tracker_enable_gc.
  destruct (bool_decide _); repeat split; done.
Qed.

Lemma latency_tracker_create_spec w match_arg hash_arg max_events gp gt pr
    env avail module_ok a w' :
  latency_tracker_create w match_arg hash_arg max_events gp gt pr env avail
    module_ok = (Some a, w') →
  trackers w !! a = None ∧ trace w' = trace w ∧
  ∃ t, trackers w' = <[a := t]> (trackers w) ∧
       wf t ∧ ht_entries t = [] ∧
       length (events_free_list t)
         = Z.to_nat (if bool_decide (max_events = 0%Z)
                     then DEFAULT_MAX_ALLOC_EVENTS else max_events) ∧
       hash_fct t = match hash_arg with
                    | None => Some jhash
                    | Some _ => None
                    end ∧
       match_fct t = match match_arg with
                     | None => Some memcmp
                     | Some _ => None
                     end ∧
       gc_period t = gp ∧ gc_thresh t = gt ∧ tracker_priv t = pr ∧
       timers t = ∅.
Proof.
  unfold latency_tracker_create. destruct avail as [|avail]; [done|].
  set (t0 := mk_tracker _ _ gp gt pr None [] [] ∅ ∅).
  destruct (alloc_events _ _ _ _) as [t|] eqn:Halloc; [|done].
  destruct module_ok; [|done]. intros [= <- <-].
  apply alloc_events_spec in Halloc
    as (Hht & Hfree & Hev & Hout & Hh & Hm & Hp & Hth & Hgt & Hpr & Htm).
  destruct (enable_gc_fields t0 env)
    as (Hgp' & Hgt' & Hh' & Hm' & Hpr' & Htm' & _ & Hfree' & _).
  change (ht t = replicate HASH_SIZE []) in Hht.
  change (events_free_list (wrapper_ht_init (latency_tracker_enable_gc t0 env)))
    with (events_free_list (latency_tracker_enable_gc t0 env)) in Hfree.
  rewrite Hfree' in Hfree. change (events_free_list t0) with (@nil nat) in Hfree.
  rewrite app_nil_r in Hfree.
  split.
  { apply not_elem_of_dom, is_fresh. }
  split; [done|]. exists t. split; [done|].
  assert (ht_entries t = []) as Hent.
  { unfold ht_entries. rewrite Hht. apply join_replicate_nil. }
  split; [|split; [done|]].
  - constructor.
    + rewrite Hent, Hfree. simpl.
      rewrite reverse_Permutation. apply NoDup_seq.
    + intros s. rewrite Hent, Hfree. simpl.
      rewrite elem_of_reverse. intros Hs. rewrite Hev by done. by eexists.
    + by rewrite Hht, length_replicate.
  - split; [by rewrite Hfree, length_reverse, length_seq|].
    change (hash_fct (wrapper_ht_init (latency_tracker_enable_gc t0 env)))
      with (hash_fct (latency_tracker_enable_gc t0 env)) in Hh.
    change (match_fct (wrapper_ht_init (latency_tracker_enable_gc t0 env)))
      with (match_fct (latency_tracker_enable_gc t0 env)) in Hm.
    change (gc_period (wrapper_ht_init (latency_tracker_enable_gc t0 env)))
      with (gc_period (latency_tracker_enable_gc t0 env)) in Hp.
    change (gc_thresh (wrapper_ht_init (latency_tracker_enable_gc t0 env)))
      with (gc_thresh (latency_tracker_enable_gc t0 env)) in Hth.
    change (tracker_priv (wrapper_ht_init (latency_tracker_enable_gc t0 env)))
      with (tracker_priv (latency_tracker_enable_gc t0 env)) in Hpr.
    change (timers (wrapper_ht_init (latency_tracker_enable_gc t0 env)))
      with (timers (latency_tracker_enable_gc t0 env)) in Htm.
    by rewrite Hh, Hm, Hp, Hth, Hpr, Htm, Hgp', Hgt', Hh', Hm', Hpr', Htm'.
Qed.

Lemma world_insert_id w a t :
  trackers w !! a = Some t → mk_world (<[a := t]> (trackers w)) (trace w) = w.
Proof. intros Hlook. rewrite insert_id by done. by destruct w. Qed.

Lemma quiet_no_match t key_arg key_len unique h :
  hash_fct t = Some h → ¬ evicts t key_arg key_len unique →
  (if bool_decide (unique ≠ 0%Z)
   then take 1 (matching t (h key_arg (u32 key_len) 0%Z) key_arg key_len)
   else []) = [].
Proof.
  intros Hh Hq. case_bool_decide as Hu; [|done].
  destruct (matching t (h key_arg (u32 key_len) 0%Z) key_arg key_len)
    as [|x l] eqn:HM; [done|].
  exfalso. apply Hq. split; [done|]. exists h. split; [done|].
  by rewrite HM.
Qed.

Lemma event_in_full w a t key_arg key_len thresh_arg cb_arg timeout_arg
    unique priv_arg env :
  trackers w !! a = Some t → wf t → usable t →
  (key_len ≤ LATENCY_TRACKER_MAX_KEY_SIZE)%Z →
  events_free_list t = [] →
  ¬ evicts t key_arg key_len unique →
  latency_tracker_event_in w (Some a) key_arg key_len thresh_arg cb_arg
    timeout_arg unique priv_arg env = Some (LATENCY_TRACKER_FULL, w).
Proof.
  intros Hlook Hwf [[h Hh] [m Hm]] Hlen Hfree Hq.
  destruct (event_in_spec w a t key_arg key_len thresh_arg cb_arg timeout_arg
              unique priv_arg env h m Hlook Hwf Hh Hm Hlen (or_intror Hq))
    as (t1 & Hr & _ & Hres).
  rewrite (quiet_no_match t key_arg key_len unique h Hh Hq) in Hr, Hres.
  apply retired_nil_eq in Hr as ->.
  destruct (last (events_free_list t)) as [s|] eqn:Hlast;
    [by rewrite Hfree in Hlast|].
  by rewrite Hres, app_nil_r, world_insert_id.
Qed.

Lemma event_in_quiet w a t key_arg key_len thresh_arg cb_arg timeout_arg
    unique priv_arg env w' :
  hash_min_in_range →
  trackers w !! a = Some t → wf t → usable t →
  ¬ evicts t key_arg key_len unique →
  latency_tracker_event_in w (Some a) key_arg key_len thresh_arg cb_arg
    timeout_arg unique priv_arg env = Some (LATENCY_TRACKER_OK, w') →
  ∃ t', w' = mk_world (<[a := t']> (trackers w)) (trace w) ∧
        wf t' ∧ usable t' ∧
        length (ht_entries t') = S (length (ht_entries t)) ∧
        S (length (events_free_list t')) = length (events_free_list t).
Proof.
  intros Hrange Hlook Hwf [[h Hh] [m Hm]] Hq Hin.
  assert (key_len ≤ LATENCY_TRACKER_MAX_KEY_SIZE)%Z as Hlen.
  { destruct (key_len >? LATENCY_TRACKER_MAX_KEY_SIZE)%Z eqn:Hgt; [|lia].
    unfold latency_tracker_event_in in Hin. by rewrite Hgt in Hin. }
  destruct (event_in_spec w a t key_arg key_len thresh_arg cb_arg timeout_arg
              unique priv_arg env h m Hlook Hwf Hh Hm Hlen (or_intror Hq))
    as (t1 & Hr & _ & Hres).
  rewrite (quiet_no_match t key_arg key_len unique h Hh Hq) in Hr, Hres.
  apply retired_nil_eq in Hr as ->.
  destruct (last (events_free_list t)) as [s|]; [|by rewrite Hres in Hin].
  destruct Hres as (t4 & e & Hres & _ & _ & _ & _ & _ & Hh4 & Hm4 & Hinv).
  destruct (Hinv Hrange) as (Hwf4 & Hlen4 & Hfree4).
  rewrite Hres in Hin. simplify_eq. rewrite app_nil_r.
  exists t4. split; [done|]. split; [done|]. split; [|done].
  unfold usable. rewrite Hh4, Hm4, Hh, Hm. by split; eexists.
Qed.

Lemma event_in_spins w a t key_arg key_len thresh_arg cb_arg timeout_arg
    unique priv_arg env :
  trackers w !! a = Some t → open_deadlocks t key_arg key_len unique →
  latency_tracker_event_in w (Some a) key_arg key_len thresh_arg cb_arg
    timeout_arg unique priv_arg env = None.
Proof.
  intros Hlook (Hspin & Hlen & Hu & h & Hh & HM).
  unfold latency_tracker_event_in.
  assert ((key_len >? LATENCY_TRACKER_MAX_KEY_SIZE)%Z = false) as -> by lia.
  rewrite Hlook. simpl. rewrite bool_decide_true by done.
  by rewrite (wrapper_ht_unique_check_spins t key_arg key_len (trace w) h).
Qed.

Lemma open_returns_lock t key_arg key_len unique :
  (key_len ≤ LATENCY_TRACKER_MAX_KEY_SIZE)%Z →
  ¬ open_deadlocks t key_arg key_len unique →
  spin_lock_spins = false ∨ ¬ evicts t key_arg key_len unique.
Proof.
  intros Hlen Hnd. destruct spin_lock_spins eqn:Hspin; [right|by left].
  intros Hev. by apply Hnd.
Qed.

Lemma gc_cb_spins w a t env :
  trackers w !! a = Some t → sweep_deadlocks t →
  latency_tracker_gc_cb w a env = None.
Proof.
  intros Hlook [Hspin Hent]. unfold latency_tracker_gc_cb.
  rewrite Hlook. simpl. by rewrite wrapper_ht_gc_spins.
Qed.

Lemma sweep_returns_lock t :
  ¬ sweep_deadlocks t →
  is_Some (spin_lock_irqsave LockHeld) ∨ ht_entries t = [].
Proof.
  intros Hnd. destruct spin_lock_spins eqn:Hspin.
  - right. destruct (ht_entries t) as [|s l] eqn:Hent; [done|].
    exfalso. apply Hnd. split; [done|]. by rewrite Hent.
  - left. by apply lock_held_returns.
Qed.

Lemma event_in_ok w a t key_arg key_len thresh_arg cb_arg timeout_arg
    unique priv_arg env :
  trackers w !! a = Some t → wf t → usable t →
  (key_len ≤ LATENCY_TRACKER_MAX_KEY_SIZE)%Z →
  spin_lock_spins = false ∨ ¬ evicts t key_arg key_len unique →
  events_free_list t ≠ [] →
  ∃ w', latency_tracker_event_in w (Some a) key_arg key_len thresh_arg cb_arg
          timeout_arg unique priv_arg env = Some (LATENCY_TRACKER_OK, w').
Proof.
  intros Hlook Hwf [[h Hh] [m Hm]] Hlen Hlk Hfree.
  destruct (event_in_spec w a t key_arg key_len thresh_arg cb_arg timeout_arg
              unique priv_arg env h m Hlook Hwf Hh Hm Hlen Hlk)
    as (t1 & Hr & _ & Hres).
  destruct (last (events_free_list t1)) as [s|] eqn:Hlast.
  - destruct Hres as (t4 & e & Hres & _). by eexists.
  - apply last_None in Hlast. rewrite (retired_free _ _ _ Hr) in Hlast.
    by apply app_eq_nil in Hlast as [_ ?].
Qed.

Lemma opens_inv a w n w' :
  hash_min_in_range → opens a w n w' →
  ∀ t, trackers w !! a = Some t → wf t → usable t →
  ∃ t', trackers w' !! a = Some t' ∧ wf t' ∧ usable t' ∧
        length (ht_entries t') = n + length (ht_entries t) ∧
        length (events_free_list t') + n = length (events_free_list t) ∧
        trace w' = trace w.
Proof.
  intros Hrange Hopens. induction Hopens as
    [w|w n w1 w2 t1 key_arg key_len thresh_arg cb_arg timeout_arg unique
       priv_arg env Hopens IH Hlook1 Hq Hin]; intros t Hlook Hwf Hus.
  - exists t. do 3 (split; [done|]). split; [done|]. split; [lia|done].
  - destruct (IH t Hlook Hwf Hus) as (t1' & Hlook1' & Hwf1 & Hus1 & Hl1 & Hf1 & Htr1).
    rewrite Hlook1 in Hlook1'. simplify_eq.
    destruct (event_in_quiet _ _ _ _ _ _ _ _ _ _ _ _ Hrange Hlook1 Hwf1 Hus1
                Hq Hin) as (t2 & -> & Hwf2 & Hus2 & Hl2 & Hf2).
    exists t2. simpl. rewrite lookup_insert_eq.
    do 3 (split; [done|]). split; [lia|]. split; [lia|done].
Qed.

(** ** Checking the invariant on a given tracker *)

Lemma wf_iff t :
  wf t ↔
  NoDup (ht_entries t ++ events_free_list t) ∧
  Forall (λ s, is_Some (events t !! s)) (ht_entries t ++ events_free_list t) ∧
  length (ht t) = HASH_SIZE.
Proof.
  rewrite Forall_forall. split.
  - by intros [? ? ?].
  - by intros (? & ? & ?).
Qed.

#[global] Instance wf_dec t : Decision (wf t).
Proof.
  refine (cast_if (decide
    (NoDup (ht_entries t ++ events_free_list t) ∧
     Forall (λ s, is_Some (events t !! s))
       (ht_entries t ++ events_free_list t) ∧
     length (ht t) = HASH_SIZE))); by rewrite wf_iff.
Defined.

End proofs.

Section claims.
Context {PF : platform}.
Implicit Types (t : latency_tracker) (s : nat) (l : list nat) (w : world).

(** ** Rejected calls *)

(** C9: a call of latency_tracker_event_in whose key_len is greater than
    LATENCY_TRACKER_MAX_KEY_SIZE returns LATENCY_TRACKER_ERR and leaves the
    whole world as it was: no record leaves the pool, nothing enters the
    table, no timer is armed and no callback is called. *)
Theorem event_in_key_too_long w tracker key_arg key_len thresh_arg cb_arg
    timeout_arg unique priv_arg env :
  (key_len > LATENCY_TRACKER_MAX_KEY_SIZE)%Z →
  latency_tracker_event_in w tracker key_arg key_len thresh_arg cb_arg
    timeout_arg unique priv_arg env = Some (LATENCY_TRACKER_ERR, w).
Proof.
  intros Hlen. unfold latency_tracker_event_in.
  destruct tracker as [a|]; [|done].
  by assert ((key_len >? LATENCY_TRACKER_MAX_KEY_SIZE)%Z = true) as -> by lia.
Qed.

(** C10: with a NULL tracker, latency_tracker_event_in returns
    LATENCY_TRACKER_ERR and latency_tracker_event_out returns -1; neither
    reads a tracker and the world is unchanged. *)
Theorem null_tracker_rejected w key_arg key_len thresh_arg cb_arg timeout_arg
    unique priv_arg id env :
  latency_tracker_event_in w None key_arg key_len thresh_arg cb_arg
    timeout_arg unique priv_arg env = Some (LATENCY_TRACKER_ERR, w) ∧
  latency_tracker_event_out w None key_arg key_len id env
    = Some ((-1)%Z, w).
Proof. done. Qed.

(** ** The timeout of an event *)

(** C6: when the timer of a record fires, latency_tracker_timeout_cb stores
    cb_flag = LATENCY_TRACKER_CB_TIMEOUT and timeout = 0 in the record and
    calls data->cb without testing it.  If the record has a callback, the
    callback is called on the record so changed, the table and the free list
    are what they were, so the record is neither unlinked nor released, and
    no other record changes.  If the callback of the record is NULL, which
    latency_tracker_event_in accepts together with a timeout, the call goes
    through the NULL pointer: it has no result. *)
Theorem timeout_calls_callback_untested w a t s e :
  trackers w !! a = Some t → events t !! s = Some e →
  let e' := mk_event (hkey e) (key e) (start_ts e) (end_ts e) (thresh e) 0
              (cb e) (priv e) LATENCY_TRACKER_CB_TIMEOUT (cb_out_id e) in
  match cb e with
  | Some f =>
      ∃ t',
        latency_tracker_timeout_cb w a s
          = Some (mk_world (<[a := t']> (trackers w))
                           (trace w ++ [Call f s e'])) ∧
        events t' !! s = Some e' ∧
        ht t' = ht t ∧ events_free_list t' = events_free_list t ∧
        (∀ s', s' ≠ s → events t' !! s' = events t !! s') ∧
        timers t' !! s = None
  | None => latency_tracker_timeout_cb w a s = None
  end.
Proof.
  intros Hlook He e'. unfold latency_tracker_timeout_cb.
  rewrite Hlook. simpl. rewrite He. simpl. rewrite lookup_insert_eq. simpl.
  by_value.
  destruct (cb e) as [f|] eqn:Hcb; simpl; [|done].
  eexists. split; [done|]. simpl.
  rewrite lookup_insert_eq, lookup_delete_eq. repeat split; try done.
  intros s' Hne. by rewrite lookup_insert_ne.
Qed.

(** ** Closing an event *)

Lemma check_call_ptr t id now s c : c ∈ check_call t id now s → call_ptr c = s.
Proof.
  unfold check_call. destruct (events t !! s) as [e|]; [|by intros ?%elem_of_nil].
  destruct (u64 (now - start_ts e) >? thresh e)%Z; [|by intros ?%elem_of_nil].
  destruct (cb e); [|by intros ?%elem_of_nil].
  by intros ->%list_elem_of_singleton.
Qed.

Lemma mjoin_all_nil (ls : list (list nat)) :
  (∀ i b, ls !! i = Some b → b = []) → mjoin ls = [].
Proof.
  induction ls as [|b ls IH]; intros Hall; [done|]. simpl.
  rewrite (Hall 0 b eq_refl). simpl. apply IH.
  intros i b' Hi. by apply (Hall (S i)).
Qed.

Lemma mjoin_single (ls : list (list nat)) j :
  (∀ i b, ls !! i = Some b → i ≠ j → b = []) →
  mjoin ls = default [] (ls !! j).
Proof.
  revert j. induction ls as [|b ls IH]; intros j Hall; [done|].
  destruct j as [|j]; simpl.
  - rewrite (mjoin_all_nil ls); [by rewrite app_nil_r|].
    intros i b' Hi. by apply (Hall (S i)).
  - rewrite (Hall 0 b eq_refl) by done. simpl. apply IH.
    intros i b' Hi Hne. apply (Hall (S i)); [done|lia].
Qed.

(* in a table that is keyed by hkey, the records of the whole table that
   hash with [k] and match are those that the walk of the bucket of [k]
   finds *)
Lemma index_matching_bucket t k key_arg key_len :
  placed t → index_matching t k key_arg key_len = matching t k key_arg key_len.
Proof.
  intros Hpl. unfold index_matching, matching, ht_entries, bucket.
  rewrite <- join_fmap_filter.
  rewrite (mjoin_single _ (hash_min k)).
  - rewrite list_lookup_fmap.
    destruct (ht t !! hash_min k) as [b|] eqn:Hb; simpl; [|done].
    apply filter_ext_in. intros s Hs.
    destruct (Hpl _ _ _ Hb Hs) as (e & He & Hh).
    unfold hashes_with. rewrite He, bool_decide_true by done. done.
  - intros i b. rewrite list_lookup_fmap.
    destruct (ht t !! i) as [b0|] eqn:Hb; simpl; [|done].
    intros [= <-] Hne. apply filter_none. intros s Hs.
    destruct (Hpl _ _ _ Hb Hs) as (e & He & Hh).
    unfold hashes_with. rewrite He, bool_decide_false by congruence.
    simpl. tauto.
Qed.

Lemma retired_placed l t t' : retired l t t' → placed t → placed t'.
Proof.
  intros Hr Hpl i b s Hb Hs. rewrite (retired_ht _ _ _ Hr) in Hb.
  rewrite list_lookup_fmap in Hb.
  destruct (ht t !! i) as [b0|] eqn:Hb0; [|done]. simpl in Hb.
  injection Hb as <-. apply list_elem_of_filter in Hs as [Hout Hs].
  rewrite (retired_events _ _ _ Hr) by done. by apply (Hpl i b0).
Qed.

(** C5 (as amended): latency_tracker_event_out, called with a key_len of
    at most LATENCY_TRACKER_MAX_KEY_SIZE on a tracker whose table is keyed
    by hkey, handles every record of the table whose hash value falls in the
    bucket of the hash of the key and whose key matches, and no other.  For
    such a record: if the elapsed time exceeds its threshold and it has a
    callback, the callback is called on the record with end_ts = now,
    cb_flag = LATENCY_TRACKER_CB_NORMAL and cb_out_id = id and its other
    fields as they were; if the elapsed time does not exceed the threshold
    no callback is called for it; in both cases the record is unlinked from
    the table, cleared and put on the free list.  Every other record is left
    alone.  The result is 0 (found) if there was such a record and -1 if
    there was none. *)
Theorem event_out_closes_matching w a t key_arg key_len id env h m :
  trackers w !! a = Some t → wf t → placed t →
  hash_fct t = Some h → match_fct t = Some m →
  (0 ≤ key_len ≤ LATENCY_TRACKER_MAX_KEY_SIZE)%Z →
  let now := trace_clock_monotonic_wrapper env in
  let M := index_matching t (h key_arg key_len 0%Z) key_arg key_len in
  let calls := M ≫= check_call t id now in
  (∀ s, s ∈ M ↔
     s ∈ ht_entries t ∧
     ∃ e, events t !! s = Some e ∧
          hash_min (hkey e) = hash_min (h key_arg key_len 0%Z) ∧
          m key_arg (key e) key_len = 0%Z) ∧
  ∃ t',
    latency_tracker_event_out w (Some a) key_arg key_len id env
      = Some (if bool_decide (M = []) then (-1)%Z else 0%Z,
              mk_world (<[a := t']> (trackers w)) (trace w ++ calls)) ∧
    wf t' ∧ placed t' ∧
    (∀ s e, s ∈ M → events t !! s = Some e →
       ((u64 (now - start_ts e) > thresh e)%Z → ∀ f, cb e = Some f →
          Call f s (mk_event (hkey e) (key e) (start_ts e) now (thresh e)
                      (timeout e) (cb e) (priv e) LATENCY_TRACKER_CB_NORMAL
                      id) ∈ calls) ∧
       ((u64 (now - start_ts e) ≤ thresh e)%Z →
          (∀ c, c ∈ calls → call_ptr c ≠ s)) ∧
       (s ∉ ht_entries t') ∧ s ∈ events_free_list t' ∧
       events t' !! s = Some zero_event) ∧
    (∀ s, s ∉ M →
       events t' !! s = events t !! s ∧
       (s ∈ ht_entries t' ↔ s ∈ ht_entries t) ∧
       (s ∈ events_free_list t' ↔ s ∈ events_free_list t) ∧
       (∀ c, c ∈ calls → call_ptr c ≠ s)).
Proof.
  intros Hlook Hwf Hpl Hh Hm Hlen now M calls.
  split.
  { intros s. unfold M, index_matching. rewrite list_elem_of_filter.
    unfold hashes_with, key_matches. rewrite Hm.
    destruct (events t !! s) as [e|] eqn:He; simpl.
    - rewrite andb_True, !bool_decide_spec. split.
      + intros [[? ?] ?]. split; [done|]. by exists e.
      + intros [? (e' & [= <-] & ? & ?)]. done.
    - split; [tauto|]. by intros [_ (e' & ? & _)]. }
  destruct (wrapper_ht_check_event_spec t key_arg key_len id now (trace w)
              h m Hwf Hh Hm) as (t' & Hchk & Hr).
  rewrite <- (index_matching_bucket t _ key_arg key_len Hpl) in Hchk, Hr.
  fold M in Hchk, Hr. fold calls in Hchk.
  assert (NoDup M ∧ ∀ s, s ∈ M → s ∈ ht_entries t) as [HndM HsubM].
  { split.
    - apply NoDup_filter. by apply wf_entries.
    - intros s Hs. unfold M, index_matching in Hs.
      by apply list_elem_of_filter in Hs as [_ ?]. }
  exists t'.
  split; [|split; [|split; [|split]]].
  - unfold latency_tracker_event_out. rewrite Hlook. simpl.
    fold now. rewrite Hchk. simpl. by repeat case_bool_decide.
  - by apply (retired_wf M t t').
  - by apply (retired_placed M t t').
  - intros s e Hs He. split; [|split; [|split; [|split]]].
    + intros Hage f Hcb. apply list_elem_of_bind. exists s. split; [|done].
      unfold check_call. rewrite He.
      assert ((u64 (now - start_ts e) >? thresh e)%Z = true) as -> by lia.
      rewrite Hcb. by apply list_elem_of_singleton.
    + intros Hage c [s' [Hc Hs']]%list_elem_of_bind Hptr.
      apply check_call_ptr in Hc as Hc'. rewrite Hptr in Hc'. subst s'.
      unfold check_call in Hc. rewrite He in Hc.
      assert ((u64 (now - start_ts e) >? thresh e)%Z = false) as Hf by lia.
      rewrite Hf in Hc. by apply elem_of_nil in Hc.
    + rewrite (retired_entries _ _ _ Hr), list_elem_of_filter. tauto.
    + rewrite (retired_free _ _ _ Hr), elem_of_app, elem_of_reverse. tauto.
    + by apply (retired_zero _ _ _ Hr).
  - intros s Hs. split; [|split; [|split]].
    + by apply (retired_events _ _ _ Hr).
    + rewrite (retired_entries _ _ _ Hr), list_elem_of_filter. tauto.
    + rewrite (retired_free _ _ _ Hr), elem_of_app, elem_of_reverse. tauto.
    + intros c [s' [Hc Hs']]%list_elem_of_bind Hptr.
      apply check_call_ptr in Hc. congruence.
Qed.

(** ** Opening an event with the unique property *)

Lemma first_match t k key_arg key_len l1 s l2 :
  bucket t k = l1 ++ s :: l2 →
  (∀ x, x ∈ l1 → key_matches t key_arg key_len x = false) →
  key_matches t key_arg key_len s = true →
  take 1 (matching t k key_arg key_len) = [s].
Proof.
  intros Hb Hl1 Hs. unfold matching. rewrite Hb, filter_app.
  rewrite (filter_none _ l1).
  - rewrite filter_cons_True by (by rewrite Hs). done.
  - intros x Hx. rewrite (Hl1 x Hx). simpl. tauto.
Qed.

(** C7: a call of latency_tracker_event_in with unique set, made with
    tracker->lock held, walks the bucket of the hash of the key up to the
    first record whose key matches, stores cb_flag =
    LATENCY_TRACKER_CB_UNIQUE in that record, calls its callback on it and
    calls latency_tracker_event_destroy, which takes tracker->lock again.
    Where spin locks spin the open does not return.  Where they do not,
    the record is unlinked, cleared and put on the free list; only then is
    a record taken from the pool: the call continues exactly as a call
    without unique would from the state after the eviction, and it returns
    LATENCY_TRACKER_OK. *)
Theorem unique_open_retakes_lock w a t key_arg key_len thresh_arg cb_arg
    timeout_arg unique priv_arg env h m l1 s l2 e :
  trackers w !! a = Some t → wf t →
  hash_fct t = Some h → match_fct t = Some m →
  (key_len ≤ LATENCY_TRACKER_MAX_KEY_SIZE)%Z →
  unique ≠ 0%Z →
  bucket t (h key_arg (u32 key_len) 0%Z) = l1 ++ s :: l2 →
  (∀ x, x ∈ l1 → key_matches t key_arg key_len x = false) →
  key_matches t key_arg key_len s = true →
  events t !! s = Some e →
  let call := match cb e with
              | Some f =>
                  [Call f s
                     (mk_event (hkey e) (key e) (start_ts e) (end_ts e)
                        (thresh e) (timeout e) (cb e) (priv e)
                        LATENCY_TRACKER_CB_UNIQUE (cb_out_id e))]
              | None => []
              end in
  if spin_lock_spins then
    wrapper_ht_unique_check LockHeld t key_arg key_len (trace w) = None ∧
    latency_tracker_event_in w (Some a) key_arg key_len thresh_arg cb_arg
      timeout_arg unique priv_arg env = None
  else
    ∃ t1,
      wrapper_ht_unique_check LockHeld t key_arg key_len (trace w)
        = Some (t1, trace w ++ call) ∧
      wf t1 ∧ (s ∉ ht_entries t1) ∧
      events_free_list t1 = s :: events_free_list t ∧
      events t1 !! s = Some zero_event ∧
      (∀ x, x ≠ s → events t1 !! x = events t !! x ∧
                    (x ∈ ht_entries t1 ↔ x ∈ ht_entries t)) ∧
      latency_tracker_event_in w (Some a) key_arg key_len thresh_arg cb_arg
        timeout_arg unique priv_arg env
      = latency_tracker_event_in
          (mk_world (<[a := t1]> (trackers w)) (trace w ++ call))
          (Some a) key_arg key_len thresh_arg cb_arg timeout_arg 0%Z priv_arg
          env ∧
      ∃ w', latency_tracker_event_in w (Some a) key_arg key_len thresh_arg
              cb_arg timeout_arg unique priv_arg env
            = Some (LATENCY_TRACKER_OK, w') ∧
            trace w' = trace w ++ call.
Proof.
  intros Hlook Hwf Hh Hm Hlen Hu Hb Hl1 Hs He call.
  pose proof (first_match t _ key_arg key_len l1 s l2 Hb Hl1 Hs) as HM.
  destruct spin_lock_spins eqn:Hspin.
  { assert (wrapper_ht_unique_check LockHeld t key_arg key_len (trace w)
            = None) as Hnone.
    { apply (wrapper_ht_unique_check_spins t key_arg key_len (trace w) h);
        [done|done|].
      intros Hnil. by rewrite Hnil in HM. }
    split; [done|]. unfold latency_tracker_event_in.
    assert ((key_len >? LATENCY_TRACKER_MAX_KEY_SIZE)%Z = false) as ->
      by lia.
    rewrite Hlook. simpl. rewrite bool_decide_true by done.
    by rewrite Hnone. }
  destruct (wrapper_ht_unique_check_spec LockHeld t key_arg key_len (trace w)
              h m Hwf Hh Hm) as (t1 & Hchk & Hr).
  { left. by apply lock_held_returns. }
  rewrite HM in Hchk, Hr.
  assert ([s] ≫= unique_call t = call) as Hcall.
  { unfold unique_call, call. rewrite bind_cons, He. simpl.
    by rewrite app_nil_r. }
  rewrite Hcall in Hchk.
  assert (s ∈ ht_entries t) as Hin.
  { apply (elem_of_bucket_entries t (h key_arg (u32 key_len) 0%Z)).
    rewrite Hb, elem_of_app, elem_of_cons. tauto. }
  assert (wf t1) as Hwf1.
  { apply (retired_wf [s] t t1 Hwf Hr); [apply NoDup_singleton|].
    by intros x ->%list_elem_of_singleton. }
  exists t1. split; [done|]. split; [done|].
  split. { rewrite (retired_entries _ _ _ Hr), list_elem_of_filter.
           rewrite list_elem_of_singleton. tauto. }
  split. { by rewrite (retired_free _ _ _ Hr). }
  split. { apply (retired_zero _ _ _ Hr). by apply list_elem_of_singleton. }
  split.
  { intros x Hx. split.
    - apply (retired_events _ _ _ Hr). by rewrite list_elem_of_singleton.
    - rewrite (retired_entries _ _ _ Hr), list_elem_of_filter.
      rewrite list_elem_of_singleton. tauto. }
  split.
  - unfold latency_tracker_event_in.
    assert ((key_len >? LATENCY_TRACKER_MAX_KEY_SIZE)%Z = false) as ->
      by lia.
    rewrite Hlook. cbn [trackers trace]. rewrite lookup_insert_eq.
    rewrite bool_decide_true by done.
    rewrite bool_decide_false by (intros Hne; by apply Hne).
    cbn [spin_lock_irqsave].
    rewrite !bind_Some_l, Hchk, bind_Some_l. cbn [fst snd].
    destruct (latency_tracker_get_event t1) as [[s'|] t1'].
    + destruct (hash_fct t1') as [h'|]; [|done]. rewrite !bind_Some_l.
      destruct (events t1' !! s') as [e1|]; [|done]. rewrite !bind_Some_l.
      cbv zeta.
      destruct (wrapper_ht_add _ s') as [t4|]; [|done].
      rewrite !bind_Some_l. by rewrite insert_insert_eq.
    + by rewrite insert_insert_eq.
  - destruct (event_in_spec w a t key_arg key_len thresh_arg cb_arg
                timeout_arg unique priv_arg env h m Hlook Hwf Hh Hm Hlen
                (or_introl Hspin))
      as (t1' & Hr' & _ & Hres).
    rewrite bool_decide_true, HM, Hcall in Hres by done.
    rewrite bool_decide_true, HM in Hr' by done.
    destruct (last (events_free_list t1')) as [s'|] eqn:Hlast.
    + destruct Hres as (t4 & e4 & Hres & _). by eexists.
    + apply last_None in Hlast. by rewrite (retired_free _ _ _ Hr') in Hlast.
Qed.

(** ** Destroying a tracker *)


(** ** The capacity of the pool *)

(** C4 (as amended): on a tracker created with the default hash and match
    functions and pool capacity C (DEFAULT_MAX_ALLOC_EVENTS when max_events
    is 0), after C calls of latency_tracker_event_in that returned
    LATENCY_TRACKER_OK and evicted nothing, the pool is empty; the next call
    with a key of valid length that evicts nothing (unique is not set, or no
    record in the bucket of the key matches) returns LATENCY_TRACKER_FULL and
    leaves the world as it was, so no record is created, the table and the
    pool are unchanged and no callback is called; and once one record has
    been retired, the next call with a key of valid length that evicts
    nothing returns LATENCY_TRACKER_OK, and so does one that evicts a record
    where spin locks do not spin. *)
Theorem capacity_bound w max_events gp gt pr env avail module_ok a w0 wC :
  hash_min_in_range →
  latency_tracker_create w None None max_events gp gt pr env avail module_ok
    = (Some a, w0) →
  let C := Z.to_nat (if bool_decide (max_events = 0%Z)
                     then DEFAULT_MAX_ALLOC_EVENTS else max_events) in
  opens a w0 C wC →
  ∃ t, trackers wC !! a = Some t ∧ wf t ∧
    length (ht_entries t) = C ∧ events_free_list t = [] ∧
    (∀ key_arg key_len thresh_arg cb_arg timeout_arg unique priv_arg env',
       (key_len ≤ LATENCY_TRACKER_MAX_KEY_SIZE)%Z →
       ¬ evicts t key_arg key_len unique →
       latency_tracker_event_in wC (Some a) key_arg key_len thresh_arg
         cb_arg timeout_arg unique priv_arg env'
       = Some (LATENCY_TRACKER_FULL, wC)) ∧
    (∀ s t', s ∈ ht_entries t →
       latency_tracker_event_destroy LockFree t s = Some t' →
       ∀ key_arg key_len thresh_arg cb_arg timeout_arg unique priv_arg env',
         (key_len ≤ LATENCY_TRACKER_MAX_KEY_SIZE)%Z →
         spin_lock_spins = false ∨ ¬ evicts t' key_arg key_len unique →
         ∃ w', latency_tracker_event_in
                 (mk_world (<[a := t']> (trackers wC)) (trace wC)) (Some a)
                 key_arg key_len thresh_arg cb_arg timeout_arg unique
                 priv_arg env'
               = Some (LATENCY_TRACKER_OK, w')).
Proof.
  intros Hrange Hcreate C Hopens.
  apply latency_tracker_create_spec in Hcreate
    as (_ & _ & t0 & Htk & Hwf0 & Hent0 & Hcap & Hh0 & Hm0 & _).
  assert (trackers w0 !! a = Some t0) as Hlook0.
  { by rewrite Htk, lookup_insert_eq. }
  assert (usable t0) as Hus0.
  { unfold usable. rewrite Hh0, Hm0. by split; eexists. }
  destruct (opens_inv a w0 C wC Hrange Hopens t0 Hlook0 Hwf0 Hus0)
    as (t & Hlook & Hwf & Hus & Hlen & Hfree & _).
  rewrite Hent0 in Hlen. simpl in Hlen. rewrite Nat.add_0_r in Hlen.
  fold C in Hcap.
  assert (events_free_list t = []) as Hnil.
  { apply nil_length_inv. lia. }
  exists t. do 4 (split; [done|]). split.
  - intros. by apply (event_in_full wC a t).
  - intros s t' Hs Hd key_arg key_len thresh_arg cb_arg timeout_arg unique
      priv_arg env' Hklen Hlk.
    destruct (wf_entries t Hwf) as [_ Hal]. destruct (Hal s Hs) as [e He].
    destruct (destroy_spec t s e He) as (t'' & Hd' & Hr).
    rewrite Hd in Hd'. simplify_eq.
    apply (event_in_ok _ a t'').
    + simpl. by rewrite lookup_insert_eq.
    + apply (retired_wf [s] t t'' Hwf Hr); [apply NoDup_singleton|].
      by intros x ->%list_elem_of_singleton.
    + unfold usable.
      by rewrite (retired_hash _ _ _ Hr), (retired_match _ _ _ Hr).
    + done.
    + done.
    + by rewrite (retired_free _ _ _ Hr).
Qed.

(** ** The callbacks of a walk, and a close that finds nothing *)

Lemma gc_call_ptr t now s c : c ∈ gc_call t now s → call_ptr c = s.
Proof.
  unfold gc_call. destruct (events t !! s) as [e|]; [|by intros ?%elem_of_nil].
  destruct (u64 (now - start_ts e) >? gc_thresh t)%Z;
    [|by intros ?%elem_of_nil].
  destruct (cb e); [|by intros ?%elem_of_nil].
  by intros ->%list_elem_of_singleton.
Qed.

Lemma unique_call_ptr t s c : c ∈ unique_call t s → call_ptr c = s.
Proof.
  unfold unique_call.
  destruct (events t !! s) as [e|]; [|by intros ?%elem_of_nil].
  destruct (cb e); [|by intros ?%elem_of_nil].
  by intros ->%list_elem_of_singleton.
Qed.

Lemma bind_call_ptr (f : nat → list cb_call) l c :
  (∀ s c, c ∈ f s → call_ptr c = s) → c ∈ l ≫= f → call_ptr c ∈ l.
Proof.
  intros Hf [s [Hc Hs]]%list_elem_of_bind. by rewrite (Hf s c Hc).
Qed.

Lemma retired_untouched l t t' p calls :
  wf t → retired l t t' → NoDup l →
  (∀ s, s ∈ l → s ∈ ht_entries t) →
  p ∈ events_free_list t →
  (∀ c, c ∈ calls → call_ptr c ∈ l) →
  untouched p t t' calls.
Proof.
  intros Hwf Hr Hnd Hsub Hp Hcalls.
  assert (p ∉ l) as Hpl.
  { intros Hin. apply Hsub in Hin.
    destruct Hwf as [Hwnd _ _].
    apply NoDup_app in Hwnd as (_ & Hdisj & _). by apply (Hdisj p). }
  split; [by apply (retired_wf l t t')|]. split; [|split].
  - rewrite (retired_free _ _ _ Hr), elem_of_app. by right.
  - by apply (retired_events _ _ _ Hr).
  - intros c Hc Heq. apply Hcalls in Hc. by rewrite Heq in Hc.
Qed.

Lemma matching_entries t k key_arg key_len s :
  s ∈ matching t k key_arg key_len → s ∈ ht_entries t.
Proof. intros Hs. by eapply elem_of_bucket_entries, matching_subset. Qed.

Lemma check_event_nothing t key_arg key_len id now tr h m :
  wf t → hash_fct t = Some h → match_fct t = Some m →
  matching t (h key_arg key_len 0%Z) key_arg key_len = [] →
  wrapper_ht_check_event t key_arg key_len id now tr = Some (t, tr, 0%Z).
Proof.
  intros Hwf Hh Hm HM.
  destruct (wrapper_ht_check_event_spec t key_arg key_len id now tr h m
              Hwf Hh Hm) as (t' & Hchk & Hr).
  rewrite HM in Hchk, Hr. apply retired_nil_eq in Hr as ->.
  by rewrite Hchk, app_nil_r.
Qed.

Lemma matching_after_close t t' k key_arg key_len :
  retired (matching t k key_arg key_len) t t' →
  matching t' k key_arg key_len = [].
Proof.
  intros Hr. unfold matching at 1. rewrite (retired_bucket _ _ _ _ Hr).
  apply filter_none. intros x [Hx Hb]%list_elem_of_filter Hk.
  rewrite (retired_key_matches _ _ _ _ _ _ Hr Hx) in Hk.
  apply Hx. unfold matching. by apply list_elem_of_filter.
Qed.

Lemma matching_empty_table t k key_arg key_len :
  ht_entries t = [] → matching t k key_arg key_len = [].
Proof.
  intros Hent. apply elem_of_nil_inv. intros x Hx%matching_entries.
  rewrite Hent in Hx. by apply elem_of_nil in Hx.
Qed.

Lemma event_out_nothing w a t key_arg key_len id env h m :
  trackers w !! a = Some t → wf t →
  hash_fct t = Some h → match_fct t = Some m →
  matching t (h key_arg key_len 0%Z) key_arg key_len = [] →
  latency_tracker_event_out w (Some a) key_arg key_len id env
    = Some ((-1)%Z, w).
Proof.
  intros Hlook Hwf Hh Hm HM. unfold latency_tracker_event_out.
  rewrite Hlook. simpl.
  rewrite (check_event_nothing t key_arg key_len id _ (trace w) h m
             Hwf Hh Hm HM).
  simpl. by rewrite world_insert_id.
Qed.

End claims.

(** ** The garbage collector and the functions given to create *)

Section claims_gc.
Context {PF : platform}.

(** The sweep of the collector, made with tracker->lock held as
    latency_tracker_gc_cb makes it, calls latency_tracker_event_destroy for
    every record of the table, whatever its age; the age only decides
    whether the callback is called.  Where spin locks spin the first of
    these calls does not return; where they do not, the sweep empties the
    table. *)
Lemma gc_sweep_retires_all t now tr :
  wf t →
  if spin_lock_spins then
    ht_entries t ≠ [] → wrapper_ht_gc LockHeld t now tr = None
  else
    ∃ t', wrapper_ht_gc LockHeld t now tr
            = Some (t', tr ++ (ht_entries t ≫= gc_call t now)) ∧
          ht_entries t' = [] ∧
          ∀ s, s ∈ ht_entries t →
               s ∈ events_free_list t' ∧ events t' !! s = Some zero_event.
Proof.
  intros Hwf. destruct spin_lock_spins eqn:Hspin.
  { intros Hent. by apply wrapper_ht_gc_spins. }
  destruct (wrapper_ht_gc_spec LockHeld t now tr (lock_held_returns Hspin)
              Hwf) as (t' & Hgc & Hr).
  exists t'. split; [done|]. split; [by apply (entries_after_all t)|].
  intros s Hs. split.
  - rewrite (retired_free _ _ _ Hr), elem_of_app, elem_of_reverse. tauto.
  - by apply (retired_zero _ _ _ Hr).
Qed.

(** latency_tracker_create stores jhash and memcmp when it is given NULL,
    and stores nothing when it is given a function: with a hash function and
    a match function supplied, the tracker it returns has hash_fct = NULL and
    match_fct = NULL. *)
Lemma create_function_pointers w m h max_events gp gt pr env avail
    module_ok :
  match latency_tracker_create w (Some m) (Some h) max_events gp gt pr env
          avail module_ok with
  | (Some a, w') =>
      ∃ t, trackers w' !! a = Some t ∧
           hash_fct t = None ∧ match_fct t = None
  | (None, w') => w' = w
  end ∧
  match latency_tracker_create w None None max_events gp gt pr env
          avail module_ok with
  | (Some a, w') =>
      ∃ t, trackers w' !! a = Some t ∧
           hash_fct t = Some jhash ∧ match_fct t = Some memcmp
  | (None, w') => w' = w
  end.
Proof.
  split.
  - destruct (latency_tracker_create w (Some m) (Some h) _ _ _ _ _ _ _)
      as [[a|] w'] eqn:Hc.
    + apply latency_tracker_create_spec in Hc
        as (_ & _ & t & Htk & _ & _ & _ & Hh & Hm & _).
      exists t. rewrite Htk, lookup_insert_eq. done.
    + unfold latency_tracker_create in Hc.
      repeat case_match; by simplify_eq.
  - destruct (latency_tracker_create w None None _ _ _ _ _ _ _)
      as [[a|] w'] eqn:Hc.
    + apply latency_tracker_create_spec in Hc
        as (_ & _ & t & Htk & _ & _ & _ & Hh & Hm & _).
      exists t. rewrite Htk, lookup_insert_eq. done.
    + unfold latency_tracker_create in Hc.
      repeat case_match; by simplify_eq.
Qed.

End claims_gc.

(** The demo platform maps every hash value to one of its four buckets. *)
Lemma demo_hash_min_in_range : hash_min_in_range (PF := demo_platform).
Proof. intros k. simpl. pose proof (Z.mod_pos_bound k 4). lia. Defined.

(** Two opens in a row on the tracker of capacity 2. *)
Lemma demo_opens_2 : opens (PF := demo_platform) 0 (demo_created 2) 2 demo_w2.
Proof.
  eapply (opens_step (PF := demo_platform) 0 _ 1 demo_w1 demo_w2
            (demo_tracker demo_w1) demo_k2 3 400 (Some 7) 0 0 0 (demo_env 20)).
  - eapply (opens_step (PF := demo_platform) 0 _ 0 (demo_created 2) demo_w1
              (demo_tracker (demo_created 2)) demo_k1 3 6 (Some 7) 0 0 0
              (demo_env 10)).
    + apply opens_nil.
    + vm_compute; reflexivity.
    + intros [Hu _]. by apply Hu.
    + vm_compute; reflexivity.
  - vm_compute; reflexivity.
  - intros [Hu _]. by apply Hu.
  - vm_compute; reflexivity.
Defined.

(** C2: the sweep of the collector does not spare an event that is younger
    than gc_thresh.  On every platform and for every tracker, the walk that
    latency_tracker_gc_cb makes with tracker->lock held calls
    latency_tracker_event_destroy for every record, whatever its age: where
    spin locks spin the first of these calls waits for the lock for ever,
    and where they do not the whole table is emptied.  On a tracker with
    gc_thresh = 100 that holds one event opened at time 10, the sweep that
    fires at time 50 finds an age of 40, which does not exceed the
    threshold: on the uniprocessor platform it calls no callback, yet it
    unlinks the record from the table and puts it back on the free list; on
    the SMP platform it does not return. *)
Theorem gc_sweep_retires_young_event :
  (∀ (PF : platform) t now tr,
     wf t →
     if spin_lock_spins then
       ht_entries t ≠ [] → wrapper_ht_gc LockHeld t now tr = None
     else
       ∃ t', wrapper_ht_gc LockHeld t now tr
               = Some (t', tr ++ (ht_entries t ≫= gc_call t now)) ∧
             ht_entries t' = [] ∧
             ∀ s, s ∈ ht_entries t →
                  s ∈ events_free_list t' ∧
                  events t' !! s = Some zero_event) ∧
  demo_in demo_g0 demo_k1 6 0 0 10 = Some (LATENCY_TRACKER_OK, demo_g1) ∧
  gc_thresh (demo_tracker demo_g1) = 100%Z ∧
  start_ts (demo_event demo_g1 0) = 10%Z ∧
  ht_entries (demo_tracker demo_g1) = [0] ∧
  events_free_list (demo_tracker demo_g1) = [1] ∧
  (∃ w', latency_tracker_gc_cb (PF := demo_platform_up) demo_g1 0
           (demo_env 50) = Some w' ∧
         ht_entries (demo_tracker w') = [] ∧
         events_free_list (demo_tracker w') = [0; 1] ∧
         trace w' = []) ∧
  latency_tracker_gc_cb (PF := demo_platform) demo_g1 0 (demo_env 50) = None.
Proof.
  split.
  { intros PF t now tr. apply gc_sweep_retires_all. }
  do 5 (split; [vm_compute; reflexivity|]).
  split; [|vm_compute; reflexivity].
  eexists. split; [vm_compute; reflexivity|].
  do 2 (split; [vm_compute; reflexivity|]).
  vm_compute; reflexivity.
Qed.

(** C3: latency_tracker_create does not keep the functions it is given.
    Whatever hash and match functions are supplied, the tracker it returns
    has hash_fct = NULL and match_fct = NULL (jhash and memcmp are stored
    only when NULL is given).  On the tracker made by
    create(memcmp, demo_jhash, 3, 0, 0, NULL) an open therefore has no
    result: it calls through the NULL hash_fct. *)
Theorem create_drops_supplied_functions :
  (∀ (PF : platform) w m h max_events gp gt pr env avail module_ok,
     match latency_tracker_create w (Some m) (Some h) max_events gp gt pr
             env avail module_ok with
     | (Some a, w') =>
         ∃ t, trackers w' !! a = Some t ∧
              hash_fct t = None ∧ match_fct t = None
     | (None, w') => w' = w
     end) ∧
  hash_fct (demo_tracker demo_supplied) = None ∧
  match_fct (demo_tracker demo_supplied) = None ∧
  events_free_list (demo_tracker demo_supplied) = [2; 1; 0] ∧
  demo_in demo_supplied demo_k1 6 0 0 10 = None.
Proof.
  split.
  - intros PF w m h max_events gp gt pr env avail module_ok.
    apply (create_function_pointers w m h).
  - do 3 (split; [vm_compute; reflexivity|]).
    vm_compute; reflexivity.
Qed.

(** ** Two closes at the same time *)

(** C1: two calls of latency_tracker_event_out for the same key, made on two
    processors, retire the same record twice.  Key 1 is open in record 0.
    The first call finds the record, calls its callback and reaches the
    spin_unlock_irqrestore that precedes latency_tracker_event_destroy: the
    lock is free and record 0 is still in the table.  The second call then
    runs from its start to its end: it finds record 0 too, calls its
    callback again, retires it and returns 0.  The first call goes on: it
    calls latency_tracker_event_destroy for record 0, which retires it a
    second time, takes the lock again, finds the end of the bucket and
    returns 0 as well.  The record has been given to
    latency_tracker_put_event twice and neither call has seen "not found".
    The free list of the model holds the record twice; in the kernel the
    second list_add is given a node that is already the first of the list,
    which leaves the list damaged.  Run with nothing in between, the parts
    of the first call make up latency_tracker_event_out, which retires the
    record once. *)
Theorem racing_closes_retire_twice :
  demo_in (demo_created 2) demo_k1 6 0 0 10
    = Some (LATENCY_TRACKER_OK, demo_w1) ∧
  ht_entries (demo_tracker demo_w1) = [0] ∧
  events_free_list (demo_tracker demo_w1) = [1] ∧
  latency_tracker_event_out_begin (PF := demo_platform) demo_w1 0 demo_k1 3 1
    (demo_env 30) = Some (demo_w1a, CheckUnlocked 0 None) ∧
  ht_entries (demo_tracker demo_w1a) = [0] ∧
  events_free_list (demo_tracker demo_w1a) = [1] ∧
  flags (trace demo_w1a) = [(0, LATENCY_TRACKER_CB_NORMAL)] ∧
  demo_out demo_w1a demo_k1 2 31 = Some (0%Z, demo_w1ab) ∧
  ht_entries (demo_tracker demo_w1ab) = [] ∧
  events_free_list (demo_tracker demo_w1ab) = [0; 1] ∧
  latency_tracker_event_out_resume (PF := demo_platform) demo_w1ab 0 demo_k1
    3 1 30 (CheckUnlocked 0 None) = Some (demo_w1aba, CheckRelock None) ∧
  latency_tracker_event_out_resume (PF := demo_platform) demo_w1aba 0 demo_k1
    3 1 30 (CheckRelock None) = Some (demo_w1aba, CheckDone 1) ∧
  event_out_ret 1 = 0%Z ∧
  events_free_list (demo_tracker demo_w1aba) = [0; 0; 1] ∧
  ¬ wf (PF := demo_platform) (demo_tracker demo_w1aba) ∧
  (λ c, (call_ptr c, cb_flag (call_ev c), cb_out_id (call_ev c)))
    <$> trace demo_w1aba
  = [(0, LATENCY_TRACKER_CB_NORMAL, 1%Z); (0, LATENCY_TRACKER_CB_NORMAL, 2%Z)] ∧
  latency_tracker_event_out_finish (PF := demo_platform) 2 demo_w1a 0 demo_k1
    3 1 30 (CheckUnlocked 0 None)
  = latency_tracker_event_out (PF := demo_platform) demo_w1 (Some 0) demo_k1
      3 1 (demo_env 30) ∧
  events_free_list
    (demo_tracker
       (after (latency_tracker_event_out (PF := demo_platform) demo_w1
                 (Some 0) demo_k1 3 1 (demo_env 30)))) = [0; 1].
Proof.
  do 14 (split; [vm_compute; reflexivity|]).
  split.
  { intros [Hnd _ _]. revert Hnd. apply (bool_decide_unpack _).
    vm_compute. exact I. }
  do 2 (split; [vm_compute; reflexivity|]).
  vm_compute; reflexivity.
Qed.

(** ** Runs on which two statements fail as they are worded *)

(** C4, as stated, fails here: the tracker has capacity 1 and one open has
    succeeded, with no retirement; the next open, of the same key with
    unique set, does not return LATENCY_TRACKER_FULL.  It finds the record
    and calls its callback; on the uniprocessor platform it then evicts the
    record and returns LATENCY_TRACKER_OK, on the SMP platform it does not
    return. *)
Lemma full_pool_unique_open_is_not_full :
  opens (PF := demo_platform) 0 (demo_created 1) 1 demo_v1 ∧
  opens (PF := demo_platform_up) 0 (demo_created 1) 1 demo_v1 ∧
  events_free_list (demo_tracker demo_v1) = [] ∧
  fst <$> latency_tracker_event_in (PF := demo_platform_up) demo_v1 (Some 0)
            demo_k1 3 6 (Some 7) 0 1 0 (demo_env 20)
  = Some LATENCY_TRACKER_OK ∧
  flags (trace (after (latency_tracker_event_in (PF := demo_platform_up)
                         demo_v1 (Some 0) demo_k1 3 6 (Some 7) 0 1 0
                         (demo_env 20))))
  = [(0, LATENCY_TRACKER_CB_UNIQUE)] ∧
  latency_tracker_event_in (PF := demo_platform) demo_v1 (Some 0) demo_k1 3 6
    (Some 7) 0 1 0 (demo_env 20) = None.
Proof.
  split; [|split].
  - eapply (opens_step (PF := demo_platform) 0 _ 0 (demo_created 1) demo_v1
              (demo_tracker (demo_created 1)) demo_k1 3 6 (Some 7) 0 0 0
              (demo_env 10)).
    + apply opens_nil.
    + vm_compute; reflexivity.
    + intros [Hu _]. by apply Hu.
    + vm_compute; reflexivity.
  - eapply (opens_step (PF := demo_platform_up) 0 _ 0 (demo_created 1)
              demo_v1 (demo_tracker (demo_created 1)) demo_k1 3 6 (Some 7) 0
              0 0 (demo_env 10)).
    + apply opens_nil.
    + vm_compute; reflexivity.
    + intros [Hu _]. by apply Hu.
    + vm_compute; reflexivity.
  - do 3 (split; [vm_compute; reflexivity|]).
    vm_compute; reflexivity.
Qed.

(** C5, as stated, fails here: key 1, of three bytes, is open in record 0,
    which lies in bucket 2.  A close is made with the first two bytes of the
    key and key_len = 2.  The match function, called as the walk calls it,
    returns 0 for record 0: the key of the event matches.  The hash of the
    two bytes leads to bucket 3, which is empty: the close returns -1 and
    the event stays in the table. *)
Lemma close_misses_match_in_other_bucket :
  demo_in (demo_created 2) demo_k1 6 0 0 10
    = Some (LATENCY_TRACKER_OK, demo_w1) ∧
  ht_entries (demo_tracker demo_w1) = [0] ∧
  match_fct (demo_tracker demo_w1) = Some memcmp ∧
  memcmp demo_k12 (key (demo_event demo_w1 0)) 2 = 0%Z ∧
  @hash_min demo_platform (hkey (demo_event demo_w1 0)) = 2 ∧
  @hash_min demo_platform (demo_jhash demo_k12 2 0) = 3 ∧
  latency_tracker_event_out (PF := demo_platform) demo_w1 (Some 0) demo_k12 2
    0 (demo_env 30) = Some ((-1)%Z, demo_w1).
Proof.
  do 6 (split; [vm_compute; reflexivity|]).
  vm_compute; reflexivity.
Qed.

(** ** The theorems at given inputs *)

Lemma demo_wf_w2 : wf (PF := demo_platform) (demo_tracker demo_w2).
Proof. apply (bool_decide_unpack _). vm_compute. exact I. Defined.

Lemma demo_placed_w2 : placed (PF := demo_platform) (demo_tracker demo_w2).
Proof.
  assert (ht (demo_tracker demo_w2) = [[]; []; [0]; [1]]) as Hht
    by (vm_compute; reflexivity).
  intros i b s Hb Hs. rewrite Hht in Hb.
  destruct i as [|[|[|[|i]]]]; simpl in Hb; try done;
    injection Hb as <-; try (by apply elem_of_nil in Hs);
    apply list_elem_of_singleton in Hs; subst s;
    eexists; (split; [vm_compute; reflexivity|vm_compute; reflexivity]).
Defined.

Lemma event_in_key_too_long_witness :
  (9 > @LATENCY_TRACKER_MAX_KEY_SIZE demo_platform)%Z ∧
  latency_tracker_event_in (PF := demo_platform) demo_w1 (Some 0) demo_k1 9 6
    (Some 7) 0 0 0 (demo_env 20) = Some (LATENCY_TRACKER_ERR, demo_w1).
Proof.
  assert ((9 > @LATENCY_TRACKER_MAX_KEY_SIZE demo_platform)%Z) as H
    by (simpl; lia).
  split; [exact H|].
  exact (event_in_key_too_long (PF := demo_platform) demo_w1 (Some 0) demo_k1
           9 6 (Some 7) 0 0 0 (demo_env 20) H).
Defined.

Lemma timeout_calls_callback_untested_witness :
  (latency_tracker_event_in (PF := demo_platform) (demo_created 2) (Some 0)
     demo_k1 3 6 None 5000000 0 0 (demo_env 10)
   = Some (LATENCY_TRACKER_OK, demo_wtn) ∧
   trackers demo_wtn !! 0 = Some (demo_tracker demo_wtn) ∧
   events (demo_tracker demo_wtn) !! 0 = Some (demo_event demo_wtn 0) ∧
   timers (demo_tracker demo_wtn) !! 0 = Some 5000%Z ∧
   cb (demo_event demo_wtn 0) = None ∧
   latency_tracker_timeout_cb demo_wtn 0 0 = None) ∧
  (trackers demo_wt !! 0 = Some (demo_tracker demo_wt) ∧
   events (demo_tracker demo_wt) !! 0 = Some (demo_event demo_wt 0) ∧
   cb (demo_event demo_wt 0) = Some 7 ∧
   ∃ t', latency_tracker_timeout_cb demo_wt 0 0
         = Some (mk_world (<[0 := t']> (trackers demo_wt))
                   [Call 7 0
                      (mk_event 6 [1; 2; 3; 0; 0; 0; 0; 0]%Z 10 0 6 0
                         (Some 7) 0 LATENCY_TRACKER_CB_TIMEOUT 0)]) ∧
         ht t' = ht (demo_tracker demo_wt) ∧
         events_free_list t' = events_free_list (demo_tracker demo_wt)).
Proof.
  split.
  - assert (trackers demo_wtn !! 0 = Some (demo_tracker demo_wtn)) as H1
      by (vm_compute; reflexivity).
    assert (events (demo_tracker demo_wtn) !! 0
            = Some (demo_event demo_wtn 0)) as H2
      by (vm_compute; reflexivity).
    assert (cb (demo_event demo_wtn 0) = None) as H3
      by (vm_compute; reflexivity).
    split; [vm_compute; reflexivity|].
    split; [exact H1|]. split; [exact H2|].
    split; [vm_compute; reflexivity|]. split; [exact H3|].
    pose proof (timeout_calls_callback_untested demo_wtn 0 _ 0 _ H1 H2) as H.
    cbv zeta in H. rewrite H3 in H. exact H.
  - assert (trackers demo_wt !! 0 = Some (demo_tracker demo_wt)) as H1
      by (vm_compute; reflexivity).
    assert (events (demo_tracker demo_wt) !! 0 = Some (demo_event demo_wt 0))
      as H2 by (vm_compute; reflexivity).
    assert (cb (demo_event demo_wt 0) = Some 7) as H3
      by (vm_compute; reflexivity).
    assert (demo_event demo_wt 0
            = mk_event 6 [1; 2; 3; 0; 0; 0; 0; 0]%Z 10 0 6 5000000 (Some 7) 0
                LATENCY_TRACKER_CB_NONE 0) as H4
      by (vm_compute; reflexivity).
    assert (trace demo_wt = []) as H5 by (vm_compute; reflexivity).
    do 3 (split; [assumption|]).
    pose proof (timeout_calls_callback_untested demo_wt 0 _ 0 _ H1 H2) as H.
    cbv zeta in H. rewrite H3 in H.
    destruct H as (t' & Heq & _ & Hht & Hfree & _).
    exists t'. rewrite H4, H5 in Heq. split; [exact Heq|].
    split; assumption.
Defined.

Lemma event_out_closes_matching_witness :
  trackers demo_w2 !! 0 = Some (demo_tracker demo_w2) ∧
  wf (PF := demo_platform) (demo_tracker demo_w2) ∧
  placed (PF := demo_platform) (demo_tracker demo_w2) ∧
  hash_fct (demo_tracker demo_w2) = Some demo_jhash ∧
  match_fct (demo_tracker demo_w2) = Some memcmp ∧
  (0 ≤ 3 ≤ @LATENCY_TRACKER_MAX_KEY_SIZE demo_platform)%Z ∧
  index_matching (PF := demo_platform) (demo_tracker demo_w2)
    (demo_jhash demo_k1 3 0) demo_k1 3 = [0] ∧
  ∃ t',
    latency_tracker_event_out (PF := demo_platform) demo_w2 (Some 0) demo_k1
      3 5 (demo_env 30)
    = Some (0%Z,
            mk_world (<[0 := t']> (trackers demo_w2))
              [Call 7 0
                 (mk_event 6 [1; 2; 3; 0; 0; 0; 0; 0]%Z 10 30 6 0 (Some 7) 0
                    LATENCY_TRACKER_CB_NORMAL 5)]) ∧
    (0 ∉ ht_entries t') ∧ 0 ∈ events_free_list t' ∧
    events t' !! 0 = Some (zero_event (PF := demo_platform)) ∧
    events t' !! 1 = events (demo_tracker demo_w2) !! 1 ∧
    1 ∈ ht_entries t'.
Proof.
  assert (trackers demo_w2 !! 0 = Some (demo_tracker demo_w2)) as H1
    by (vm_compute; reflexivity).
  assert (hash_fct (demo_tracker demo_w2) = Some demo_jhash) as H3
    by (vm_compute; reflexivity).
  assert (match_fct (demo_tracker demo_w2) = Some memcmp) as H4
    by (vm_compute; reflexivity).
  assert ((0 ≤ 3 ≤ @LATENCY_TRACKER_MAX_KEY_SIZE demo_platform)%Z) as H5
    by (simpl; lia).
  assert (index_matching (PF := demo_platform) (demo_tracker demo_w2)
            (demo_jhash demo_k1 3 0) demo_k1 3 = [0]) as H6
    by (vm_compute; reflexivity).
  assert (events (demo_tracker demo_w2) !! 0
          = Some (mk_event 6 [1; 2; 3; 0; 0; 0; 0; 0]%Z 10 0 6 0 (Some 7) 0
                    LATENCY_TRACKER_CB_NONE 0)) as H7
    by (vm_compute; reflexivity).
  assert (trace demo_w2 = []) as H8 by (vm_compute; reflexivity).
  assert ([0] ≫= check_call (demo_tracker demo_w2) 5
                   (trace_clock_monotonic_wrapper (demo_env 30))
          = [Call 7 0
               (mk_event 6 [1; 2; 3; 0; 0; 0; 0; 0]%Z 10 30 6 0 (Some 7) 0
                  LATENCY_TRACKER_CB_NORMAL 5)]) as H9
    by (vm_compute; reflexivity).
  assert (1 ∈ ht_entries (demo_tracker demo_w2)) as H10.
  { apply (bool_decide_unpack _). vm_compute. exact I. }
  split; [exact H1|]. split; [exact demo_wf_w2|].
  split; [exact demo_placed_w2|].
  split; [exact H3|]. split; [exact H4|]. split; [exact H5|].
  split; [exact H6|].
  pose proof (event_out_closes_matching (PF := demo_platform) demo_w2 0 _
                demo_k1 3 5 (demo_env 30) demo_jhash memcmp H1 demo_wf_w2
                demo_placed_w2 H3 H4 H5) as H.
  cbv zeta in H. rewrite H6 in H.
  destruct H as (_ & t' & Heq & _ & _ & HM & Hother).
  rewrite H8, H9 in Heq.
  destruct (HM 0 _ ltac:(by apply list_elem_of_singleton) H7)
    as (_ & _ & Hn & Hf & Hz).
  destruct (Hother 1) as (He1 & Hin1 & _).
  { rewrite list_elem_of_singleton. lia. }
  exists t'. split; [exact Heq|]. split; [exact Hn|]. split; [exact Hf|].
  split; [exact Hz|]. split; [exact He1|]. by apply Hin1.
Defined.

Lemma unique_open_retakes_lock_witness :
  trackers demo_w13 !! 0 = Some (demo_tracker demo_w13) ∧
  wf (PF := demo_platform) (demo_tracker demo_w13) ∧
  bucket (PF := demo_platform) (demo_tracker demo_w13)
    (demo_jhash demo_k1 (u32 3) 0) = [1] ++ 0 :: [] ∧
  key_matches (demo_tracker demo_w13) demo_k1 3 1 = false ∧
  key_matches (demo_tracker demo_w13) demo_k1 3 0 = true ∧
  latency_tracker_event_in (PF := demo_platform) demo_w13 (Some 0) demo_k1 3
    6 (Some 7) 0 1 0 (demo_env 30) = None ∧
  ∃ w', latency_tracker_event_in (PF := demo_platform_up) demo_w13 (Some 0)
          demo_k1 3 6 (Some 7) 0 1 0 (demo_env 30)
        = Some (LATENCY_TRACKER_OK, w') ∧
        trace w'
        = [Call 7 0
             (mk_event 6 [1; 2; 3; 0; 0; 0; 0; 0]%Z 10 0 6 0 (Some 7) 0
                LATENCY_TRACKER_CB_UNIQUE 0)].
Proof.
  assert (trackers demo_w13 !! 0 = Some (demo_tracker demo_w13)) as H1
    by (vm_compute; reflexivity).
  assert (wf (PF := demo_platform) (demo_tracker demo_w13)) as H2
    by (apply (bool_decide_unpack _); vm_compute; exact I).
  assert (wf (PF := demo_platform_up) (demo_tracker demo_w13)) as H2'
    by (apply (bool_decide_unpack _); vm_compute; exact I).
  assert (hash_fct (demo_tracker demo_w13) = Some demo_jhash) as H3
    by (vm_compute; reflexivity).
  assert (match_fct (demo_tracker demo_w13) = Some memcmp) as H4
    by (vm_compute; reflexivity).
  assert ((3 ≤ @LATENCY_TRACKER_MAX_KEY_SIZE demo_platform)%Z) as H5
    by (simpl; lia).
  assert (1%Z ≠ 0%Z) as H6 by lia.
  assert (bucket (PF := demo_platform) (demo_tracker demo_w13)
            (demo_jhash demo_k1 (u32 3) 0) = [1] ++ 0 :: []) as H7
    by (vm_compute; reflexivity).
  assert (key_matches (demo_tracker demo_w13) demo_k1 3 1 = false) as H8
    by (vm_compute; reflexivity).
  assert (∀ x, x ∈ [1] → key_matches (demo_tracker demo_w13) demo_k1 3 x
                          = false) as H8'.
  { intros x Hx. apply list_elem_of_singleton in Hx. subst x. exact H8. }
  assert (key_matches (demo_tracker demo_w13) demo_k1 3 0 = true) as H9
    by (vm_compute; reflexivity).
  assert (events (demo_tracker demo_w13) !! 0
          = Some (mk_event 6 [1; 2; 3; 0; 0; 0; 0; 0]%Z 10 0 6 0 (Some 7) 0
                    LATENCY_TRACKER_CB_NONE 0))
    as H10 by (vm_compute; reflexivity).
  assert (trace demo_w13 = []) as H11 by (vm_compute; reflexivity).
  split; [exact H1|]. split; [exact H2|]. split; [exact H7|].
  split; [exact H8|]. split; [exact H9|].
  split.
  - exact (proj2 (unique_open_retakes_lock (PF := demo_platform) demo_w13 0 _
                    demo_k1 3 6 (Some 7) 0 1 0 (demo_env 30) demo_jhash
                    memcmp [1] 0 [] _ H1 H2 H3 H4 H5 H6 H7 H8' H9 H10)).
  - destruct (unique_open_retakes_lock (PF := demo_platform_up) demo_w13 0 _
                demo_k1 3 6 (Some 7) 0 1 0 (demo_env 30) demo_jhash memcmp
                [1] 0 [] _ H1 H2' H3 H4 H5 H6 H7 H8' H9 H10)
      as (t1 & _ & _ & _ & _ & _ & _ & _ & w' & Hin & Htr).
    exists w'. split; [exact Hin|]. rewrite H11 in Htr. exact Htr.
Defined.


Lemma capacity_bound_witness :
  latency_tracker_create (PF := demo_platform) demo_w0 None None 2 0 0 0
    (demo_env 0) 200 true = (Some 0, demo_created 2) ∧
  opens (PF := demo_platform) 0 (demo_created 2) 2 demo_w2 ∧
  latency_tracker_event_in (PF := demo_platform) demo_w2 (Some 0) demo_k3 3 6
    (Some 7) 0 0 0 (demo_env 30) = Some (LATENCY_TRACKER_FULL, demo_w2).
Proof.
  assert (latency_tracker_create (PF := demo_platform) demo_w0 None None 2
            0 0 0 (demo_env 0) 200 true = (Some 0, demo_created 2)) as H1
    by (vm_compute; reflexivity).
  split; [exact H1|]. split; [exact demo_opens_2|].
  destruct (capacity_bound (PF := demo_platform) demo_w0 2 0 0 0 (demo_env 0)
              200 true 0 (demo_created 2) demo_w2 demo_hash_min_in_range H1
              demo_opens_2) as (t & Hlook & _ & _ & _ & Hfull & _).
  apply Hfull.
  - simpl. lia.
  - intros [Hu _]. by apply Hu.
Defined.

(** * The invariant over the life of a tracker, the error paths, the
      rhashtable variant and the self test *)

Section invariant_proofs.
Context {PF : platform}.
Implicit Types (t : latency_tracker) (s : nat) (l : list nat) (w : world).

Local Arguments latency_tracker_event_destroy : simpl never.

(** ** The three side conditions, in pointwise form *)

Lemma timers_ok_alt t :
  timers_ok t ↔
  ∀ s, is_Some (timers t !! s) →
       s ∈ ht_entries t ∧ ∃ e, events t !! s = Some e ∧ (0 < timeout e)%Z.
Proof.
  unfold timers_ok. rewrite map_Forall_lookup. split.
  - intros Hall s [x Hx]. destruct (Hall s x Hx) as [Hin He].
    split; [done|]. destruct (events t !! s) as [e|]; [|done]. by exists e.
  - intros Hall s x Hx. destruct (Hall s) as (Hin & e & He & Hpos);
      [by eexists|].
    split; [done|]. by rewrite He.
Qed.

Lemma pool_zeroed_alt t :
  pool_zeroed t ↔
  ∀ p, p ∈ events_free_list t → events t !! p = Some zero_event.
Proof. unfold pool_zeroed. by rewrite Forall_forall. Qed.

Lemma records_owned_alt t :
  records_owned t ↔
  ∀ s, is_Some (events t !! s) → s ∈ ht_entries t ++ events_free_list t.
Proof.
  unfold records_owned. rewrite map_Forall_lookup. split.
  - intros Hall s [x Hx]. by apply (Hall s x).
  - intros Hall s x Hx. apply Hall. by eexists.
Qed.

(** ** Timers through a retirement *)

Lemma entries_ht_del t s :
  ht_entries (wrapper_ht_del t s) = filter (λ x, x ≠ s) (ht_entries t).
Proof. unfold ht_entries. simpl. apply join_fmap_filter. Qed.

Lemma destroy_timers_ok lk t s t' :
  latency_tracker_event_destroy lk t s = Some t' → timers_ok t → timers_ok t'.
Proof.
  unfold latency_tracker_event_destroy.
  destruct (spin_lock_irqsave lk) as [lk'|]; [|done]. simpl.
  destruct (events t !! s) as [e|] eqn:He; [|done]. simpl.
  intros [= <-]. rewrite !timers_ok_alt. intros Hok x Hx.
  assert (x ≠ s ∧ is_Some (timers t !! x)) as [Hne Hx'].
  { destruct (timeout e >? 0)%Z eqn:Hto; simpl in Hx.
    - destruct (decide (x = s)) as [->|Hne].
      + rewrite lookup_delete_eq in Hx. by destruct Hx.
      + by rewrite lookup_delete_ne in Hx.
    - split; [|done]. intros ->.
      destruct (Hok s Hx) as (_ & e' & He' & Hpos).
      rewrite He in He'. simplify_eq. lia. }
  destruct (Hok x Hx') as (Hin & e' & He' & Hpos).
  split.
  - destruct (timeout e >? 0)%Z; simpl;
      unfold ht_entries; simpl; rewrite join_fmap_filter;
      by apply list_elem_of_filter.
  - exists e'. split; [|done].
    destruct (timeout e >? 0)%Z; simpl; by rewrite lookup_insert_ne.
Qed.

Lemma store_timers_ok t s e e' :
  events t !! s = Some e → timeout e' = timeout e →
  timers_ok t → timers_ok (store t s e').
Proof.
  intros He Hto. rewrite !timers_ok_alt. intros Hok x Hx.
  destruct (Hok x Hx) as (Hin & ex & Hex & Hpos). split; [done|].
  simpl. destruct (decide (x = s)) as [->|Hne].
  - rewrite lookup_insert_eq. exists e'. split; [done|].
    rewrite He in Hex. simplify_eq. by rewrite Hto.
  - rewrite lookup_insert_ne by done. by exists ex.
Qed.

Lemma for_each_preserves {S} (Q : S → Prop) (body : nat → S → option S) l :
  (∀ s st st', body s st = Some st' → Q st → Q st') →
  ∀ st st', for_each body l st = Some st' → Q st → Q st'.
Proof.
  intros Hbody. induction l as [|s l IH]; intros st st' Hloop HQ.
  - simpl in Hloop. by simplify_eq.
  - rewrite for_each_cons in Hloop.
    destruct (body s st) as [st1|] eqn:Hb; [|done].
    rewrite bind_Some_l in Hloop.
    apply (IH st1 st' Hloop). apply (Hbody s st st1 Hb HQ).
Qed.

Lemma clear_visit_timers_ok s st st' :
  clear_visit s st = Some st' → timers_ok st.1 → timers_ok st'.1.
Proof.
  unfold clear_visit.
  destruct (latency_tracker_event_destroy LockFree st.1 s) as [t'|] eqn:Hd;
    [|done].
  intros [= <-]. simpl. by eapply destroy_timers_ok.
Qed.

Lemma gc_visit_timers_ok lk now s st st' :
  gc_visit lk now s st = Some st' → timers_ok st.1 → timers_ok st'.1.
Proof.
  unfold gc_visit. destruct (events st.1 !! s) as [e|] eqn:He; [|done].
  simpl. destruct (u64 (now - start_ts e) >? gc_thresh st.1)%Z.
  - unfold run_cb. simpl. rewrite lookup_insert_eq. simpl.
    destruct (latency_tracker_event_destroy _ _ s) as [t2|] eqn:Hd; [|done].
    intros [= <-] Hok. simpl. eapply destroy_timers_ok; [done|].
    by eapply store_timers_ok.
  - simpl.
    destruct (latency_tracker_event_destroy _ _ s) as [t2|] eqn:Hd; [|done].
    intros [= <-] Hok. simpl. by eapply destroy_timers_ok.
Qed.

Lemma check_visit_timers_ok key_arg key_len id now s st st' :
  check_visit key_arg key_len id now s st = Some st' →
  timers_ok st.1.1 → timers_ok st'.1.1.
Proof.
  destruct st as [[t tr] found]. unfold check_visit.
  destruct (events t !! s) as [e|] eqn:He; [|done]. simpl.
  destruct (match_fct t) as [m|]; [|done]. simpl.
  case_bool_decide; [by intros [= <-]|].
  destruct (u64 (now - start_ts e) >? thresh e)%Z.
  - unfold run_cb. simpl. rewrite lookup_insert_eq. simpl.
    destruct (latency_tracker_event_destroy _ _ s) as [t2|] eqn:Hd; [|done].
    intros [= <-] Hok. simpl. eapply destroy_timers_ok; [done|].
    by eapply store_timers_ok.
  - simpl.
    destruct (latency_tracker_event_destroy _ _ s) as [t2|] eqn:Hd; [|done].
    intros [= <-] Hok. simpl. by eapply destroy_timers_ok.
Qed.

Lemma unique_loop_timers_ok lk key_arg key_len l : ∀ st st',
  unique_loop lk key_arg key_len l st = Some st' →
  timers_ok st.1 → timers_ok st'.1.
Proof.
  induction l as [|s l IH]; intros st st'; simpl.
  - by intros [= <-].
  - destruct (events st.1 !! s) as [e|] eqn:He; [|done]. simpl.
    destruct (match_fct st.1) as [m|]; [|done]. simpl.
    case_bool_decide; [apply IH|].
    unfold run_cb. simpl. rewrite lookup_insert_eq. simpl.
    destruct (latency_tracker_event_destroy _ _ s) as [t2|] eqn:Hd; [|done].
    intros [= <-] Hok. simpl. eapply destroy_timers_ok; [done|].
    by eapply store_timers_ok.
Qed.

Lemma wrapper_ht_clear_timers_ok t n t' :
  wrapper_ht_clear t = Some (n, t') → timers_ok t → timers_ok t'.
Proof.
  unfold wrapper_ht_clear.
  destruct (for_each clear_visit (ht_entries t) (t, 0%Z)) as [st|] eqn:Hl;
    [|done].
  intros [= <- <-] Hok.
  apply (for_each_preserves (λ st, timers_ok st.1) clear_visit _
           clear_visit_timers_ok _ _ Hl Hok).
Qed.

Lemma wrapper_ht_gc_timers_ok lk t now tr t' tr' :
  wrapper_ht_gc lk t now tr = Some (t', tr') → timers_ok t → timers_ok t'.
Proof.
  unfold wrapper_ht_gc. intros Hl Hok.
  apply (for_each_preserves (λ st, timers_ok st.1) (gc_visit lk now) _
           (gc_visit_timers_ok lk now) _ _ Hl Hok).
Qed.

Lemma wrapper_ht_check_event_timers_ok t key_arg key_len id now tr t' tr' f :
  wrapper_ht_check_event t key_arg key_len id now tr = Some (t', tr', f) →
  timers_ok t → timers_ok t'.
Proof.
  unfold wrapper_ht_check_event. destruct (hash_fct t) as [h|]; [|done].
  simpl. intros Hl Hok.
  apply (for_each_preserves (λ st, timers_ok st.1.1)
           (check_visit key_arg key_len id now) _
           (check_visit_timers_ok key_arg key_len id now) _ _ Hl Hok).
Qed.

Lemma wrapper_ht_unique_check_timers_ok lk t key_arg key_len tr t' tr' :
  wrapper_ht_unique_check lk t key_arg key_len tr = Some (t', tr') →
  timers_ok t → timers_ok t'.
Proof.
  unfold wrapper_ht_unique_check. destruct (hash_fct t) as [h|]; [|done].
  simpl. intros Hl Hok.
  apply (unique_loop_timers_ok lk key_arg key_len _ _ _ Hl Hok).
Qed.

(** ** The whole invariant through a retirement *)

Lemma retired_tracker_ok C l t t' :
  tracker_ok C t → retired l t t' → NoDup l →
  (∀ s, s ∈ l → s ∈ ht_entries t) →
  timers_ok t' → tracker_ok C t'.
Proof.
  intros [Hwf Hus Hsz Hz Htm Hown] Hr Hnd Hsub Htm'.
  destruct (retired_lengths l t t' Hwf Hr Hnd Hsub) as [Hl1 Hl2].
  constructor.
  - by apply (retired_wf l t t').
  - unfold usable. by rewrite (retired_hash _ _ _ Hr), (retired_match _ _ _ Hr).
  - lia.
  - apply pool_zeroed_alt. intros p Hp.
    destruct (decide (p ∈ l)) as [Hin|Hout].
    + by apply (retired_zero _ _ _ Hr).
    + rewrite (retired_events _ _ _ Hr) by done.
      apply (proj1 (pool_zeroed_alt t) Hz).
      rewrite (retired_free _ _ _ Hr), elem_of_app, elem_of_reverse in Hp.
      tauto.
  - done.
  - apply records_owned_alt. intros s Hs.
    rewrite (retired_entries _ _ _ Hr), (retired_free _ _ _ Hr).
    rewrite !elem_of_app, list_elem_of_filter, elem_of_reverse.
    destruct (decide (s ∈ l)) as [Hin|Hout]; [tauto|].
    rewrite (retired_events _ _ _ Hr) in Hs by done.
    apply (proj1 (records_owned_alt t) Hown) in Hs.
    rewrite elem_of_app in Hs. tauto.
Qed.

(** ** Opening an event, once more, with the state after the duplicate check *)

Lemma event_in_cases w a t key_arg key_len thresh_arg cb_arg timeout_arg
    unique priv_arg env h m :
  trackers w !! a = Some t → wf t →
  hash_fct t = Some h → match_fct t = Some m →
  (key_len ≤ LATENCY_TRACKER_MAX_KEY_SIZE)%Z →
  spin_lock_spins = false ∨ ¬ evicts t key_arg key_len unique →
  let M := if bool_decide (unique ≠ 0%Z)
           then take 1 (matching t (h key_arg (u32 key_len) 0%Z)
                          key_arg key_len)
           else [] in
  let tr1 := trace w ++ (M ≫= unique_call t) in
  let r := latency_tracker_event_in w (Some a) key_arg key_len thresh_arg
             cb_arg timeout_arg unique priv_arg env in
  ∃ t1,
    (if bool_decide (unique ≠ 0%Z)
     then wrapper_ht_unique_check LockHeld t key_arg key_len (trace w)
     else Some (t, trace w)) = Some (t1, tr1) ∧
    retired M t t1 ∧ wf t1 ∧
    match last (events_free_list t1) with
    | None =>
        r = Some (LATENCY_TRACKER_FULL,
                  mk_world (<[a := t1]> (trackers w)) tr1)
    | Some s =>
        ∃ t4 e,
          r = Some (LATENCY_TRACKER_OK,
                    mk_world (<[a := t4]> (trackers w)) tr1) ∧
          events t1 !! s = Some e ∧
          events t4 =
            <[s := mk_event (h key_arg (u32 key_len) 0%Z)
                     (memcpy (key e) key_arg (Z.to_nat key_len))
                     (trace_clock_monotonic_wrapper env) (end_ts e)
                     thresh_arg timeout_arg cb_arg priv_arg (cb_flag e)
                     (cb_out_id e)]> (events t1) ∧
          ht t4 = alter (cons s) (hash_min (h key_arg (u32 key_len) 0%Z))
                    (ht t1) ∧
          events_free_list t4 = removelast (events_free_list t1) ∧
          timers t4 =
            (if (timeout_arg >? 0)%Z
             then <[s := u64 (jiffies env
                              + wrapper_nsecs_to_jiffies timeout_arg)]>
                    (timers t1)
             else timers t1) ∧
          hash_fct t4 = hash_fct t ∧ match_fct t4 = match_fct t ∧
          gc_period t4 = gc_period t ∧ gc_thresh t4 = gc_thresh t ∧
          gc_timer t4 = gc_timer t ∧ tracker_priv t4 = tracker_priv t ∧
          (hash_min_in_range →
           wf t4 ∧
           length (ht_entries t4) = S (length (ht_entries t1)) ∧
           S (length (events_free_list t4)) = length (events_free_list t1))
    end.
Proof.
  intros Hlook Hwf Hh Hm Hlen Hlk M tr1 r.
  assert (∃ t1,
    (if bool_decide (unique ≠ 0%Z)
     then wrapper_ht_unique_check LockHeld t key_arg key_len (trace w)
     else Some (t, trace w)) = Some (t1, tr1) ∧ retired M t t1 ∧ wf t1)
    as (t1 & Hst & Hr & Hwf1).
  { subst M tr1. case_bool_decide.
    - destruct (wrapper_ht_unique_check_spec LockHeld t key_arg key_len
                  (trace w) h m Hwf Hh Hm) as (t1 & Hu & Hr).
      { destruct Hlk as [Hspin|Hq]; [left; by apply lock_held_returns|].
        right.
        destruct (matching t (h key_arg (u32 key_len) 0%Z) key_arg key_len)
          as [|x l] eqn:HM; [done|].
        exfalso. apply Hq. split; [done|]. exists h. split; [done|].
        by rewrite HM. }
      exists t1. split; [done|]. split; [done|].
      eapply (retired_sub_wf _ t t1); [done|done| |apply take_1_NoDup].
      intros s Hs. by apply take_1_sub.
    - exists t. rewrite app_nil_r. split; [done|].
      split; [apply retired_refl|done]. }
  exists t1. split; [done|]. split; [done|]. split; [done|].
  assert (r = (st ← Some (t1, tr1);
               match latency_tracker_get_event st.1 with
               | (None, t1') =>
                   Some (LATENCY_TRACKER_FULL,
                         mk_world (<[a := t1']> (trackers w)) st.2)
               | (Some s, t1') =>
                   h ← hash_fct t1';
                   e ← events t1' !! s;
                   let e' :=
                     mk_event (h key_arg (u32 key_len) 0%Z)
                       (memcpy (key e) key_arg (Z.to_nat key_len))
                       (trace_clock_monotonic_wrapper env) (end_ts e)
                       thresh_arg timeout_arg cb_arg priv_arg (cb_flag e)
                       (cb_out_id e) in
                   let t2 := store t1' s e' in
                   let t3 :=
                     if (timeout_arg >? 0)%Z then
                       set_timers
                         <[s := u64 (jiffies env
                                     + wrapper_nsecs_to_jiffies timeout_arg)]>
                         t2
                     else t2 in
                   t4 ← wrapper_ht_add t3 s;
                   Some (LATENCY_TRACKER_OK,
                         mk_world (<[a := t4]> (trackers w)) st.2)
               end)) as ->.
  { subst r. unfold latency_tracker_event_in.
    assert ((key_len >? LATENCY_TRACKER_MAX_KEY_SIZE)%Z = false) as ->
      by lia.
    rewrite Hlook. simpl. by rewrite Hst. }
  rewrite bind_Some_l. unfold latency_tracker_get_event. simpl.
  destruct (last (events_free_list t1)) as [s|] eqn:Hlast; [|done].
  apply last_Some in Hlast as [l' Hfree].
  simpl. rewrite (retired_hash _ _ _ Hr), Hh. simpl.
  destruct (wf_alloc _ Hwf1 s) as [e He].
  { rewrite Hfree, !elem_of_app, list_elem_of_singleton. tauto. }
  rewrite He. simpl.
  set (e' := mk_event (h key_arg (u32 key_len) 0%Z)
               (memcpy (key e) key_arg (Z.to_nat key_len))
               (trace_clock_monotonic_wrapper env) (end_ts e)
               thresh_arg timeout_arg cb_arg priv_arg (cb_flag e)
               (cb_out_id e)).
  set (t2 := store (set_free (@removelast nat) t1) s e').
  set (t3 := if (timeout_arg >? 0)%Z then _ else t2).
  assert (ht t3 = ht t1 ∧ events_free_list t3 = l' ∧
          events t3 = <[s := e']> (events t1) ∧
          hash_fct t3 = hash_fct t1 ∧ match_fct t3 = match_fct t1 ∧
          gc_period t3 = gc_period t1 ∧ gc_thresh t3 = gc_thresh t1 ∧
          gc_timer t3 = gc_timer t1 ∧ tracker_priv t3 = tracker_priv t1 ∧
          timers t3 =
            (if (timeout_arg >? 0)%Z
             then <[s := u64 (jiffies env
                              + wrapper_nsecs_to_jiffies timeout_arg)]>
                    (timers t1)
             else timers t1))
    as (Hht3 & Hfree3 & Hev3 & Hh3 & Hm3 & Hgp3 & Hgt3 & Hgm3 & Hpr3 & Htm3).
  { subst t3 t2. destruct (timeout_arg >? 0)%Z; simpl;
      by rewrite Hfree, removelast_last. }
  unfold wrapper_ht_add. rewrite Hev3, lookup_insert_eq. simpl.
  eexists _, e. split; [done|]. simpl.
  rewrite Hev3, Hht3, Hfree3, Hh3, Hm3, Hgp3, Hgt3, Hgm3, Hpr3, Htm3, Hfree,
    removelast_last.
  rewrite (retired_hash _ _ _ Hr), (retired_match _ _ _ Hr),
    (retired_gc_period _ _ _ Hr), (retired_gc_thresh _ _ _ Hr),
    (retired_gc_timer _ _ _ Hr), (retired_priv _ _ _ Hr).
  do 11 (split; [done|]).
  intros Hrange.
  destruct (insert_wf t1 t3 l' s (h key_arg (u32 key_len) 0%Z) e'
              Hrange Hwf1 Hfree Hht3 Hfree3 Hev3) as (Hw4 & Hl4 & Hf4).
  split; [done|]. split; [done|].
  simpl in Hf4. by rewrite Hfree3, Hfree in Hf4.
Qed.

End invariant_proofs.

(** ** Opening, closing, timers and the collector *)

Section invariant_theorems.
Context {PF : platform}.
Implicit Types (t : latency_tracker) (s : nat) (l : list nat) (w : world).

Lemma opened_tracker_ok C t1 t4 l' s e' b tmr :
  hash_min_in_range → tracker_ok C t1 →
  events_free_list t1 = l' ++ [s] →
  events t4 = <[s := e']> (events t1) →
  ht t4 = alter (cons s) (hash_min b) (ht t1) →
  events_free_list t4 = l' →
  timers t4 = (if (timeout e' >? 0)%Z then <[s := tmr]> (timers t1)
               else timers t1) →
  hash_fct t4 = hash_fct t1 → match_fct t4 = match_fct t1 →
  wf t4 →
  tracker_ok C t4.
Proof.
  intros Hrange [Hwf Hus Hsz Hz Htm Hown] Hfree Hev Hht Hfree4 Htm4 Hh Hm Hwf4.
  assert (ht_entries t4 ≡ₚ s :: ht_entries t1) as Hperm.
  { unfold ht_entries. rewrite Hht. apply join_alter_cons.
    rewrite (wf_size _ Hwf). apply Hrange. }
  assert ((s ∉ ht_entries t1) ∧ (s ∉ l')) as [Hs1 Hs2].
  { pose proof (wf_nodup _ Hwf) as Hnd. rewrite Hfree in Hnd.
    apply NoDup_app in Hnd as (_ & Hdisj & Hnd).
    apply NoDup_app in Hnd as (_ & Hdisj' & _). split.
    - intros Hin. apply (Hdisj s Hin). rewrite elem_of_app.
      right. by apply list_elem_of_singleton.
    - intros Hin. apply (Hdisj' s Hin). by apply list_elem_of_singleton. }
  constructor.
  - done.
  - unfold usable. by rewrite Hh, Hm.
  - rewrite Hperm, Hfree4. rewrite Hfree, length_app in Hsz.
    simpl in *. lia.
  - apply pool_zeroed_alt. intros p Hp. rewrite Hfree4 in Hp.
    rewrite Hev, lookup_insert_ne by (by intros ->).
    apply (proj1 (pool_zeroed_alt t1) Hz).
    rewrite Hfree, elem_of_app. by left.
  - apply timers_ok_alt. intros x Hx. rewrite Hperm, Hev.
    destruct (decide (x = s)) as [->|Hne].
    + split; [by left|]. rewrite lookup_insert_eq. exists e'.
      split; [done|]. rewrite Htm4 in Hx.
      destruct (timeout e' >? 0)%Z eqn:Hto; [lia|].
      apply (proj1 (timers_ok_alt t1) Htm) in Hx as [Hin _]. done.
    + assert (is_Some (timers t1 !! x)) as Hx1.
      { rewrite Htm4 in Hx. destruct (timeout e' >? 0)%Z; [|done].
        by rewrite lookup_insert_ne in Hx. }
      apply (proj1 (timers_ok_alt t1) Htm) in Hx1 as (Hin & ex & Hex & Hpos).
      split; [by right|]. rewrite lookup_insert_ne by done. by exists ex.
  - apply records_owned_alt. intros x Hx. rewrite Hperm, Hfree4.
    rewrite elem_of_app, elem_of_cons.
    destruct (decide (x = s)) as [->|Hne]; [tauto|].
    rewrite Hev, lookup_insert_ne in Hx by done.
    apply (proj1 (records_owned_alt t1) Hown) in Hx.
    rewrite Hfree, !elem_of_app, list_elem_of_singleton in Hx. tauto.
Qed.

Lemma event_in_keeps_invariant_cases C w a t key_arg key_len thresh_arg cb_arg
    timeout_arg unique priv_arg env :
  hash_min_in_range →
  trackers w !! a = Some t → tracker_ok C t →
  (open_deadlocks t key_arg key_len unique →
   latency_tracker_event_in w (Some a) key_arg key_len thresh_arg cb_arg
     timeout_arg unique priv_arg env = None) ∧
  (¬ open_deadlocks t key_arg key_len unique →
   ∃ r t' calls,
     latency_tracker_event_in w (Some a) key_arg key_len thresh_arg cb_arg
       timeout_arg unique priv_arg env
     = Some (r, mk_world (<[a := t']> (trackers w)) (trace w ++ calls)) ∧
     tracker_ok C t' ∧
     (r = LATENCY_TRACKER_ERR ↔ (key_len > LATENCY_TRACKER_MAX_KEY_SIZE)%Z) ∧
     (r = LATENCY_TRACKER_ERR → t' = t ∧ calls = []) ∧
     (unique = 0%Z → calls = []) ∧
     gc_period t' = gc_period t ∧ gc_thresh t' = gc_thresh t ∧
     gc_timer t' = gc_timer t ∧ tracker_priv t' = tracker_priv t).
Proof.
  intros Hrange Hlook Hok. split; [by apply event_in_spins|]. intros Hnd.
  destruct (decide (key_len > LATENCY_TRACKER_MAX_KEY_SIZE)%Z) as [Hgt|Hle].
  { exists LATENCY_TRACKER_ERR, t, [].
    rewrite app_nil_r, (world_insert_id w a t Hlook).
    split.
    { unfold latency_tracker_event_in.
      by assert ((key_len >? LATENCY_TRACKER_MAX_KEY_SIZE)%Z = true) as ->
        by lia. }
    split; [exact Hok|]. split; [by split|]. do 2 (split; [done|]).
    by repeat split. }
  destruct (ok_usable _ _ Hok) as [[h Hh] [m Hm]].
  assert (key_len ≤ LATENCY_TRACKER_MAX_KEY_SIZE)%Z as Hlen by lia.
  destruct (event_in_cases w a t key_arg key_len thresh_arg cb_arg timeout_arg
              unique priv_arg env h m Hlook (ok_wf _ _ Hok) Hh Hm Hlen
              (open_returns_lock t key_arg key_len unique Hlen Hnd))
    as (t1 & Hphase & Hr & Hwf1 & Hres).
  set (M := if bool_decide (unique ≠ 0%Z) then _ else []) in *.
  assert (timers_ok t1) as Htm1.
  { case_bool_decide.
    - by eapply wrapper_ht_unique_check_timers_ok, ok_timers.
    - simplify_eq. by eapply ok_timers. }
  assert (NoDup M ∧ ∀ s, s ∈ M → s ∈ ht_entries t) as [HndM HsubM].
  { subst M. case_bool_decide.
    - split; [apply take_1_NoDup|].
      intros s Hs%take_1_sub. by eapply matching_entries.
    - split; [apply NoDup_nil_2|]. by intros s ?%elem_of_nil. }
  pose proof (retired_tracker_ok C M t t1 Hok Hr HndM HsubM Htm1) as Hok1.
  assert (unique = 0%Z → M ≫= unique_call t = []) as Hquiet.
  { intros ->. subst M. by rewrite bool_decide_false by (intros ?; done). }
  destruct (last (events_free_list t1)) as [s|] eqn:Hlast.
  - destruct Hres as (t4 & e & Hres & He & Hev4 & Hht4 & Hfree4 & Htm4 & Hh4
                      & Hm4 & Hgp & Hgt' & Hgm & Hpr & Hinv).
    destruct (Hinv Hrange) as (Hwf4 & _ & _).
    apply last_Some in Hlast as [l' Hfree].
    rewrite Hfree, removelast_last in Hfree4.
    exists LATENCY_TRACKER_OK, t4, (M ≫= unique_call t).
    split; [done|]. split.
    { eapply (opened_tracker_ok C t1 t4 l' s _ _ _ Hrange Hok1 Hfree Hev4
                Hht4 Hfree4); [exact Htm4| | |done].
      - by rewrite Hh4, (retired_hash _ _ _ Hr).
      - by rewrite Hm4, (retired_match _ _ _ Hr). }
    split; [split; [done|lia]|]. split; [done|]. by repeat split.
  - exists LATENCY_TRACKER_FULL, t1, (M ≫= unique_call t).
    split; [done|]. split; [done|].
    split; [split; [done|lia]|]. split; [done|]. split; [done|].
    by rewrite (retired_gc_period _ _ _ Hr), (retired_gc_thresh _ _ _ Hr),
      (retired_gc_timer _ _ _ Hr), (retired_priv _ _ _ Hr).
Qed.

Lemma event_out_keeps_invariant_cases C w a t key_arg key_len id env :
  trackers w !! a = Some t → tracker_ok C t →
  ∃ r t' calls,
    latency_tracker_event_out w (Some a) key_arg key_len id env
    = Some (r, mk_world (<[a := t']> (trackers w)) (trace w ++ calls)) ∧
    tracker_ok C t' ∧ (r = 0%Z ∨ r = (-1)%Z) ∧
    (r = (-1)%Z → t' = t ∧ calls = []) ∧
    gc_period t' = gc_period t ∧ gc_thresh t' = gc_thresh t ∧
    gc_timer t' = gc_timer t ∧ tracker_priv t' = tracker_priv t.
Proof.
  intros Hlook Hok.
  destruct (ok_usable _ _ Hok) as [[h Hh] [m Hm]].
  destruct (wrapper_ht_check_event_spec t key_arg key_len id
              (trace_clock_monotonic_wrapper env) (trace w) h m
              (ok_wf _ _ Hok) Hh Hm) as (t' & Hchk & Hr).
  set (M := matching t (h key_arg key_len 0%Z) key_arg key_len) in *.
  assert (tracker_ok C t') as Hok'.
  { apply (retired_tracker_ok C M t t' Hok Hr).
    - apply matching_NoDup, Hok.
    - intros s. apply matching_entries.
    - by eapply wrapper_ht_check_event_timers_ok, ok_timers. }
  exists (if bool_decide (M = []) then (-1)%Z else 0%Z), t',
    (M ≫= check_call t id (trace_clock_monotonic_wrapper env)).
  split.
  { unfold latency_tracker_event_out. rewrite Hlook. simpl. rewrite Hchk.
    simpl. by repeat case_bool_decide. }
  split; [done|]. split; [case_bool_decide; tauto|]. split.
  { case_bool_decide as HM; [|done]. intros _. rewrite HM in Hr |- *.
    split; [by apply retired_nil_eq|done]. }
  by rewrite (retired_gc_period _ _ _ Hr), (retired_gc_thresh _ _ _ Hr),
    (retired_gc_timer _ _ _ Hr), (retired_priv _ _ _ Hr).
Qed.

Lemma tracker_ok_ext C t t' :
  ht t' = ht t → events_free_list t' = events_free_list t →
  events t' = events t → timers t' = timers t →
  hash_fct t' = hash_fct t → match_fct t' = match_fct t →
  tracker_ok C t → tracker_ok C t'.
Proof.
  intros Hht Hfree Hev Htm Hh Hm [[Hnd Hal Hsz] Hus Hlen Hz Htmo Hown].
  constructor.
  - constructor; unfold ht_entries; rewrite ?Hht, ?Hfree, ?Hev; done.
  - unfold usable. by rewrite Hh, Hm.
  - unfold ht_entries. by rewrite Hht, Hfree.
  - unfold pool_zeroed. by rewrite Hfree, Hev.
  - unfold timers_ok, ht_entries. by rewrite Htm, Hht, Hev.
  - unfold records_owned, ht_entries. by rewrite Hev, Hht, Hfree.
Qed.

Lemma enable_gc_timer t env :
  gc_timer (latency_tracker_enable_gc t env)
  = if bool_decide (gc_period t = 0%Z ∨ gc_thresh t = 0%Z) then None
    else Some (u64 (jiffies env + wrapper_nsecs_to_jiffies (gc_period t))).
Proof. unfold latency_tracker_enable_gc. simpl. by case_bool_decide. Qed.

Lemma enable_gc_tracker_ok C t env :
  tracker_ok C t → tracker_ok C (latency_tracker_enable_gc t env).
Proof.
  destruct (enable_gc_fields t env)
    as (_ & _ & Hh & Hm & _ & Htm & Hht & Hfree & Hev).
  by apply tracker_ok_ext.
Qed.

Lemma gc_call_in t now s e f :
  events t !! s = Some e → cb e = Some f →
  (u64 (now - start_ts e) > gc_thresh t)%Z →
  gc_call t now s
  = [Call f s
       (mk_event (hkey e) (key e) (start_ts e) now (thresh e) (timeout e)
          (cb e) (priv e) LATENCY_TRACKER_CB_GC (cb_out_id e))].
Proof.
  intros He Hcb Hage. unfold gc_call. rewrite He, Hcb.
  by assert ((u64 (now - start_ts e) >? gc_thresh t)%Z = true) as -> by lia.
Qed.

Lemma gc_call_young t now s e :
  events t !! s = Some e →
  (u64 (now - start_ts e) ≤ gc_thresh t)%Z → gc_call t now s = [].
Proof.
  intros He Hage. unfold gc_call. rewrite He.
  by assert ((u64 (now - start_ts e) >? gc_thresh t)%Z = false) as -> by lia.
Qed.

Lemma wrapper_ht_gc_returns t now tr :
  wf t → ¬ sweep_deadlocks t →
  ∃ t', wrapper_ht_gc LockHeld t now tr
          = Some (t', tr ++ (ht_entries t ≫= gc_call t now)) ∧
        retired (ht_entries t) t t'.
Proof.
  intros Hwf Hnd. destruct (sweep_returns_lock t Hnd) as [Hlk|Hent].
  - by apply wrapper_ht_gc_spec.
  - exists t. rewrite (wrapper_ht_gc_empty _ _ _ _ Hent), Hent.
    rewrite app_nil_r. split; [done|apply retired_refl].
Qed.

Lemma gc_cb_sweeps_and_rearms_cases C w a t env :
  trackers w !! a = Some t → tracker_ok C t →
  let now := trace_clock_monotonic_wrapper env in
  let calls := ht_entries t ≫= gc_call t now in
  (sweep_deadlocks t → latency_tracker_gc_cb w a env = None) ∧
  (¬ sweep_deadlocks t →
   ∃ t',
     latency_tracker_gc_cb w a env
     = Some (mk_world (<[a := t']> (trackers w)) (trace w ++ calls)) ∧
     tracker_ok C t' ∧ ht_entries t' = [] ∧
     length (events_free_list t') = C ∧ timers t' = ∅ ∧
     gc_timer t'
     = (if bool_decide (gc_period t = 0%Z ∨ gc_thresh t = 0%Z) then None
        else Some (u64 (jiffies env
                        + wrapper_nsecs_to_jiffies (gc_period t)))) ∧
     gc_period t' = gc_period t ∧ gc_thresh t' = gc_thresh t ∧
     tracker_priv t' = tracker_priv t ∧
     (∀ s e, s ∈ ht_entries t → events t !! s = Some e →
        ((u64 (now - start_ts e) > gc_thresh t)%Z → ∀ f, cb e = Some f →
           Call f s
             (mk_event (hkey e) (key e) (start_ts e) now (thresh e)
                (timeout e) (cb e) (priv e) LATENCY_TRACKER_CB_GC
                (cb_out_id e)) ∈ calls) ∧
        ((u64 (now - start_ts e) ≤ gc_thresh t)%Z →
           (∀ c, c ∈ calls → call_ptr c ≠ s)))).
Proof.
  intros Hlook Hok now calls. split; [by apply gc_cb_spins|]. intros Hnd.
  destruct (wrapper_ht_gc_returns t now (trace w) (ok_wf _ _ Hok) Hnd)
    as (t1 & Hgc & Hr).
  assert (tracker_ok C t1) as Hok1.
  { apply (retired_tracker_ok C _ t t1 Hok Hr).
    - apply wf_entries, Hok.
    - done.
    - by eapply wrapper_ht_gc_timers_ok, ok_timers. }
  assert (ht_entries t1 = []) as Hent1 by (by apply (entries_after_all t)).
  destruct (enable_gc_fields t1 env)
    as (Hgp & Hgt & _ & _ & Hpr & Htm & Hht & Hfree & _).
  exists (latency_tracker_enable_gc t1 env).
  split.
  { unfold latency_tracker_gc_cb. rewrite Hlook. simpl. fold now.
    by rewrite Hgc. }
  split; [by apply enable_gc_tracker_ok|].
  split; [unfold ht_entries; by rewrite Hht|].
  split.
  { rewrite Hfree. pose proof (ok_size _ _ Hok1) as Hsz.
    rewrite Hent1 in Hsz. done. }
  split.
  { rewrite Htm. apply map_eq. intros s. rewrite lookup_empty.
    destruct (timers t1 !! s) as [x|] eqn:Hx; [|done].
    destruct (proj1 (timers_ok_alt t1) (ok_timers _ _ Hok1) s) as [Hin _];
      [by eexists|].
    rewrite Hent1 in Hin. by apply elem_of_nil in Hin. }
  split.
  { rewrite enable_gc_timer.
    by rewrite (retired_gc_period _ _ _ Hr), (retired_gc_thresh _ _ _ Hr). }
  split; [by rewrite Hgp, (retired_gc_period _ _ _ Hr)|].
  split; [by rewrite Hgt, (retired_gc_thresh _ _ _ Hr)|].
  split; [by rewrite Hpr, (retired_priv _ _ _ Hr)|].
  intros s e Hs He. split.
  - intros Hage f Hcb. apply list_elem_of_bind. exists s. split; [|done].
    rewrite (gc_call_in t now s e f He Hcb Hage).
    by apply list_elem_of_singleton.
  - intros Hage c [s' [Hc Hs']]%list_elem_of_bind Hptr.
    apply gc_call_ptr in Hc as Hc'. rewrite Hptr in Hc'. subst s'.
    rewrite (gc_call_young t now s e He Hage) in Hc.
    by apply elem_of_nil in Hc.
Qed.

Lemma timeout_cb_on_pending_timer_cases C w a t ptr x :
  trackers w !! a = Some t → tracker_ok C t → timers t !! ptr = Some x →
  ∃ e, events t !! ptr = Some e ∧ ptr ∈ ht_entries t ∧
       (0 < timeout e)%Z ∧
       match cb e with
       | Some f =>
           ∃ t', latency_tracker_timeout_cb w a ptr
                 = Some (mk_world (<[a := t']> (trackers w))
                           (trace w
                            ++ [Call f ptr
                                  (set_timeout 0
                                     (set_cb_flag LATENCY_TRACKER_CB_TIMEOUT
                                        e))])) ∧
                 tracker_ok C t' ∧ timers t' !! ptr = None ∧
                 ptr ∈ ht_entries t' ∧
                 (ptr ∉ events_free_list t') ∧
                 gc_period t' = gc_period t ∧ gc_thresh t' = gc_thresh t ∧
                 gc_timer t' = gc_timer t ∧ tracker_priv t' = tracker_priv t
       | None => latency_tracker_timeout_cb w a ptr = None
       end.
Proof.
  intros Hlook Hok Hx.
  destruct (proj1 (timers_ok_alt t) (ok_timers _ _ Hok) ptr)
    as (Hin & e & He & Hpos); [by eexists|].
  exists e. do 3 (split; [done|]).
  assert (ptr ∉ events_free_list t) as Hnfree.
  { pose proof (wf_nodup _ (ok_wf _ _ Hok)) as Hnd.
    apply NoDup_app in Hnd as (_ & Hdisj & _). by apply Hdisj. }
  unfold latency_tracker_timeout_cb. rewrite Hlook. simpl. rewrite He.
  simpl. rewrite lookup_insert_eq. simpl.
  destruct (cb e) as [f|] eqn:Hcb; simpl; [|done].
  eexists. split; [done|].
  split; [|split; [simpl; by rewrite lookup_delete_eq|by repeat split]].
  destruct Hok as [[Hnd Hal Hsz] Hus Hlen Hz Htm Hown].
  constructor.
  - constructor; [done| |done]. intros s Hs. simpl.
    destruct (decide (s = ptr)) as [->|Hne].
    + rewrite lookup_insert_eq. by eexists.
    + rewrite lookup_insert_ne by done. by apply Hal.
  - done.
  - done.
  - apply pool_zeroed_alt. intros p Hp. simpl in *.
    rewrite lookup_insert_ne by (by intros ->).
    by apply (proj1 (pool_zeroed_alt t) Hz).
  - apply timers_ok_alt. intros s Hs. simpl in Hs.
    destruct (decide (s = ptr)) as [->|Hne].
    + rewrite lookup_delete_eq in Hs. by destruct Hs.
    + rewrite lookup_delete_ne in Hs by done.
      destruct (proj1 (timers_ok_alt t) Htm s Hs) as (Hin' & e' & He' & Hp').
      split; [done|]. simpl. rewrite lookup_insert_ne by done. by exists e'.
  - apply records_owned_alt. intros s Hs. simpl in *.
    destruct (decide (s = ptr)) as [->|Hne].
    + rewrite elem_of_app. by left.
    + rewrite lookup_insert_ne in Hs by done.
      by apply (proj1 (records_owned_alt t) Hown).
Qed.

Lemma set_gc_rearms_collector_cases w a t v env :
  trackers w !! a = Some t →
  (∃ t',
     latency_tracker_set_gc_period w a v env
     = Some (mk_world (<[a := t']> (trackers w)) (trace w)) ∧
     gc_period t' = v ∧ gc_thresh t' = gc_thresh t ∧
     gc_timer t'
     = (if bool_decide (v = 0%Z ∨ gc_thresh t = 0%Z) then None
        else Some (u64 (jiffies env + wrapper_nsecs_to_jiffies v))) ∧
     ht t' = ht t ∧ events_free_list t' = events_free_list t ∧
     events t' = events t ∧ timers t' = timers t ∧
     tracker_priv t' = tracker_priv t ∧
     ∀ C, tracker_ok C t → tracker_ok C t') ∧
  (∃ t',
     latency_tracker_set_gc_thresh w a v env
     = Some (mk_world (<[a := t']> (trackers w)) (trace w)) ∧
     gc_period t' = gc_period t ∧ gc_thresh t' = v ∧
     gc_timer t'
     = (if bool_decide (gc_period t = 0%Z ∨ v = 0%Z) then None
        else Some (u64 (jiffies env
                        + wrapper_nsecs_to_jiffies (gc_period t)))) ∧
     ht t' = ht t ∧ events_free_list t' = events_free_list t ∧
     events t' = events t ∧ timers t' = timers t ∧
     tracker_priv t' = tracker_priv t ∧
     ∀ C, tracker_ok C t → tracker_ok C t').
Proof.
  intros Hlook. split.
  - destruct (enable_gc_fields (set_gc_period v t) env)
      as (Hgp & Hgt & Hh & Hm & Hpr & Htm & Hht & Hfree & Hev).
    eexists. split.
    { unfold latency_tracker_set_gc_period. by rewrite Hlook. }
    split; [by rewrite Hgp|]. split; [by rewrite Hgt|].
    split; [by rewrite enable_gc_timer|].
    do 5 (split; [done|]).
    intros C Hok. by apply (tracker_ok_ext C t).
  - destruct (enable_gc_fields (set_gc_thresh v t) env)
      as (Hgp & Hgt & Hh & Hm & Hpr & Htm & Hht & Hfree & Hev).
    eexists. split.
    { unfold latency_tracker_set_gc_thresh. by rewrite Hlook. }
    split; [by rewrite Hgp|]. split; [by rewrite Hgt|].
    split; [by rewrite enable_gc_timer|].
    do 5 (split; [done|]).
    intros C Hok. by apply (tracker_ok_ext C t).
Qed.

(** ** The entry points keep the invariant *)

(** X3: latency_tracker_event_in on a tracker that satisfies the invariant.
    An open that is not refused for the length of its key and evicts a
    record takes tracker->lock while it holds it: where spin locks spin it
    does not return.  Every other open returns and keeps the invariant
    whatever it returns: it changes no tracker other than its own and none
    of the settings of its own; it returns LATENCY_TRACKER_ERR exactly when
    the key is too long, and then changes nothing; it calls no callback
    unless unique is set. *)
Theorem event_in_keeps_invariant C w a t key_arg key_len thresh_arg cb_arg
    timeout_arg unique priv_arg env :
  hash_min_in_range →
  trackers w !! a = Some t → tracker_ok C t →
  (open_deadlocks t key_arg key_len unique →
   latency_tracker_event_in w (Some a) key_arg key_len thresh_arg cb_arg
     timeout_arg unique priv_arg env = None) ∧
  (¬ open_deadlocks t key_arg key_len unique →
   ∃ r t' calls,
     latency_tracker_event_in w (Some a) key_arg key_len thresh_arg cb_arg
       timeout_arg unique priv_arg env
     = Some (r, mk_world (<[a := t']> (trackers w)) (trace w ++ calls)) ∧
     tracker_ok C t' ∧
     (r = LATENCY_TRACKER_ERR ↔ (key_len > LATENCY_TRACKER_MAX_KEY_SIZE)%Z) ∧
     (r = LATENCY_TRACKER_ERR → t' = t ∧ calls = []) ∧
     (unique = 0%Z → calls = []) ∧
     gc_period t' = gc_period t ∧ gc_thresh t' = gc_thresh t ∧
     gc_timer t' = gc_timer t ∧ tracker_priv t' = tracker_priv t).
Proof. apply event_in_keeps_invariant_cases. Qed.

(** X5: latency_tracker_event_out never faults on a tracker that satisfies the
    invariant, keeps the invariant, changes no other tracker and none of
    the settings, and returns 0 or -1. *)
Theorem event_out_keeps_invariant C w a t key_arg key_len id env :
  trackers w !! a = Some t → tracker_ok C t →
  ∃ r t' calls,
    latency_tracker_event_out w (Some a) key_arg key_len id env
    = Some (r, mk_world (<[a := t']> (trackers w)) (trace w ++ calls)) ∧
    tracker_ok C t' ∧ (r = 0%Z ∨ r = (-1)%Z) ∧
    (r = (-1)%Z → t' = t ∧ calls = []) ∧
    gc_period t' = gc_period t ∧ gc_thresh t' = gc_thresh t ∧
    gc_timer t' = gc_timer t ∧ tracker_priv t' = tracker_priv t.
Proof. apply event_out_keeps_invariant_cases. Qed.

(** X9: latency_tracker_gc_cb, on a tracker that satisfies the invariant.
    The sweep takes tracker->lock, which latency_tracker_gc_cb holds, for
    the first record it visits: where spin locks spin and the table holds a
    record, the call does not return.  Otherwise the sweep empties the
    table, so that all C records are on the free list and no event timer is
    left pending; it calls the callback of exactly those events whose age
    exceeds gc_thresh, in table order, on the record with end_ts = now and
    cb_flag = LATENCY_TRACKER_CB_GC and its other fields as they were; then
    the collector timer is armed again if gc_period and gc_thresh are both
    non-zero, and is left cancelled otherwise.  The invariant holds
    afterwards. *)
Theorem gc_cb_sweeps_and_rearms C w a t env :
  trackers w !! a = Some t → tracker_ok C t →
  let now := trace_clock_monotonic_wrapper env in
  let calls := ht_entries t ≫= gc_call t now in
  (sweep_deadlocks t → latency_tracker_gc_cb w a env = None) ∧
  (¬ sweep_deadlocks t →
   ∃ t',
     latency_tracker_gc_cb w a env
     = Some (mk_world (<[a := t']> (trackers w)) (trace w ++ calls)) ∧
     tracker_ok C t' ∧ ht_entries t' = [] ∧
     length (events_free_list t') = C ∧ timers t' = ∅ ∧
     gc_timer t'
     = (if bool_decide (gc_period t = 0%Z ∨ gc_thresh t = 0%Z) then None
        else Some (u64 (jiffies env
                        + wrapper_nsecs_to_jiffies (gc_period t)))) ∧
     gc_period t' = gc_period t ∧ gc_thresh t' = gc_thresh t ∧
     tracker_priv t' = tracker_priv t ∧
     (∀ s e, s ∈ ht_entries t → events t !! s = Some e →
        ((u64 (now - start_ts e) > gc_thresh t)%Z → ∀ f, cb e = Some f →
           Call f s
             (mk_event (hkey e) (key e) (start_ts e) now (thresh e)
                (timeout e) (cb e) (priv e) LATENCY_TRACKER_CB_GC
                (cb_out_id e)) ∈ calls) ∧
        ((u64 (now - start_ts e) ≤ gc_thresh t)%Z →
           (∀ c, c ∈ calls → call_ptr c ≠ s)))).
Proof. apply gc_cb_sweeps_and_rearms_cases. Qed.

(** X8: latency_tracker_timeout_cb, for a timer that is pending on a tracker
    that satisfies the invariant: the record is in the table and has a
    positive timeout; if it has a callback, the call goes through, the
    invariant is kept, the timer is no longer pending, the record stays in
    the table and the settings of the tracker are unchanged; if its
    callback is NULL, the function calls through the NULL pointer. *)
Theorem timeout_cb_on_pending_timer C w a t ptr x :
  trackers w !! a = Some t → tracker_ok C t → timers t !! ptr = Some x →
  ∃ e, events t !! ptr = Some e ∧ ptr ∈ ht_entries t ∧
       (0 < timeout e)%Z ∧
       match cb e with
       | Some f =>
           ∃ t', latency_tracker_timeout_cb w a ptr
                 = Some (mk_world (<[a := t']> (trackers w))
                           (trace w
                            ++ [Call f ptr
                                  (set_timeout 0
                                     (set_cb_flag LATENCY_TRACKER_CB_TIMEOUT
                                        e))])) ∧
                 tracker_ok C t' ∧ timers t' !! ptr = None ∧
                 ptr ∈ ht_entries t' ∧
                 (ptr ∉ events_free_list t') ∧
                 gc_period t' = gc_period t ∧ gc_thresh t' = gc_thresh t ∧
                 gc_timer t' = gc_timer t ∧ tracker_priv t' = tracker_priv t
       | None => latency_tracker_timeout_cb w a ptr = None
       end.
Proof. apply timeout_cb_on_pending_timer_cases. Qed.


End invariant_theorems.

(** ** Creating and destroying a tracker *)

Section create_destroy.
Context {PF : platform}.
Implicit Types (t : latency_tracker) (s : nat) (l : list nat) (w : world).

Lemma alloc_events_None n : ∀ i avail t,
  alloc_events n i avail t = None ↔ avail < n.
Proof.
  induction n as [|n IH]; intros i avail t; simpl.
  - split; [done|lia].
  - destruct avail as [|avail]; [split; [lia|done]|].
    rewrite IH. lia.
Qed.

Lemma create_cases w match_arg hash_arg max_events gp gt pr env avail
    module_ok :
  let cap := capacity max_events in
  let r := latency_tracker_create w match_arg hash_arg max_events gp gt pr
             env avail module_ok in
  (r.1 = None ↔ avail ≤ cap ∨ module_ok = false) ∧
  (r.1 = None → r.2 = w) ∧
  (∀ a, r.1 = Some a →
     trackers w !! a = None ∧ trace r.2 = trace w ∧
     latency_tracker_get_priv r.2 a = Some pr ∧
     ∃ t, trackers r.2 = <[a := t]> (trackers w) ∧
          wf t ∧ ht_entries t = [] ∧
          events_free_list t = reverse (seq 0 cap) ∧
          pool_zeroed t ∧ records_owned t ∧ timers t = ∅ ∧
          gc_period t = gp ∧ gc_thresh t = gt ∧ tracker_priv t = pr ∧
          gc_timer t
          = (if bool_decide (gp = 0%Z ∨ gt = 0%Z) then None
             else Some (u64 (jiffies env + wrapper_nsecs_to_jiffies gp))) ∧
          hash_fct t = match hash_arg with
                       | None => Some jhash
                       | Some _ => None
                       end ∧
          match_fct t = match match_arg with
                        | None => Some memcmp
                        | Some _ => None
                        end ∧
          (match_arg = None → hash_arg = None → tracker_ok cap t)).
Proof.
  intros cap r. subst r. unfold latency_tracker_create. fold (capacity max_events).
  fold cap.
  destruct avail as [|avail].
  { simpl. split; [split; [lia|done]|]. split; [done|]. by intros a [=]. }
  set (t0 := mk_tracker _ _ gp gt pr None [] [] ∅ ∅).
  destruct (alloc_events cap 0 avail _) as [t|] eqn:Halloc.
  2: { apply alloc_events_None in Halloc. simpl.
       split; [split; [lia|done]|]. split; [done|]. by intros a [=]. }
  assert (cap ≤ avail) as Hcap.
  { destruct (decide (cap ≤ avail)) as [?|Hn]; [done|].
    assert (avail < cap) as Hlt by lia.
    apply (alloc_events_None cap 0 avail
             (wrapper_ht_init (latency_tracker_enable_gc t0 env))) in Hlt.
    by rewrite Hlt in Halloc. }
  destruct module_ok; simpl.
  2: { split; [split; [by right|done]|]. split; [done|]. by intros a [=]. }
  split; [split; [done|intros [?|?]; [lia|done]]|].
  split; [done|]. intros a [= <-].
  apply alloc_events_spec in Halloc
    as (Hht & Hfree & Hev & Hout & Hh & Hm & Hp & Hth & Hgt & Hpr & Htm).
  destruct (enable_gc_fields t0 env)
    as (Hgp' & Hgt' & Hh' & Hm' & Hpr' & Htm' & _ & Hfree' & Hev').
  change (ht t = replicate HASH_SIZE []) in Hht.
  change (events_free_list (wrapper_ht_init (latency_tracker_enable_gc t0 env)))
    with (events_free_list (latency_tracker_enable_gc t0 env)) in Hfree.
  rewrite Hfree' in Hfree. change (events_free_list t0) with (@nil nat) in Hfree.
  rewrite app_nil_r in Hfree.
  change (events (wrapper_ht_init (latency_tracker_enable_gc t0 env)))
    with (events (latency_tracker_enable_gc t0 env)) in Hout.
  change (hash_fct (wrapper_ht_init (latency_tracker_enable_gc t0 env)))
    with (hash_fct (latency_tracker_enable_gc t0 env)) in Hh.
  change (match_fct (wrapper_ht_init (latency_tracker_enable_gc t0 env)))
    with (match_fct (latency_tracker_enable_gc t0 env)) in Hm.
  change (gc_period (wrapper_ht_init (latency_tracker_enable_gc t0 env)))
    with (gc_period (latency_tracker_enable_gc t0 env)) in Hp.
  change (gc_thresh (wrapper_ht_init (latency_tracker_enable_gc t0 env)))
    with (gc_thresh (latency_tracker_enable_gc t0 env)) in Hth.
  change (gc_timer (wrapper_ht_init (latency_tracker_enable_gc t0 env)))
    with (gc_timer (latency_tracker_enable_gc t0 env)) in Hgt.
  change (tracker_priv (wrapper_ht_init (latency_tracker_enable_gc t0 env)))
    with (tracker_priv (latency_tracker_enable_gc t0 env)) in Hpr.
  change (timers (wrapper_ht_init (latency_tracker_enable_gc t0 env)))
    with (timers (latency_tracker_enable_gc t0 env)) in Htm.
  rewrite Hev' in Hout.
  assert (ht_entries t = []) as Hent.
  { unfold ht_entries. rewrite Hht. apply join_replicate_nil. }
  assert (wf t) as Hwf.
  { constructor.
    - rewrite Hent, Hfree. simpl. rewrite reverse_Permutation. apply NoDup_seq.
    - intros s. rewrite Hent, Hfree. simpl. rewrite elem_of_reverse.
      intros Hs. rewrite Hev by done. by eexists.
    - by rewrite Hht, length_replicate. }
  assert (pool_zeroed t) as Hz.
  { apply pool_zeroed_alt. intros p. rewrite Hfree, elem_of_reverse.
    apply Hev. }
  assert (records_owned t) as Hown.
  { apply records_owned_alt. intros s Hs. rewrite Hent, Hfree. simpl.
    rewrite elem_of_reverse. destruct (decide (s ∈ seq 0 cap)); [done|].
    rewrite Hout in Hs by done. simpl in Hs. rewrite lookup_empty in Hs.
    by destruct Hs. }
  assert (timers t = ∅) as Htm0 by (by rewrite Htm, Htm').
  split; [apply not_elem_of_dom, is_fresh|]. split; [done|].
  split.
  { unfold latency_tracker_get_priv. simpl. rewrite lookup_insert_eq. simpl.
    by rewrite Hpr, Hpr'. }
  exists t. do 3 (split; [done|]). split; [done|].
  do 3 (split; [done|]).
  split; [by rewrite Hp, Hgp'|]. split; [by rewrite Hth, Hgt'|].
  split; [by rewrite Hpr, Hpr'|].
  split; [by rewrite Hgt, enable_gc_timer|].
  split; [by rewrite Hh, Hh'|]. split; [by rewrite Hm, Hm'|].
  intros -> ->. constructor; try done.
  - unfold usable. rewrite Hh, Hm, Hh', Hm'. by split; eexists.
  - rewrite Hent, Hfree, length_reverse, length_seq. done.
  - apply timers_ok_alt. intros s Hs. rewrite Htm0, lookup_empty in Hs.
    by destruct Hs.
Qed.

(** X1: latency_tracker_create returns NULL exactly when not enough calls of
    kzalloc succeed (one for the tracker and one for each record) or
    try_module_get fails, and then leaves the world as it was.  Otherwise the
    new tracker is at an address that was free; every other tracker and the
    trace are untouched; the table is empty; the free list holds the
    records 0 .. capacity-1, the last allocated first, all cleared, none with
    a timer; the settings are those given, and the collector timer is
    pending exactly when gc_period and gc_thresh are both non-zero;
    latency_tracker_get_priv returns the private pointer given.  jhash
    and memcmp are installed for a NULL function argument, and a function
    pointer of the tracker stays NULL when a function is given.  When both
    function arguments are NULL the tracker satisfies the invariant. *)
Theorem create_outcome w match_arg hash_arg max_events gp gt pr env avail
    module_ok :
  let cap := capacity max_events in
  let r := latency_tracker_create w match_arg hash_arg max_events gp gt pr
             env avail module_ok in
  (r.1 = None ↔ avail ≤ cap ∨ module_ok = false) ∧
  (r.1 = None → r.2 = w) ∧
  (∀ a, r.1 = Some a →
     trackers w !! a = None ∧ trace r.2 = trace w ∧
     latency_tracker_get_priv r.2 a = Some pr ∧
     ∃ t, trackers r.2 = <[a := t]> (trackers w) ∧
          wf t ∧ ht_entries t = [] ∧
          events_free_list t = reverse (seq 0 cap) ∧
          pool_zeroed t ∧ records_owned t ∧ timers t = ∅ ∧
          gc_period t = gp ∧ gc_thresh t = gt ∧ tracker_priv t = pr ∧
          gc_timer t
          = (if bool_decide (gp = 0%Z ∨ gt = 0%Z) then None
             else Some (u64 (jiffies env + wrapper_nsecs_to_jiffies gp))) ∧
          hash_fct t = match hash_arg with
                       | None => Some jhash
                       | Some _ => None
                       end ∧
          match_fct t = match match_arg with
                        | None => Some memcmp
                        | Some _ => None
                        end ∧
          (match_arg = None → hash_arg = None → tracker_ok cap t)).
Proof. apply create_cases. Qed.

Lemma lookup_foldr_delete (m : gmap nat latency_tracker_event) l s :
  foldr delete m l !! s = if decide (s ∈ l) then None else m !! s.
Proof.
  induction l as [|x l IH].
  - destruct (decide (s ∈ [])) as [Hin|_]; [by apply elem_of_nil in Hin|done].
  - change (foldr delete m (x :: l)) with (delete x (foldr delete m l)).
    destruct (decide (s = x)) as [->|Hne].
    + rewrite lookup_delete_eq.
      destruct (decide (x ∈ x :: l)) as [_|Hout]; [done|].
      destruct Hout. by left.
    + rewrite lookup_delete_ne by done. rewrite IH.
      destruct (decide (s ∈ l)) as [Hin|Hout];
        destruct (decide (s ∈ x :: l)) as [Hin'|Hout']; try done.
      * destruct Hout'. by right.
      * apply elem_of_cons in Hin' as [?|?]; done.
Qed.

(** X11: latency_tracker_destroy releases everything: on a tracker that
    satisfies the invariant, after wrapper_ht_clear all C records are on the
    free list and no timer is pending, neither of an event nor of the
    collector; latency_tracker_destroy_free_list then frees every record, so
    that no storage of the tracker is left; the tracker itself is removed
    from memory, the other trackers and the trace are untouched, and the
    number reported is the number of events that were open. *)
Theorem destroy_releases_everything C w a t :
  trackers w !! a = Some t → tracker_ok C t →
  ∃ t1,
    wrapper_ht_clear (set_gc_timer None t)
      = Some (Z.of_nat (length (ht_entries t)), t1) ∧
    length (events_free_list t1) = C ∧ ht_entries t1 = [] ∧
    timers t1 = ∅ ∧ gc_timer t1 = None ∧
    events (latency_tracker_destroy_free_list t1) = ∅ ∧
    events_free_list (latency_tracker_destroy_free_list t1) = [] ∧
    latency_tracker_destroy w a
      = Some (Z.of_nat (length (ht_entries t)),
              mk_world (delete a (trackers w)) (trace w)).
Proof.
  intros Hlook Hok.
  assert (tracker_ok C (set_gc_timer None t)) as Hok0
    by (by apply (tracker_ok_ext C t)).
  destruct (wrapper_ht_clear_spec _ (ok_wf _ _ Hok0)) as (t1 & Hclear & Hr).
  change (ht_entries (set_gc_timer None t)) with (ht_entries t) in Hclear, Hr.
  assert (tracker_ok C t1) as Hok1.
  { apply (retired_tracker_ok C _ _ t1 Hok0 Hr).
    - apply (wf_entries t), Hok.
    - done.
    - by eapply wrapper_ht_clear_timers_ok, ok_timers. }
  assert (ht_entries t1 = []) as Hent1.
  { by apply (entries_after_all (set_gc_timer None t)). }
  exists t1. split; [done|].
  split. { pose proof (ok_size _ _ Hok1) as Hsz. by rewrite Hent1 in Hsz. }
  split; [done|]. split.
  { apply map_eq. intros s. rewrite lookup_empty.
    destruct (timers t1 !! s) as [x|] eqn:Hx; [|done].
    destruct (proj1 (timers_ok_alt t1) (ok_timers _ _ Hok1) s) as [Hin _];
      [by eexists|].
    rewrite Hent1 in Hin. by apply elem_of_nil in Hin. }
  split; [by rewrite (retired_gc_timer _ _ _ Hr)|].
  split.
  { apply map_eq. intros s. simpl. rewrite lookup_foldr_delete, lookup_empty.
    case_decide as Hin; [done|].
    destruct (events t1 !! s) as [e|] eqn:He; [|done].
    exfalso. apply Hin.
    pose proof (proj1 (records_owned_alt t1) (ok_owned _ _ Hok1) s) as Hown.
    rewrite Hent1 in Hown. apply Hown. by eexists. }
  split; [done|].
  unfold latency_tracker_destroy. rewrite Hlook. simpl.
  rewrite Hclear. simpl. by rewrite delete_insert_eq.
Qed.

End create_destroy.

(** ** The error path of latency_tracker_create *)

Section create_error_proofs.
Context {PF : platform}.
Implicit Types (t : latency_tracker) (s : nat) (l : list nat) (w : world).

Lemma alloc_events_or_fail_inr n : ∀ i avail t,
  alloc_events n i avail t
  = match alloc_events_or_fail n i avail t with
    | inl _ => None
    | inr t' => Some t'
    end.
Proof.
  induction n as [|n IH]; intros i avail t; simpl; [done|].
  destruct avail as [|avail]; [done|]. apply IH.
Qed.

(* what the loop keeps, however it ends: the records of the tracker are
   those of the free list, and the collector timer is as it was *)
Lemma alloc_events_or_fail_spec n : ∀ i avail t,
  let t' := match alloc_events_or_fail n i avail t with
            | inl t' => t'
            | inr t' => t'
            end in
  gc_timer t' = gc_timer t ∧ timers t' = timers t ∧
  (map_Forall (λ s _, s ∈ events_free_list t) (events t) →
   map_Forall (λ s _, s ∈ events_free_list t') (events t')).
Proof.
  induction n as [|n IH]; intros i avail t; simpl; [done|].
  destruct avail as [|avail]; [done|].
  destruct (IH (S i) avail
              (set_free (cons i) (set_events <[i := zero_event]> t)))
    as (Hgt & Htm & Hown).
  split; [done|]. split; [done|]. intros H. apply Hown. simpl.
  intros s e Hs. destruct (decide (s = i)) as [->|Hne]; [by left|].
  rewrite lookup_insert_ne in Hs by done. right. by apply (H s e).
Qed.

Lemma destroy_free_list_empties t :
  map_Forall (λ s _, s ∈ events_free_list t) (events t) →
  events (latency_tracker_destroy_free_list t) = ∅.
Proof.
  intros Hown. apply map_eq. intros s. simpl.
  rewrite lookup_foldr_delete, lookup_empty.
  case_decide as Hin; [done|].
  destruct (events t !! s) as [e|] eqn:He; [|done].
  destruct Hin. by apply (Hown s e).
Qed.

(** X2: The error path of latency_tracker_create.  error_free_events is
    reached exactly when the tracker was allocated and the function returns
    NULL.  There every record allocated so far is freed, so that no record
    is lost; but nothing cancels the collector timer that
    latency_tracker_enable_gc armed: when gc_period and gc_thresh are both
    non-zero, the tracker is freed while its timer is pending. *)
Theorem create_error_path_keeps_timer_armed w match_arg hash_arg max_events
    gp gt pr env avail module_ok :
  let r := latency_tracker_create w match_arg hash_arg max_events gp gt pr
             env avail module_ok in
  let f := latency_tracker_create_error match_arg hash_arg max_events gp gt
             pr env avail module_ok in
  (is_Some f ↔ r.1 = None ∧ 0 < avail) ∧
  ∀ t, f = Some t →
    events t = ∅ ∧ events_free_list t = [] ∧ timers t = ∅ ∧
    gc_timer t
    = (if bool_decide (gp = 0%Z ∨ gt = 0%Z) then None
       else Some (u64 (jiffies env + wrapper_nsecs_to_jiffies gp))).
Proof.
  intros r f. subst r f.
  unfold latency_tracker_create, latency_tracker_create_error.
  destruct avail as [|avail].
  { split; [|by intros t [=]]. split; [by intros [? [=]]|]. intros [_ ?]. lia. }
  set (t0 := mk_tracker _ _ gp gt pr None [] [] ∅ ∅).
  set (t2 := wrapper_ht_init (latency_tracker_enable_gc t0 env)).
  set (n := Z.to_nat _).
  rewrite (alloc_events_or_fail_inr n 0 avail t2).
  pose proof (alloc_events_or_fail_spec n 0 avail t2) as (Hgt & Htm & Hown).
  assert (gc_timer t2
          = (if bool_decide (gp = 0%Z ∨ gt = 0%Z) then None
             else Some (u64 (jiffies env + wrapper_nsecs_to_jiffies gp))))
    as Hgt2 by apply (enable_gc_timer t0 env).
  assert (timers t2 = ∅) as Htm2.
  { destruct (enable_gc_fields t0 env) as (_ & _ & _ & _ & _ & Ht & _).
    exact Ht. }
  assert (map_Forall (λ s _, s ∈ events_free_list t2) (events t2)) as Hown2.
  { destruct (enable_gc_fields t0 env) as (_ & _ & _ & _ & _ & _ & _ & _ & He).
    intros s e Hs. change (events t2) with
      (events (latency_tracker_enable_gc t0 env)) in Hs.
    rewrite He in Hs. simpl in Hs. by rewrite lookup_empty in Hs. }
  destruct (alloc_events_or_fail n 0 avail t2) as [t|t]; simpl in *.
  - split; [split; [intros _; split; [done|lia]|by eexists]|].
    intros t' [= <-]. split; [by apply destroy_free_list_empties, Hown|].
    split; [done|]. simpl. split; [by rewrite Htm|by rewrite Hgt].
  - destruct module_ok; simpl.
    + split; [|by intros t' [=]].
      split; [by intros [? [=]]|by intros [[=] _]].
    + split; [split; [intros _; split; [done|lia]|by eexists]|].
      intros t' [= <-]. split; [by apply destroy_free_list_empties, Hown|].
      split; [done|]. simpl. split; [by rewrite Htm|by rewrite Hgt].
Qed.

End create_error_proofs.

(** ** Open then close *)

Section round_trip.
Context {PF : platform}.
Implicit Types (t : latency_tracker) (s : nat) (l : list nat) (w : world).

Lemma memcmp_n_prefix n : ∀ (a r : list Z),
  n ≤ length a → memcmp_n a (take n a ++ r) n = 0%Z.
Proof.
  induction n as [|n IH]; intros a r Hn; [done|].
  destruct a as [|x a]; [simpl in Hn; lia|].
  simpl. rewrite Z.eqb_refl. apply IH. simpl in Hn. lia.
Qed.

Lemma u32_small z : (0 ≤ z < 2 ^ 32)%Z → u32 z = z.
Proof. intros Hz. unfold u32. by apply Z.mod_small. Qed.

Lemma bucket_alter_cons t4 t1 s k :
  hash_min k < length (ht t1) →
  ht t4 = alter (cons s) (hash_min k) (ht t1) →
  bucket t4 k = s :: bucket t1 k.
Proof.
  intros Hlt Hht. unfold bucket. rewrite Hht.
  rewrite list_lookup_alter_eq.
  destruct (lookup_lt_is_Some_2 _ _ Hlt) as [b Hb]. by rewrite Hb.
Qed.

(* what a successful open leaves, given the invariant *)
Lemma event_in_opened C w a t key_arg key_len thresh_arg cb_arg timeout_arg
    unique priv_arg env w1 :
  hash_min_in_range →
  trackers w !! a = Some t → tracker_ok C t →
  latency_tracker_event_in w (Some a) key_arg key_len thresh_arg cb_arg
    timeout_arg unique priv_arg env = Some (LATENCY_TRACKER_OK, w1) →
  ∃ h t1 t' s calls,
    hash_fct t = Some h ∧ match_fct t' = match_fct t ∧ hash_fct t' = Some h ∧
    w1 = mk_world (<[a := t']> (trackers w)) (trace w ++ calls) ∧
    tracker_ok C t1 ∧ tracker_ok C t' ∧
    (unique = 0%Z → t1 = t) ∧
    last (events_free_list t1) = Some s ∧
    events_free_list t' = removelast (events_free_list t1) ∧
    bucket t' (h key_arg (u32 key_len) 0%Z)
      = s :: bucket t1 (h key_arg (u32 key_len) 0%Z) ∧
    events t' =
      <[s := mk_event (h key_arg (u32 key_len) 0%Z)
               (take (Z.to_nat key_len) key_arg
                ++ replicate (Z.to_nat LATENCY_TRACKER_MAX_KEY_SIZE
                              - Z.to_nat key_len) 0%Z)
               (trace_clock_monotonic_wrapper env) 0 thresh_arg timeout_arg
               cb_arg priv_arg LATENCY_TRACKER_CB_NONE 0]> (events t1) ∧
    timers t' =
      (if (timeout_arg >? 0)%Z
       then <[s := u64 (jiffies env + wrapper_nsecs_to_jiffies timeout_arg)]>
              (timers t1)
       else timers t1) ∧
    timers t1 !! s = None ∧
    ht t' = alter (cons s) (hash_min (h key_arg (u32 key_len) 0%Z)) (ht t1) ∧
    (unique = 0%Z → calls = []).
Proof.
  intros Hrange Hlook Hok Hin.
  destruct (decide (key_len > LATENCY_TRACKER_MAX_KEY_SIZE)%Z) as [Hgt|Hle].
  { unfold latency_tracker_event_in in Hin.
    assert ((key_len >? LATENCY_TRACKER_MAX_KEY_SIZE)%Z = true) as Hb by lia.
    rewrite Hb in Hin. by simplify_eq. }
  destruct (ok_usable _ _ Hok) as [[h Hh] [m Hm]].
  assert (¬ open_deadlocks t key_arg key_len unique) as Hret.
  { intros Hd.
    by rewrite (event_in_spins w a t key_arg key_len thresh_arg cb_arg
                  timeout_arg unique priv_arg env Hlook Hd) in Hin. }
  assert (key_len ≤ LATENCY_TRACKER_MAX_KEY_SIZE)%Z as Hlen by lia.
  destruct (event_in_cases w a t key_arg key_len thresh_arg cb_arg timeout_arg
              unique priv_arg env h m Hlook (ok_wf _ _ Hok) Hh Hm Hlen
              (open_returns_lock t key_arg key_len unique Hlen Hret))
    as (t1 & Hphase & Hr & Hwf1 & Hres).
  set (M := if bool_decide (unique ≠ 0%Z) then _ else []) in *.
  assert (timers_ok t1) as Htm1.
  { case_bool_decide.
    - by eapply wrapper_ht_unique_check_timers_ok, ok_timers.
    - simplify_eq. by eapply ok_timers. }
  assert (NoDup M ∧ ∀ s, s ∈ M → s ∈ ht_entries t) as [HndM HsubM].
  { subst M. case_bool_decide.
    - split; [apply take_1_NoDup|].
      intros s Hs%take_1_sub. by eapply matching_entries.
    - split; [apply NoDup_nil_2|]. by intros s ?%elem_of_nil. }
  pose proof (retired_tracker_ok C M t t1 Hok Hr HndM HsubM Htm1) as Hok1.
  destruct (last (events_free_list t1)) as [s|] eqn:Hlast.
  2: { rewrite Hres in Hin. by simplify_eq. }
  destruct Hres as (t4 & e & Hres & He & Hev4 & Hht4 & Hfree4 & Htm4 & Hh4
                    & Hm4 & Hgp & Hgt' & Hgm & Hpr & Hinv).
  destruct (Hinv Hrange) as (Hwf4 & _ & _).
  pose proof Hlast as Hlast'.
  apply last_Some in Hlast as [l' Hfree].
  assert (s ∈ events_free_list t1) as Hs.
  { rewrite Hfree, elem_of_app. right. by apply list_elem_of_singleton. }
  assert (e = zero_event) as ->.
  { pose proof (proj1 (pool_zeroed_alt t1) (ok_zeroed _ _ Hok1) s Hs) as Hz.
    rewrite Hz in He. by simplify_eq. }
  assert (tracker_ok C t4) as Hok4.
  { rewrite Hfree, removelast_last in Hfree4.
    eapply (opened_tracker_ok C t1 t4 l' s _ _ _ Hrange Hok1 Hfree Hev4
              Hht4 Hfree4); [exact Htm4| | |done].
    - by rewrite Hh4, (retired_hash _ _ _ Hr).
    - by rewrite Hm4, (retired_match _ _ _ Hr). }
  rewrite Hres in Hin. simplify_eq.
  exists h, t1, t4, s, (M ≫= unique_call t).
  split; [done|]. split; [done|]. split; [by rewrite Hh4|].
  split; [done|]. split; [done|]. split; [done|].
  split.
  { intros ->. subst M. rewrite bool_decide_false in Hr by (intros ?; done).
    by apply retired_nil_eq. }
  split; [done|]. split; [done|].
  split.
  { apply bucket_alter_cons; [|done]. rewrite (wf_size _ Hwf1). apply Hrange. }
  split.
  { rewrite Hev4. do 2 f_equal. unfold memcpy, zero_event. simpl.
    by rewrite drop_replicate. }
  split; [done|].
  split.
  { destruct (timers t1 !! s) as [x|] eqn:Hx; [|done].
    destruct (proj1 (timers_ok_alt t1) Htm1 s) as [Hin' _]; [by eexists|].
    pose proof (wf_nodup _ Hwf1) as Hnd.
    apply NoDup_app in Hnd as (_ & Hdisj & _). by destruct (Hdisj s Hin'). }
  split; [done|].
  intros ->. subst M. by rewrite bool_decide_false by (intros ?; done).
Qed.

(** X4: A successful latency_tracker_event_in (unique not set) takes the record
    at the tail of the free list, puts it at the head of the bucket of the
    hash of the key and fills it: the hash, the first key_len bytes of the
    key followed by zero bytes up to LATENCY_TRACKER_MAX_KEY_SIZE, the time
    of the clock, the threshold, timeout, callback and private pointer
    given; end_ts, cb_flag and cb_out_id are those of a cleared record,
    whatever event used the record before.  The timer of the record is
    pending, with expiry jiffies + wrapper_nsecs_to_jiffies(timeout),
    exactly when timeout > 0. *)
Theorem open_fills_cleared_record C w a t key_arg key_len thresh_arg cb_arg
    timeout_arg priv_arg env w1 :
  hash_min_in_range →
  trackers w !! a = Some t → tracker_ok C t →
  latency_tracker_event_in w (Some a) key_arg key_len thresh_arg cb_arg
    timeout_arg 0 priv_arg env = Some (LATENCY_TRACKER_OK, w1) →
  ∃ h t' s,
    hash_fct t = Some h ∧ trackers w1 !! a = Some t' ∧
    last (events_free_list t) = Some s ∧
    events_free_list t' = removelast (events_free_list t) ∧
    bucket t' (h key_arg (u32 key_len) 0%Z)
      = s :: bucket t (h key_arg (u32 key_len) 0%Z) ∧
    events t' !! s
      = Some (mk_event (h key_arg (u32 key_len) 0%Z)
                (take (Z.to_nat key_len) key_arg
                 ++ replicate (Z.to_nat LATENCY_TRACKER_MAX_KEY_SIZE
                               - Z.to_nat key_len) 0%Z)
                (trace_clock_monotonic_wrapper env) 0 thresh_arg timeout_arg
                cb_arg priv_arg LATENCY_TRACKER_CB_NONE 0) ∧
    (∀ p, p ≠ s → events t' !! p = events t !! p) ∧
    timers t' !! s
      = (if (timeout_arg >? 0)%Z
         then Some (u64 (jiffies env + wrapper_nsecs_to_jiffies timeout_arg))
         else None) ∧
    (∀ p, p ≠ s → timers t' !! p = timers t !! p).
Proof.
  intros Hrange Hlook Hok Hin.
  destruct (event_in_opened C w a t key_arg key_len thresh_arg cb_arg
              timeout_arg 0%Z priv_arg env w1 Hrange Hlook Hok Hin)
    as (h & t1 & t' & s & calls & Hh & _ & _ & -> & _ & _ & Ht1 & Hlast
        & Hfree & Hb & Hev & Htm & Hnone & _).
  rewrite (Ht1 eq_refl) in *.
  exists h, t', s. split; [done|].
  split; [simpl; by rewrite lookup_insert_eq|].
  do 3 (split; [done|]).
  split; [by rewrite Hev, lookup_insert_eq|].
  split; [intros p Hp; by rewrite Hev, lookup_insert_ne|].
  split.
  - rewrite Htm. destruct (timeout_arg >? 0)%Z; [|done].
    by rewrite lookup_insert_eq.
  - intros p Hp. rewrite Htm. destruct (timeout_arg >? 0)%Z; [|done].
    by rewrite lookup_insert_ne.
Qed.

(** X6: Open then close: after a successful latency_tracker_event_in with a
    key of key_len bytes, latency_tracker_event_out with the same key and
    length, at any later time and with any id, returns 0 and retires the
    record that the open filled: it is back on the free list, cleared,
    without timer and in no bucket, and the invariant holds.  The new record
    is the first one that the close visits; its callback is called exactly
    when the time since the open exceeds the threshold and a callback was
    given, on the record with end_ts, cb_flag NORMAL and cb_out_id set. *)
Theorem open_then_close C w a t key_arg key_len thresh_arg cb_arg timeout_arg
    unique priv_arg env w1 id env2 :
  hash_min_in_range →
  trackers w !! a = Some t → tracker_ok C t →
  match_fct t = Some memcmp →
  (0 ≤ key_len < 2 ^ 32)%Z → Z.to_nat key_len ≤ length key_arg →
  latency_tracker_event_in w (Some a) key_arg key_len thresh_arg cb_arg
    timeout_arg unique priv_arg env = Some (LATENCY_TRACKER_OK, w1) →
  let now1 := trace_clock_monotonic_wrapper env in
  let now2 := trace_clock_monotonic_wrapper env2 in
  ∃ h t1 s t2 rest,
    hash_fct t = Some h ∧ trackers w1 !! a = Some t1 ∧
    head (bucket t1 (h key_arg key_len 0%Z)) = Some s ∧
    latency_tracker_event_out w1 (Some a) key_arg key_len id env2
    = Some (0%Z,
            mk_world (<[a := t2]> (trackers w1))
              (trace w1
               ++ (if (u64 (now2 - now1) >? thresh_arg)%Z then
                     match cb_arg with
                     | Some f =>
                         [Call f s
                            (mk_event (h key_arg key_len 0%Z)
                               (take (Z.to_nat key_len) key_arg
                                ++ replicate
                                     (Z.to_nat LATENCY_TRACKER_MAX_KEY_SIZE
                                      - Z.to_nat key_len) 0%Z)
                               now1 now2 thresh_arg timeout_arg cb_arg
                               priv_arg LATENCY_TRACKER_CB_NORMAL id)]
                     | None => []
                     end
                   else [])
               ++ rest)) ∧
    (∀ c, c ∈ rest → call_ptr c ≠ s) ∧
    tracker_ok C t2 ∧ s ∈ events_free_list t2 ∧ (s ∉ ht_entries t2) ∧
    events t2 !! s = Some zero_event ∧ timers t2 !! s = None.
Proof.
  intros Hrange Hlook Hok Hmem Hlen Hbuf Hin now1 now2.
  destruct (event_in_opened C w a t key_arg key_len thresh_arg cb_arg
              timeout_arg unique priv_arg env w1 Hrange Hlook Hok Hin)
    as (h & t0 & t1 & s & calls & Hh & Hm1 & Hh1 & -> & _ & Hok1 & _ & Hlast
        & Hfree & Hb & Hev & Htm & Hnone & _).
  rewrite (u32_small _ Hlen) in *.
  rewrite Hmem in Hm1.
  set (k := h key_arg key_len 0%Z) in *.
  set (e1 := mk_event k _ _ _ _ _ _ _ _ _) in *.
  assert (events t1 !! s = Some e1) as He1
    by (by rewrite Hev, lookup_insert_eq).
  destruct (wrapper_ht_check_event_spec t1 key_arg key_len id now2
              (trace w ++ calls) h memcmp (ok_wf _ _ Hok1) Hh1 Hm1)
    as (t2 & Hchk & Hr).
  fold k in Hchk, Hr.
  assert (key_matches t1 key_arg key_len s = true) as Hmatch.
  { unfold key_matches. rewrite He1, Hm1. apply bool_decide_eq_true.
    unfold memcmp. simpl. by apply memcmp_n_prefix. }
  assert (∃ M', matching t1 k key_arg key_len = s :: M') as [M' HM].
  { unfold matching. rewrite Hb, filter_cons_True by (by rewrite Hmatch).
    by eexists. }
  rewrite HM in Hchk, Hr.
  assert (NoDup (s :: M')) as Hnd.
  { rewrite <- HM. apply matching_NoDup, Hok1. }
  assert (tracker_ok C t2) as Hok2.
  { apply (retired_tracker_ok C (s :: M') t1 t2 Hok1 Hr Hnd).
    - intros x. rewrite <- HM. apply matching_entries.
    - by eapply wrapper_ht_check_event_timers_ok, ok_timers. }
  exists h, t1, s, t2, (M' ≫= check_call t1 id now2).
  split; [done|]. split; [simpl; by rewrite lookup_insert_eq|].
  split; [fold k; by rewrite Hb|].
  split.
  { unfold latency_tracker_event_out. simpl. rewrite lookup_insert_eq. simpl.
    fold now2. rewrite Hchk. simpl.
    do 4 f_equal. unfold check_call. rewrite He1. simpl.
    fold now1. by destruct (u64 (now2 - now1) >? thresh_arg)%Z, cb_arg. }
  split.
  { intros c Hc. apply list_elem_of_bind in Hc as (x & Hc & Hx).
    rewrite (check_call_ptr _ _ _ _ _ Hc). intros ->.
    apply NoDup_cons in Hnd as [Hnd _]. done. }
  split; [done|].
  assert (s ∈ events_free_list t2) as Hs2.
  { rewrite (retired_free _ _ _ Hr), elem_of_app, elem_of_reverse. left.
    by left. }
  split; [done|]. split.
  { intros Hs. pose proof (wf_nodup _ (ok_wf _ _ Hok2)) as Hnd2.
    apply NoDup_app in Hnd2 as (_ & Hdisj & _). by apply (Hdisj s). }
  split; [apply (retired_zero _ _ _ Hr); by left|].
  destruct (timers t2 !! s) as [x|] eqn:Hx; [|done].
  destruct (proj1 (timers_ok_alt t2) (ok_timers _ _ Hok2) s) as [Hin' _];
    [by eexists|].
  pose proof (wf_nodup _ (ok_wf _ _ Hok2)) as Hnd2.
  apply NoDup_app in Hnd2 as (_ & Hdisj & _). by destruct (Hdisj s Hin').
Qed.


End round_trip.

(** ** The rhashtable variant of the bucket walks *)

Section rhashtable_proofs.
Context {PF : platform}.
Implicit Types (t : latency_tracker) (s : nat) (l : list nat) (w : world).

Lemma same_hash_sub t k s :
  s ∈ RHASHTABLE.same_hash t k → s ∈ bucket t k.
Proof. unfold RHASHTABLE.same_hash. by intros [_ ?]%list_elem_of_filter. Qed.

Lemma same_hash_NoDup t k : wf t → NoDup (RHASHTABLE.same_hash t k).
Proof. intros Hwf. apply NoDup_filter, wf_bucket, Hwf. Qed.

Lemma same_hash_retired_head t t1 k s S :
  wf t → RHASHTABLE.same_hash t k = s :: S → retired [s] t t1 →
  RHASHTABLE.same_hash t1 k = S.
Proof.
  intros Hwf HS Hr.
  pose proof (same_hash_NoDup t k Hwf) as Hnd. rewrite HS in Hnd.
  apply NoDup_cons in Hnd as [Hs _].
  unfold RHASHTABLE.same_hash in *.
  rewrite (retired_bucket _ _ _ k Hr), list_filter_filter.
  transitivity (filter (λ x, x ∉ [s])
                  (filter (λ x, hkey <$> events t !! x = Some k) (bucket t k))).
  - rewrite list_filter_filter. apply filter_ext_in. intros x Hx.
    simpl. destruct (decide (x = s)) as [->|Hne].
    + rewrite list_elem_of_singleton. tauto.
    + rewrite (retired_events _ _ _ Hr)
        by (by rewrite list_elem_of_singleton).
      tauto.
  - rewrite HS. rewrite filter_cons_False
      by (rewrite list_elem_of_singleton; tauto).
    apply filter_all. intros x Hx. rewrite list_elem_of_singleton.
    by intros ->.
Qed.

Lemma check_event_loop_spec key_arg key_len id now k m S : ∀ t tr found,
  wf t → match_fct t = Some m → RHASHTABLE.same_hash t k = S →
  (Forall (λ s, key_matches t key_arg key_len s) S →
   ∃ t', retired S t t' ∧
     ∀ fuel, length S < fuel →
       RHASHTABLE.check_event_loop fuel key_arg key_len id now k
         (t, tr, found)
       = Some (Some (t', tr ++ (S ≫= check_call t id now),
                     if bool_decide (S = []) then found else 1%Z))) ∧
  (¬ Forall (λ s, key_matches t key_arg key_len s) S →
   ∀ fuel, RHASHTABLE.check_event_loop fuel key_arg key_len id now k
             (t, tr, found) = None).
Proof.
  induction S as [|s S IH]; intros t tr found Hwf Hm HS.
  - split.
    + intros _. exists t. split; [apply retired_refl|].
      intros [|fuel] Hf; [simpl in Hf; lia|]. simpl.
      unfold RHASHTABLE.rhashtable_lookup.
      rewrite HS. simpl. by rewrite app_nil_r.
    + intros Hn. destruct Hn. constructor.
  - assert (s ∈ bucket t k) as Hsb.
    { apply same_hash_sub. rewrite HS. by left. }
    destruct (proj2 (wf_bucket t k Hwf) s Hsb) as [e He].
    assert (RHASHTABLE.rhashtable_lookup t k = Some s) as Hlk.
    { unfold RHASHTABLE.rhashtable_lookup. by rewrite HS. }
    pose proof (same_hash_NoDup t k Hwf) as Hnd. rewrite HS in Hnd.
    apply NoDup_cons in Hnd as [HsS HndS].
    pose proof (check_visit_spec key_arg key_len id now t tr found s e m
                  He Hm) as Hv.
    destruct (key_matches t key_arg key_len s) eqn:Hk.
    + destruct Hv as (t1 & Hv & Hr1).
      assert (wf t1) as Hwf1.
      { apply (retired_wf [s] t t1 Hwf Hr1).
        - apply NoDup_singleton.
        - intros x ->%list_elem_of_singleton.
          by eapply elem_of_bucket_entries. }
      pose proof (same_hash_retired_head t t1 k s S Hwf HS Hr1) as HS1.
      assert (match_fct t1 = Some m) as Hm1
        by (by rewrite (retired_match _ _ _ Hr1)).
      destruct (IH t1 (tr ++ check_call t id now s) 1%Z Hwf1 Hm1 HS1)
        as [IHa IHb].
      assert (Forall (λ x, key_matches t1 key_arg key_len x) S
              ↔ Forall (λ x, key_matches t key_arg key_len x) S) as Hall.
      { rewrite !Forall_forall. split; intros H x Hx.
        - rewrite <- (retired_key_matches [s] t t1); [by apply H|done|].
          rewrite list_elem_of_singleton. by intros ->.
        - rewrite (retired_key_matches [s] t t1); [by apply H|done|].
          rewrite list_elem_of_singleton. by intros ->. }
      split.
      * intros HF. apply Forall_cons in HF as [_ HF].
        destruct (IHa (proj2 Hall HF)) as (t' & Hr & Hloop).
        exists t'. split; [by eapply retired_cons|].
        intros [|fuel] Hf; [simpl in Hf; lia|]. simpl.
        rewrite Hlk. simpl in Hv. rewrite Hv.
        rewrite Hloop by (simpl in Hf; lia).
        rewrite <- (assoc_L (++)).
        rewrite (bind_ext_in (check_call t1 id now) (check_call t id now)).
        { by repeat case_bool_decide. }
        intros x Hx. apply (check_call_retired [s]); [done|].
        rewrite list_elem_of_singleton. by intros ->.
      * intros Hn fuel. destruct fuel as [|fuel]; [done|]. simpl.
        rewrite Hlk. simpl in Hv. rewrite Hv. apply IHb.
        intros HF. apply Hn. constructor; [by rewrite Hk|by apply Hall].
    + split.
      * intros HF. apply Forall_cons in HF as [HF _]. by rewrite Hk in HF.
      * intros _ fuel. induction fuel as [|fuel IHf]; [done|]. simpl.
        rewrite Hlk. simpl in Hv. by rewrite Hv.
Qed.

(** X12: In the rhashtable variant, wrapper_ht_check_event returns only if
    every record that rhashtable_lookup can return for the hash of the key
    matches the key: it then retires these records, in chain order, with
    the callbacks of the other variant.  If one of them does not match (two
    open events whose keys differ and have the same 32-bit hash), the
    continue leads back to the same lookup, which returns the same record:
    the loop never ends, whatever the number of iterations allowed. *)
Theorem rhashtable_check_event_spins_on_collision t key_arg key_len id now tr
    h m :
  wf t → hash_fct t = Some h → match_fct t = Some m →
  let k := h key_arg key_len 0%Z in
  let S := RHASHTABLE.same_hash t k in
  (Forall (λ s, key_matches t key_arg key_len s) S →
   ∃ t', retired S t t' ∧
     ∀ fuel, length S < fuel →
       RHASHTABLE.wrapper_ht_check_event fuel t key_arg key_len id now tr
       = Some (Some (t', tr ++ (S ≫= check_call t id now),
                     if bool_decide (S = []) then 0%Z else 1%Z))) ∧
  (¬ Forall (λ s, key_matches t key_arg key_len s) S →
   ∀ fuel,
     RHASHTABLE.wrapper_ht_check_event fuel t key_arg key_len id now tr
     = None).
Proof.
  intros Hwf Hh Hm k S. unfold RHASHTABLE.wrapper_ht_check_event.
  rewrite Hh. fold k.
  apply (check_event_loop_spec key_arg key_len id now k m S t tr 0%Z Hwf Hm
           eq_refl).
Qed.


End rhashtable_proofs.

(** ** The self test of the module *)

Section module_init_proofs.
Context {PF : platform}.
Implicit Types (t : latency_tracker) (s : nat) (l : list nat) (w : world).

Lemma bucket_after_add t t' s k :
  hash_min k < length (ht t) →
  ht t' = alter (cons s) (hash_min k) (ht t) →
  ∀ k', bucket t' k'
        = if decide (hash_min k' = hash_min k) then s :: bucket t k'
          else bucket t k'.
Proof.
  intros Hlt Hht k'. unfold bucket. rewrite Hht.
  destruct (decide (hash_min k' = hash_min k)) as [->|Hne].
  - rewrite list_lookup_alter_eq.
    destruct (lookup_lt_is_Some_2 _ _ Hlt) as [b Hb]. by rewrite Hb.
  - by rewrite list_lookup_alter_ne.
Qed.

Lemma bucket_empty_table t k : ht_entries t = [] → bucket t k = [].
Proof.
  intros Hent. destruct (bucket t k) as [|s b] eqn:Hb; [done|].
  assert (s ∈ ht_entries t) as Hs.
  { apply (elem_of_bucket_entries t k). rewrite Hb. by left. }
  rewrite Hent in Hs. by apply elem_of_nil in Hs.
Qed.

(* an open without unique on a tracker whose pool is not empty *)
Lemma event_in_at C (base : gmap nat latency_tracker) a t tr key_arg key_len
    thresh_arg cb_arg priv_arg env h l s :
  hash_min_in_range → tracker_ok C t → hash_fct t = Some h →
  (key_len ≤ LATENCY_TRACKER_MAX_KEY_SIZE)%Z →
  events_free_list t = l ++ [s] →
  ∃ t',
    latency_tracker_event_in (mk_world (<[a := t]> base) tr) (Some a) key_arg
      key_len thresh_arg cb_arg 0 0 priv_arg env
    = Some (LATENCY_TRACKER_OK, mk_world (<[a := t']> base) tr) ∧
    tracker_ok C t' ∧ hash_fct t' = Some h ∧ match_fct t' = match_fct t ∧
    events_free_list t' = l ∧
    events t'
    = <[s := mk_event (h key_arg (u32 key_len) 0%Z)
               (take (Z.to_nat key_len) key_arg
                ++ replicate (Z.to_nat LATENCY_TRACKER_MAX_KEY_SIZE
                              - Z.to_nat key_len) 0%Z)
               (trace_clock_monotonic_wrapper env) 0 thresh_arg 0
               cb_arg priv_arg LATENCY_TRACKER_CB_NONE 0]> (events t) ∧
    ht t' = alter (cons s) (hash_min (h key_arg (u32 key_len) 0%Z)) (ht t).
Proof.
  intros Hrange Hok Hh Hlen Hfree.
  set (w := mk_world (<[a := t]> base) tr).
  assert (trackers w !! a = Some t) as Hlook
    by (simpl; by rewrite lookup_insert_eq).
  destruct (ok_usable _ _ Hok) as [_ [m Hm]].
  assert (spin_lock_spins = false ∨ ¬ evicts t key_arg key_len 0%Z) as Hlk.
  { right. intros [Hu _]. by apply Hu. }
  destruct (event_in_cases w a t key_arg key_len thresh_arg cb_arg 0%Z
              0%Z priv_arg env h m Hlook (ok_wf _ _ Hok) Hh Hm Hlen Hlk)
    as (t1 & Hphase & _ & _ & Hres).
  rewrite bool_decide_false in Hphase by (intros ?; done).
  assert (t1 = t) as -> by congruence. clear Hphase.
  rewrite Hfree, last_snoc in Hres.
  destruct Hres as (t4 & e & Hres & _).
  destruct (event_in_opened C w a t key_arg key_len thresh_arg cb_arg 0%Z 0%Z
              priv_arg env _ Hrange Hlook Hok Hres)
    as (h' & t1 & t' & s' & calls & Hh' & Hm' & Hh1 & Hw & _ & Hok' & Ht1
        & Hlast & Hfree' & _ & Hev & Htm & _ & Hht & Hcalls).
  rewrite (Ht1 eq_refl) in *. rewrite (Hcalls eq_refl) in *.
  rewrite Hh in Hh'. injection Hh' as <-.
  rewrite Hfree, last_snoc in Hlast. injection Hlast as <-.
  rewrite Hfree, removelast_last in Hfree'.
  exists t'. split.
  { rewrite Hres, Hw. subst w. simpl.
    by rewrite insert_insert_eq, app_nil_r. }
  split; [done|]. split; [done|]. split; [done|]. split; [done|].
  split; [done|]. done.
Qed.

(* a close on a tracker whose matching records are known *)
Lemma event_out_at (base : gmap nat latency_tracker) a t tr key_arg key_len id
    env h m M :
  wf t → hash_fct t = Some h → match_fct t = Some m →
  matching t (h key_arg key_len 0%Z) key_arg key_len = M →
  ∃ t',
    latency_tracker_event_out (mk_world (<[a := t]> base) tr) (Some a) key_arg
      key_len id env
    = Some (if bool_decide (M = []) then (-1)%Z else 0%Z,
            mk_world (<[a := t']> base)
              (tr ++ (M ≫= check_call t id
                              (trace_clock_monotonic_wrapper env)))) ∧
    retired M t t' ∧ wf t'.
Proof.
  intros Hwf Hh Hm HM.
  destruct (wrapper_ht_check_event_spec t key_arg key_len id
              (trace_clock_monotonic_wrapper env) tr h m Hwf Hh Hm)
    as (t' & Hchk & Hr).
  rewrite HM in Hchk, Hr.
  exists t'. split.
  { unfold latency_tracker_event_out. simpl. rewrite lookup_insert_eq. simpl.
    rewrite Hchk. simpl. rewrite insert_insert_eq.
    by repeat case_bool_decide. }
  split; [done|].
  apply (retired_wf M t t' Hwf Hr).
  - rewrite <- HM. by apply matching_NoDup.
  - intros s. rewrite <- HM. apply matching_entries.
Qed.

Lemma destroy_at (base : gmap nat latency_tracker) a t tr :
  base !! a = None → wf t →
  ∃ n, latency_tracker_destroy (mk_world (<[a := t]> base) tr) a
       = Some (n, mk_world base tr).
Proof.
  intros Hfresh Hwf.
  assert (wf (set_gc_timer None t)) as Hwf0 by (by destruct Hwf).
  destruct (wrapper_ht_clear_spec _ Hwf0) as (t1 & Hclear & _).
  unfold latency_tracker_destroy. simpl. rewrite lookup_insert_eq. simpl.
  rewrite Hclear. simpl. eexists.
  by rewrite !delete_insert_eq, delete_id.
Qed.

Ltac filter_notin :=
  repeat first
    [ rewrite filter_cons_True by (rewrite list_elem_of_singleton; lia)
    | rewrite filter_cons_False by (rewrite list_elem_of_singleton; lia) ];
  rewrite ?filter_nil.

Lemma event_out_at_nothing (base : gmap nat latency_tracker) a t tr key_arg
    key_len id env h m :
  wf t → hash_fct t = Some h → match_fct t = Some m →
  matching t (h key_arg key_len 0%Z) key_arg key_len = [] →
  latency_tracker_event_out (mk_world (<[a := t]> base) tr) (Some a) key_arg
    key_len id env
  = Some ((-1)%Z, mk_world (<[a := t]> base) tr).
Proof.
  intros Hwf Hh Hm HM.
  destruct (event_out_at base a t tr key_arg key_len id env h m [] Hwf Hh Hm
              HM) as (t' & Hout & Hr & _).
  apply retired_nil_eq in Hr. subst t'. rewrite Hout. simpl.
  by rewrite app_nil_r.
Qed.

Lemma test_tracker_cases w (clock : nat → kernel_env) (avail : nat)
    (module_ok : bool) :
  hash_min_in_range →
  let k1 := [98; 108; 97; 98; 108; 97; 98; 108; 97; 49; 0]%Z in
  let k2 := [98; 108; 105; 98; 108; 105; 98; 108; 105; 49; 0]%Z in
  let now (i : nat) := trace_clock_monotonic_wrapper (clock i) in
  let closed k start stop thr :=
    mk_event (jhash k 11 0)
      (k ++ replicate (Z.to_nat LATENCY_TRACKER_MAX_KEY_SIZE - 11) 0%Z)
      start stop thr 0 (Some example_cb) 0 LATENCY_TRACKER_CB_NORMAL 0 in
  let calls :=
    if bool_decide (11 ≤ LATENCY_TRACKER_MAX_KEY_SIZE)%Z then
      (if (u64 (now 3%nat - now 1%nat) >? 6)%Z
       then [Call example_cb 0 (closed k1 (now 1) (now 3) 6%Z)] else [])
      ++ (if (u64 (now 4%nat - now 2%nat) >? 400)%Z
          then [Call example_cb 1 (closed k2 (now 2) (now 4) 400%Z)] else [])
    else [] in
  test_tracker w clock avail module_ok
  = if bool_decide (avail ≤ 3 ∨ module_ok = false) then Some ((-1)%Z, w)
    else Some (0%Z, mk_world (trackers w) (trace w ++ calls)).
Proof.
  intros Hrange k1 k2 now closed calls.
  unfold test_tracker. fold k1 k2.
  change (Z.of_nat (strlen k1) + 1)%Z with 11%Z.
  change (Z.of_nat (strlen k2) + 1)%Z with 11%Z.
  pose proof (create_cases w None None 3 0 0 0 (clock 0) avail module_ok)
    as (Hnone & Hunch & Hsome).
  change (capacity 3) with 3 in *.
  destruct (latency_tracker_create w None None 3 0 0 0 (clock 0) avail
              module_ok) as [[a|] w0] eqn:Hcr; simpl in Hnone, Hunch, Hsome.
  2: { rewrite bool_decide_true by (by apply Hnone).
       by rewrite (Hunch eq_refl). }
  rewrite bool_decide_false by (intros H; by apply Hnone in H).
  destruct (Hsome a eq_refl)
    as (Hfresh & Htr & _ & t0 & Htrk & Hwf0 & Hent0 & Hfree0 & _ & _ & _ & _
        & _ & _ & _ & Hh0 & Hm0 & Hok0).
  specialize (Hok0 eq_refl eq_refl).
  destruct w0 as [trk0 tr0]. simpl in Htr, Htrk. subst trk0 tr0.
  clear Hnone Hunch Hsome Hcr.
  assert (∀ k, bucket t0 k = []) as Hb0
    by (intros k; by apply bucket_empty_table).
  destruct (decide (11 ≤ LATENCY_TRACKER_MAX_KEY_SIZE)%Z) as [Hmax|Hmax].
  2: { (* both keys are too long: nothing is opened *)
    subst calls. rewrite bool_decide_false by done. rewrite app_nil_r.
    assert (∀ key_arg thresh_arg env,
              latency_tracker_event_in
                (mk_world (<[a := t0]> (trackers w)) (trace w)) (Some a)
                key_arg 11 thresh_arg (Some example_cb) 0 0 0 env
              = Some (LATENCY_TRACKER_ERR,
                      mk_world (<[a := t0]> (trackers w)) (trace w))) as Hin.
    { intros key_arg thresh_arg env. unfold latency_tracker_event_in.
      by assert ((11 >? LATENCY_TRACKER_MAX_KEY_SIZE)%Z = true) as -> by lia. }
    assert (∀ key_arg env,
              latency_tracker_event_out
                (mk_world (<[a := t0]> (trackers w)) (trace w)) (Some a)
                key_arg 11 0 env
              = Some ((-1)%Z,
                      mk_world (<[a := t0]> (trackers w)) (trace w))) as Hout.
    { intros key_arg env.
      apply (event_out_at_nothing _ a t0 _ key_arg 11 0 env jhash memcmp
               Hwf0 Hh0 Hm0).
      unfold matching. by rewrite Hb0. }
    rewrite Hin, bind_Some_l. cbn [snd]. rewrite Hin, bind_Some_l. cbn [snd].
    rewrite Hout, bind_Some_l. cbn [snd]. rewrite Hout, bind_Some_l.
    cbn [snd]. rewrite Hout, bind_Some_l. cbn [snd].
    destruct (destroy_at (trackers w) a t0 (trace w) Hfresh Hwf0)
      as [n Hd].
    by rewrite Hd. }
  (* the two opens *)
  change (reverse [0; 1; 2]) with ([2; 1] ++ [0]) in Hfree0.
  destruct (event_in_at 3 (trackers w) a t0 (trace w) k1 11 6
              (Some example_cb) 0 (clock 1) jhash [2; 1] 0 Hrange Hok0 Hh0
              Hmax Hfree0)
    as (ta & Hin1 & Hoka & Hha & Hma & Hfreea & Heva & Hhta).
  rewrite Hin1, bind_Some_l. cbn [snd].
  change [2; 1] with ([2] ++ [1]) in Hfreea.
  destruct (event_in_at 3 (trackers w) a ta (trace w) k2 11 400
              (Some example_cb) 0 (clock 2) jhash [2] 1 Hrange Hoka Hha
              Hmax Hfreea)
    as (tb & Hin2 & Hokb & Hhb & Hmb & Hfreeb & Hevb & Hhtb).
  rewrite Hin2, bind_Some_l. cbn [snd].
  change (u32 11) with 11%Z in *. change (Z.to_nat 11) with 11 in *.
  change (take 11 k1) with k1 in *. change (take 11 k2) with k2 in *.
  set (h1 := jhash k1 11 0) in *. set (h2 := jhash k2 11 0) in *.
  set (pad := replicate (Z.to_nat LATENCY_TRACKER_MAX_KEY_SIZE - 11) 0%Z)
    in *.
  fold (now 1) in Heva. fold (now 2) in Hevb.
  set (e1 := mk_event h1 (k1 ++ pad) (now 1) 0 6 0 (Some example_cb) 0
               LATENCY_TRACKER_CB_NONE 0) in *.
  set (e2 := mk_event h2 (k2 ++ pad) (now 2) 0 400 0 (Some example_cb) 0
               LATENCY_TRACKER_CB_NONE 0) in *.
  rewrite Hm0 in Hma. rewrite Hma in Hmb.
  assert (events tb !! 0 = Some e1) as He1.
  { by rewrite Hevb, lookup_insert_ne, Heva, lookup_insert_eq. }
  assert (events tb !! 1 = Some e2) as He2
    by (by rewrite Hevb, lookup_insert_eq).
  (* the buckets after the two opens *)
  assert (∀ k, bucket ta k
               = if decide (hash_min k = hash_min h1) then [0] else []) as Hba.
  { intros k. rewrite (bucket_after_add t0 ta 0 h1); [|
      rewrite (wf_size _ Hwf0); apply Hrange|done].
    by rewrite Hb0. }
  assert (∀ k, bucket tb k
               = if decide (hash_min k = hash_min h2) then 1 :: bucket ta k
                 else bucket ta k) as Hbb.
  { intros k. apply (bucket_after_add ta tb 1 h2); [|done].
    rewrite (wf_size _ (ok_wf _ _ Hoka)). apply Hrange. }
  (* which record matches which key *)
  assert (key_matches tb k1 11 0 = true) as K10.
  { unfold key_matches. rewrite He1, Hmb. simpl. clearbody pad.
    by vm_compute. }
  assert (key_matches tb k1 11 1 = false) as K11.
  { unfold key_matches. rewrite He2, Hmb. simpl. clearbody pad.
    by vm_compute. }
  assert (key_matches tb k2 11 1 = true) as K21.
  { unfold key_matches. rewrite He2, Hmb. simpl. clearbody pad.
    by vm_compute. }
  assert (bucket tb h1 = [0] ∨ bucket tb h1 = [1; 0]) as Hbh1.
  { rewrite Hbb, Hba. rewrite (decide_True (P := hash_min h1 = hash_min h1))
      by done.
    destruct (decide (hash_min h1 = hash_min h2)); tauto. }
  assert (bucket tb h2 = [1] ∨ bucket tb h2 = [1; 0]) as Hbh2.
  { rewrite Hbb, Hba. rewrite (decide_True (P := hash_min h2 = hash_min h2))
      by done.
    destruct (decide (hash_min h2 = hash_min h1)); tauto. }
  (* lookup k1 *)
  assert (matching tb h1 k1 11 = [0]) as HM1.
  { unfold matching. destruct Hbh1 as [-> | ->].
    - rewrite filter_cons_True by (cbv beta; rewrite K10; exact I). done.
    - rewrite filter_cons_False by (cbv beta; rewrite K11; intros []).
      rewrite filter_cons_True by (cbv beta; rewrite K10; exact I). done. }
  destruct (event_out_at (trackers w) a tb (trace w) k1 11 0 (clock 3) jhash
              memcmp [0] (ok_wf _ _ Hokb) Hhb Hmb HM1)
    as (tc & Hout1 & Hrc & Hwfc).
  rewrite Hout1, bind_Some_l. cbn [snd].
  (* lookup k2 *)
  assert (matching tc h2 k2 11 = [1]) as HM2.
  { unfold matching. rewrite (retired_bucket [0] tb tc h2 Hrc).
    assert (filter (λ x, x ∉ [0]) (bucket tb h2) = [1]) as ->.
    { destruct Hbh2 as [-> | ->]; by filter_notin. }
    rewrite filter_cons_True; [done|]. cbv beta.
    rewrite (retired_key_matches [0] tb tc) by (done || (rewrite list_elem_of_singleton; lia)).
    rewrite K21. exact I. }
  destruct (event_out_at (trackers w) a tc
              (trace w ++ ([0] ≫= check_call tb 0
                                   (trace_clock_monotonic_wrapper (clock 3))))
              k2 11 0 (clock 4) jhash memcmp [1] Hwfc)
    as (td & Hout2 & Hrd & Hwfd).
  { by rewrite (retired_hash _ _ _ Hrc). }
  { by rewrite (retired_match _ _ _ Hrc). }
  { done. }
  rewrite Hout2, bind_Some_l. cbn [snd].
  (* lookup k1 again *)
  assert (matching td h1 k1 11 = []) as HM3.
  { unfold matching. rewrite (retired_bucket [1] tc td h1 Hrd).
    rewrite (retired_bucket [0] tb tc h1 Hrc).
    destruct Hbh1 as [-> | ->]; by filter_notin. }
  rewrite (event_out_at_nothing _ a td _ k1 11 0 (clock 5) jhash memcmp Hwfd);
    [| by rewrite (retired_hash _ _ _ Hrd), (retired_hash _ _ _ Hrc)
     | by rewrite (retired_match _ _ _ Hrd), (retired_match _ _ _ Hrc)
     | done].
  rewrite bind_Some_l. cbn [snd].
  destruct (destroy_at (trackers w) a td
              ((trace w ++ ([0] ≫= check_call tb 0
                                    (trace_clock_monotonic_wrapper (clock 3))))
               ++ ([1] ≫= check_call tc 0
                            (trace_clock_monotonic_wrapper (clock 4))))
              Hfresh Hwfd) as [n Hd].
  rewrite Hd, bind_Some_l. cbn [snd].
  do 3 f_equal. subst calls. rewrite bool_decide_true by done.
  rewrite <- (assoc_L (++)). f_equal.
  rewrite !bind_cons. change (@nil nat ≫= _) with (@nil cb_call). rewrite !app_nil_r.
  rewrite (check_call_retired [0] tb tc)
    by (done || (rewrite list_elem_of_singleton; lia)).
  unfold check_call.
  rewrite He1, He2. simpl. fold (now 3) (now 4).
  by destruct (u64 (now 3%nat - now 1%nat) >? 6)%Z,
    (u64 (now 4%nat - now 2%nat) >? 400)%Z.
Qed.

(** X14: test_tracker, and latency_tracker_init which calls it, never fault.
    test_tracker returns -1 exactly when latency_tracker_create fails, and
    then changes nothing; otherwise it returns 0 and leaves no tracker
    behind: the memory is as before the call.  If the two keys of 11 bytes
    fit in LATENCY_TRACKER_MAX_KEY_SIZE, the first lookup of k1 and the
    lookup of k2 each close their event, calling example_cb if the event was
    open for longer than its threshold (6 and 400), and the second lookup
    of k1 finds nothing; if the keys do not fit, nothing is opened and
    example_cb is never called.  latency_tracker_init does the same and
    returns the result of lttng_tracepoint_init, whatever the self test
    returned. *)
Theorem test_tracker_outcome w (clock : nat → kernel_env) (avail : nat)
    (module_ok : bool) :
  hash_min_in_range →
  let k1 := [98; 108; 97; 98; 108; 97; 98; 108; 97; 49; 0]%Z in
  let k2 := [98; 108; 105; 98; 108; 105; 98; 108; 105; 49; 0]%Z in
  let now (i : nat) := trace_clock_monotonic_wrapper (clock i) in
  let closed k start stop thr :=
    mk_event (jhash k 11 0)
      (k ++ replicate (Z.to_nat LATENCY_TRACKER_MAX_KEY_SIZE - 11) 0%Z)
      start stop thr 0 (Some example_cb) 0 LATENCY_TRACKER_CB_NORMAL 0 in
  let calls :=
    if bool_decide (11 ≤ LATENCY_TRACKER_MAX_KEY_SIZE)%Z then
      (if (u64 (now 3%nat - now 1%nat) >? 6)%Z
       then [Call example_cb 0 (closed k1 (now 1) (now 3) 6%Z)] else [])
      ++ (if (u64 (now 4%nat - now 2%nat) >? 400)%Z
          then [Call example_cb 1 (closed k2 (now 2) (now 4) 400%Z)] else [])
    else [] in
  let failed := bool_decide (avail ≤ 3 ∨ module_ok = false) in
  let w' := if failed then w
            else mk_world (trackers w) (trace w ++ calls) in
  test_tracker w clock avail module_ok
  = Some (if failed then (-1)%Z else 0%Z, w') ∧
  ∀ lttng_ret,
    latency_tracker_init w clock avail module_ok lttng_ret
    = Some (lttng_ret, w').
Proof.
  intros Hrange k1 k2 now closed calls failed w'.
  pose proof (test_tracker_cases w clock avail module_ok Hrange) as Ht.
  cbv zeta in Ht. fold k1 k2 now closed calls failed in Ht.
  assert (test_tracker w clock avail module_ok
          = Some (if failed then (-1)%Z else 0%Z, w')) as Ht'.
  { rewrite Ht. subst w'. by destruct failed. }
  split; [done|]. intros lttng_ret. unfold latency_tracker_init.
  by rewrite Ht'.
Qed.

End module_init_proofs.

(** ** The invariant over the life of a tracker *)

Section life_proofs.
Context {PF : platform}.
Implicit Types (t : latency_tracker) (s : nat) (l : list nat) (w : world).

(** ** The table stays keyed by hkey *)

Lemma placed_empty t : ht_entries t = [] → placed t.
Proof.
  intros Hent i b s Hb Hs.
  assert (s ∈ ht_entries t) as Hin.
  { apply list_elem_of_join. exists b. split; [done|].
    by eapply list_elem_of_lookup_2. }
  rewrite Hent in Hin. by apply elem_of_nil in Hin.
Qed.

Lemma placed_ext t t' :
  ht t' = ht t → events t' = events t → placed t → placed t'.
Proof. intros Hht Hev Hpl i b s. rewrite Hht, Hev. apply Hpl. Qed.

Lemma store_placed t s e e' :
  events t !! s = Some e → hkey e' = hkey e → placed t →
  placed (store t s e').
Proof.
  intros He Hk Hpl i b x Hb Hx. simpl in Hb.
  destruct (Hpl i b x Hb Hx) as (ex & Hex & Hh). simpl.
  destruct (decide (x = s)) as [->|Hne].
  - rewrite lookup_insert_eq. exists e'. split; [done|].
    rewrite Hk. rewrite He in Hex. by simplify_eq.
  - rewrite lookup_insert_ne by done. by exists ex.
Qed.

Lemma opened_placed t1 t4 s e' :
  wf t1 → placed t1 → last (events_free_list t1) = Some s →
  events t4 = <[s := e']> (events t1) →
  ht t4 = alter (cons s) (hash_min (hkey e')) (ht t1) →
  placed t4.
Proof.
  intros Hwf Hpl Hlast Hev Hht i b x Hb Hx.
  assert (∀ b0 y, ht t1 !! i = Some b0 → y ∈ b0 → y ≠ s) as Hfresh.
  { intros b0 y Hb0 Hy ->.
    pose proof (wf_nodup _ Hwf) as Hnd.
    apply NoDup_app in Hnd as (_ & Hdisj & _). apply (Hdisj s).
    - apply list_elem_of_join. exists b0. split; [done|].
      by eapply list_elem_of_lookup_2.
    - apply last_Some in Hlast as [l' ->]. rewrite elem_of_app. right.
      by apply list_elem_of_singleton. }
  rewrite Hht in Hb. rewrite Hev.
  destruct (decide (i = hash_min (hkey e'))) as [->|Hne].
  - rewrite list_lookup_alter_eq in Hb.
    destruct (ht t1 !! hash_min (hkey e')) as [b0|] eqn:Hb0; [|done].
    simpl in Hb. injection Hb as <-.
    apply elem_of_cons in Hx as [->|Hx].
    + rewrite lookup_insert_eq. by exists e'.
    + rewrite lookup_insert_ne by (intros <-; by eapply Hfresh).
      by apply (Hpl _ b0).
  - rewrite list_lookup_alter_ne in Hb by done.
    rewrite lookup_insert_ne by (intros <-; by eapply Hfresh).
    by apply (Hpl i b).
Qed.

Lemma tracker_step_placed C a w w' t t' :
  tracker_step a w w' → trackers w !! a = Some t → tracker_ok C t →
  placed t → trackers w' !! a = Some t' → placed t'.
Proof.
  intros Hstep Hlook Hok Hpl Hlook'.
  destruct (ok_usable _ _ Hok) as [[h Hh] [m Hm]].
  destruct Hstep as
    [w key_arg key_len thresh_arg cb_arg timeout_arg unique priv_arg env r w'
       Hin
    |w key_arg key_len id env r w' Hout
    |w t0 ptr x w' Hlook0 Hx Hto
    |w t0 x env w' Hlook0 Hx Hgc
    |w v env w' Hset
    |w v env w' Hset].
  - destruct (decide (key_len > LATENCY_TRACKER_MAX_KEY_SIZE)%Z) as [Hgt|Hle].
    { unfold latency_tracker_event_in in Hin.
      assert ((key_len >? LATENCY_TRACKER_MAX_KEY_SIZE)%Z = true) as Hb
        by lia.
      rewrite Hb in Hin. injection Hin as _ <-.
      rewrite Hlook in Hlook'. by injection Hlook' as <-. }
    assert (key_len ≤ LATENCY_TRACKER_MAX_KEY_SIZE)%Z as Hlen by lia.
    assert (¬ open_deadlocks t key_arg key_len unique) as Hret.
    { intros Hd.
      by rewrite (event_in_spins w a t key_arg key_len thresh_arg cb_arg
                    timeout_arg unique priv_arg env Hlook Hd) in Hin. }
    destruct (event_in_cases w a t key_arg key_len thresh_arg cb_arg
                timeout_arg unique priv_arg env h m Hlook (ok_wf _ _ Hok) Hh
                Hm Hlen (open_returns_lock t key_arg key_len unique Hlen Hret))
      as (t1 & _ & Hr & Hwf1 & Hres).
    pose proof (retired_placed _ _ _ Hr Hpl) as Hpl1.
    destruct (last (events_free_list t1)) as [s|] eqn:Hlast.
    + destruct Hres as (t4 & e & Hres & _ & Hev4 & Hht4 & _).
      rewrite Hres in Hin. injection Hin as _ <-.
      simpl in Hlook'. rewrite lookup_insert_eq in Hlook'.
      injection Hlook' as <-.
      by apply (opened_placed t1 t4 s _ Hwf1 Hpl1 Hlast Hev4).
    + rewrite Hres in Hin. injection Hin as _ <-.
      simpl in Hlook'. rewrite lookup_insert_eq in Hlook'.
      by injection Hlook' as <-.
  - destruct (wrapper_ht_check_event_spec t key_arg key_len id
                (trace_clock_monotonic_wrapper env) (trace w) h m
                (ok_wf _ _ Hok) Hh Hm) as (t1 & Hchk & Hr).
    unfold latency_tracker_event_out in Hout. rewrite Hlook in Hout.
    simpl in Hout. rewrite Hchk in Hout. simpl in Hout.
    assert (trackers w' = <[a := t1]> (trackers w)) as Htrk.
    { repeat case_bool_decide; by simplify_eq. }
    rewrite Htrk, lookup_insert_eq in Hlook'. injection Hlook' as <-.
    by apply (retired_placed _ _ _ Hr).
  - rewrite Hlook in Hlook0. injection Hlook0 as <-.
    unfold latency_tracker_timeout_cb in Hto. rewrite Hlook in Hto.
    simpl in Hto.
    destruct (events t !! ptr) as [data|] eqn:Hdata; [|done].
    simpl in Hto. rewrite lookup_insert_eq in Hto. simpl in Hto.
    destruct (cb data) as [f|]; [|done]. simpl in Hto.
    injection Hto as <-. simpl in Hlook'. rewrite lookup_insert_eq in Hlook'.
    injection Hlook' as <-.
    apply (store_placed _ ptr data); [done|done|].
    by apply (placed_ext t).
  - unfold latency_tracker_gc_cb in Hgc. rewrite Hlook in Hgc. simpl in Hgc.
    assert (¬ sweep_deadlocks t) as Hret.
    { intros [Hspin Hent].
      by rewrite (wrapper_ht_gc_spins t _ _ Hspin Hent) in Hgc. }
    destruct (wrapper_ht_gc_returns t (trace_clock_monotonic_wrapper env)
                (trace w) (ok_wf _ _ Hok) Hret) as (t1 & Hsweep & Hr).
    rewrite Hsweep in Hgc. simpl in Hgc. injection Hgc as <-.
    simpl in Hlook'. rewrite lookup_insert_eq in Hlook'.
    injection Hlook' as <-.
    destruct (enable_gc_fields t1 env)
      as (_ & _ & _ & _ & _ & _ & Hht & _ & Hev).
    apply (placed_ext t1); [done|done|].
    by apply (retired_placed _ _ _ Hr).
  - unfold latency_tracker_set_gc_period in Hset. rewrite Hlook in Hset.
    simpl in Hset. injection Hset as <-.
    simpl in Hlook'. rewrite lookup_insert_eq in Hlook'.
    injection Hlook' as <-.
    destruct (enable_gc_fields (set_gc_period v t) env)
      as (_ & _ & _ & _ & _ & _ & Hht & _ & Hev).
    by apply (placed_ext t).
  - unfold latency_tracker_set_gc_thresh in Hset. rewrite Hlook in Hset.
    simpl in Hset. injection Hset as <-.
    simpl in Hlook'. rewrite lookup_insert_eq in Hlook'.
    injection Hlook' as <-.
    destruct (enable_gc_fields (set_gc_thresh v t) env)
      as (_ & _ & _ & _ & _ & _ & Hht & _ & Hev).
    by apply (placed_ext t).
Qed.

(** ** The invariant through one call and through many *)

Lemma tracker_step_inv C a w w' t :
  hash_min_in_range →
  tracker_step a w w' → trackers w !! a = Some t → tracker_ok C t →
  ∃ t', trackers w' = <[a := t']> (trackers w) ∧ tracker_ok C t' ∧
        tracker_priv t' = tracker_priv t.
Proof.
  intros Hrange Hstep Hlook Hok.
  destruct Hstep as
    [w key_arg key_len thresh_arg cb_arg timeout_arg unique priv_arg env r w'
       Hin
    |w key_arg key_len id env r w' Hout
    |w t0 ptr x w' Hlook0 Hx Hto
    |w t0 x env w' Hlook0 Hx Hgc
    |w v env w' Hset
    |w v env w' Hset].
  - destruct (event_in_keeps_invariant_cases C w a t key_arg key_len
                thresh_arg cb_arg timeout_arg unique priv_arg env Hrange
                Hlook Hok) as [Hdead Hret].
    destruct Hret
      as (r' & t' & calls & Hin' & Hok' & _ & _ & _ & _ & _ & _ & Hpr).
    { intros Hd. by rewrite (Hdead Hd) in Hin. }
    rewrite Hin in Hin'. injection Hin' as _ ->. by exists t'.
  - destruct (event_out_keeps_invariant_cases C w a t key_arg key_len id env
                Hlook Hok)
      as (r' & t' & calls & Hout' & Hok' & _ & _ & _ & _ & _ & Hpr).
    rewrite Hout in Hout'. injection Hout' as _ ->. by exists t'.
  - rewrite Hlook in Hlook0. injection Hlook0 as <-.
    destruct (timeout_cb_on_pending_timer_cases C w a t ptr x Hlook Hok Hx)
      as (e & _ & _ & _ & Hcases).
    destruct (cb e) as [f|].
    + destruct Hcases as (t' & Hto' & Hok' & _ & _ & _ & _ & _ & _ & Hpr).
      rewrite Hto in Hto'. injection Hto' as ->. by exists t'.
    + by rewrite Hto in Hcases.
  - destruct (gc_cb_sweeps_and_rearms_cases C w a t env Hlook Hok)
      as [Hdead Hret].
    destruct Hret as (t' & Hgc' & Hok' & _ & _ & _ & _ & _ & _ & Hpr & _).
    { intros Hd. by rewrite (Hdead Hd) in Hgc. }
    rewrite Hgc in Hgc'. injection Hgc' as ->. by exists t'.
  - destruct (set_gc_rearms_collector_cases w a t v env Hlook)
      as [(t' & Hset' & _ & _ & _ & _ & _ & _ & _ & Hpr & Hok') _].
    rewrite Hset in Hset'. injection Hset' as ->. exists t'.
    split; [done|]. split; [by apply Hok'|done].
  - destruct (set_gc_rearms_collector_cases w a t v env Hlook)
      as [_ (t' & Hset' & _ & _ & _ & _ & _ & _ & _ & Hpr & Hok')].
    rewrite Hset in Hset'. injection Hset' as ->. exists t'.
    split; [done|]. split; [by apply Hok'|done].
Qed.

Lemma tracker_steps_inv C a w w' :
  hash_min_in_range → rtc (tracker_step a) w w' →
  ∀ t, trackers w !! a = Some t → tracker_ok C t → placed t →
  ∃ t', trackers w' !! a = Some t' ∧ tracker_ok C t' ∧ placed t' ∧
        tracker_priv t' = tracker_priv t ∧
        ∀ b, b ≠ a → trackers w' !! b = trackers w !! b.
Proof.
  intros Hrange Hsteps.
  induction Hsteps as [w|w w1 w' Hstep Hsteps IH]; intros t Hlook Hok Hpl.
  - by exists t.
  - destruct (tracker_step_inv C a w w1 t Hrange Hstep Hlook Hok)
      as (t1 & Htrk & Hok1 & Hpr1).
    assert (trackers w1 !! a = Some t1) as Hlook1
      by (by rewrite Htrk, lookup_insert_eq).
    pose proof (tracker_step_placed C a w w1 t t1 Hstep Hlook Hok Hpl Hlook1)
      as Hpl1.
    destruct (IH t1 Hlook1 Hok1 Hpl1) as (t' & Hlook' & Hok' & Hpl' & Hpr'
                                          & Hother).
    exists t'. split; [done|]. split; [done|]. split; [done|].
    split; [by rewrite Hpr'|].
    intros b Hb. rewrite (Hother b Hb), Htrk. by rewrite lookup_insert_ne.
Qed.

(** X16: From latency_tracker_create with the default functions on, let
    calls be made on the tracker one after the other, each run to its end
    before the next starts (opens, closes, timeouts of pending event
    timers, runs of the collector, changes of its settings), in any number
    and order, each of them a call that returns.  Then the tracker satisfies
    the invariant with the capacity it was created with, its table is keyed
    by hkey, its private pointer is the one given to create, and no other
    tracker was touched.  In every such state latency_tracker_event_out
    returns, with any arguments; latency_tracker_event_in returns unless it
    evicts a record where spin locks spin, and then it does not return;
    latency_tracker_gc_cb returns unless the table holds a record where
    spin locks spin, and then it does not return. *)
Theorem tracker_life_keeps_invariant w max_events gp gt pr env avail
    module_ok a w0 w' :
  hash_min_in_range →
  latency_tracker_create w None None max_events gp gt pr env avail module_ok
    = (Some a, w0) →
  rtc (tracker_step a) w0 w' →
  ∃ t, trackers w' !! a = Some t ∧ tracker_ok (capacity max_events) t ∧
       placed t ∧
       latency_tracker_get_priv w' a = Some pr ∧
       (∀ b, b ≠ a → trackers w' !! b = trackers w !! b) ∧
       (∀ key_arg key_len thresh_arg cb_arg timeout_arg unique priv_arg env',
          (open_deadlocks t key_arg key_len unique →
           latency_tracker_event_in w' (Some a) key_arg key_len thresh_arg
             cb_arg timeout_arg unique priv_arg env' = None) ∧
          (¬ open_deadlocks t key_arg key_len unique →
           is_Some (latency_tracker_event_in w' (Some a) key_arg key_len
                      thresh_arg cb_arg timeout_arg unique priv_arg env'))) ∧
       (∀ key_arg key_len id env',
          is_Some (latency_tracker_event_out w' (Some a) key_arg key_len id
                     env')) ∧
       (∀ env',
          (sweep_deadlocks t → latency_tracker_gc_cb w' a env' = None) ∧
          (¬ sweep_deadlocks t →
           is_Some (latency_tracker_gc_cb w' a env'))).
Proof.
  intros Hrange Hcr Hsteps.
  pose proof (create_cases w None None max_events gp gt pr env avail
                module_ok) as (_ & _ & Hsome).
  rewrite Hcr in Hsome. simpl in Hsome.
  destruct (Hsome a eq_refl)
    as (Hfresh & _ & _ & t0 & Htrk & _ & Hent0 & _ & _ & _ & _ & _ & _ & Hpr0
        & _ & _ & _ & Hok0).
  specialize (Hok0 eq_refl eq_refl).
  destruct (tracker_steps_inv (capacity max_events) a w0 w' Hrange Hsteps t0)
    as (t & Hlook & Hok & Hpl & Hpr & Hother);
    [by rewrite Htrk, lookup_insert_eq|done|by apply placed_empty|].
  exists t. split; [done|]. split; [done|]. split; [done|].
  split.
  { unfold latency_tracker_get_priv. rewrite Hlook. simpl.
    by rewrite Hpr, Hpr0. }
  split.
  { intros b Hb. rewrite (Hother b Hb), Htrk. by rewrite lookup_insert_ne. }
  split.
  { intros key_arg key_len thresh_arg cb_arg timeout_arg unique priv_arg env'.
    destruct (event_in_keeps_invariant_cases _ w' a t key_arg key_len
                thresh_arg cb_arg timeout_arg unique priv_arg env' Hrange
                Hlook Hok) as [Hdead Hret].
    split; [done|]. intros Hnd.
    destruct (Hret Hnd) as (r & t' & calls & Hin & _). by rewrite Hin. }
  split.
  { intros key_arg key_len id env'.
    destruct (event_out_keeps_invariant_cases _ w' a t key_arg key_len id env'
                Hlook Hok) as (r & t' & calls & Hout & _).
    by rewrite Hout. }
  intros env'.
  destruct (gc_cb_sweeps_and_rearms_cases _ w' a t env' Hlook Hok)
    as [Hdead Hret].
  split; [done|]. intros Hnd.
  destruct (Hret Hnd) as (t' & Hgc & _). by rewrite Hgc.
Qed.

End life_proofs.

(** ** Calls made from an NMI *)

Section nmi.
Context {PF : platform}.
Implicit Types (t : latency_tracker) (s : nat) (l : list nat) (w : world).

Lemma clock_in_nmi env :
  in_nmi env = true → trace_clock_monotonic_wrapper env = (2 ^ 64 - 5)%Z.
Proof. unfold trace_clock_monotonic_wrapper. by intros ->. Qed.

(** X15: In an NMI trace_clock_monotonic_wrapper returns (u64) -EIO, that is
    2^64 - 5, and latency_tracker_event_out takes this value for the time:
    an event that matches the key is closed with end_ts = 2^64 - 5, and its
    callback is called exactly when its threshold is below
    2^64 - 5 - start_ts, however short the event was open. *)
Theorem close_in_nmi_takes_error_for_time w a t key_arg key_len id env h m s
    e f :
  trackers w !! a = Some t → wf t →
  hash_fct t = Some h → match_fct t = Some m →
  in_nmi env = true →
  s ∈ matching t (h key_arg key_len 0%Z) key_arg key_len →
  events t !! s = Some e → cb e = Some f →
  (0 ≤ start_ts e ≤ 2 ^ 64 - 5)%Z →
  ∃ t' calls,
    latency_tracker_event_out w (Some a) key_arg key_len id env
    = Some (0%Z, mk_world (<[a := t']> (trackers w)) (trace w ++ calls)) ∧
    s ∈ events_free_list t' ∧
    ((thresh e < 2 ^ 64 - 5 - start_ts e)%Z →
     Call f s (set_cb_out_id id
                 (set_cb_flag LATENCY_TRACKER_CB_NORMAL
                    (set_end_ts (2 ^ 64 - 5) e))) ∈ calls) ∧
    ((2 ^ 64 - 5 - start_ts e ≤ thresh e)%Z →
     ∀ c, c ∈ calls → call_ptr c ≠ s).
Proof.
  intros Hlook Hwf Hh Hm Hnmi Hs He Hcb Hstart.
  destruct (wrapper_ht_check_event_spec t key_arg key_len id
              (trace_clock_monotonic_wrapper env) (trace w) h m Hwf Hh Hm)
    as (t' & Hchk & Hr).
  rewrite (clock_in_nmi env Hnmi) in Hchk.
  set (M := matching t (h key_arg key_len 0%Z) key_arg key_len) in *.
  assert (u64 (2 ^ 64 - 5 - start_ts e) = (2 ^ 64 - 5 - start_ts e)%Z) as Hd.
  { unfold u64. apply Z.mod_small. lia. }
  assert (M ≠ []) as HM.
  { intros HM. rewrite HM in Hs. by apply elem_of_nil in Hs. }
  rewrite bool_decide_false in Hchk by done.
  exists t', (M ≫= check_call t id (2 ^ 64 - 5)).
  split.
  { unfold latency_tracker_event_out. rewrite Hlook. simpl.
    by rewrite (clock_in_nmi env Hnmi), Hchk. }
  split.
  { rewrite (retired_free _ _ _ Hr), elem_of_app, elem_of_reverse.
    by left. }
  split.
  - intros Hlt. apply list_elem_of_bind. exists s. split; [|done].
    unfold check_call. rewrite He, Hd. by_value. rewrite Hcb.
    assert ((2 ^ 64 - 5 - start_ts e >? thresh e)%Z = true) as -> by lia.
    by apply list_elem_of_singleton.
  - intros Hge c [s' [Hc Hs']]%list_elem_of_bind Hptr.
    apply check_call_ptr in Hc as Hc'. rewrite Hptr in Hc'. subst s'.
    unfold check_call in Hc. rewrite He, Hd in Hc.
    assert ((2 ^ 64 - 5 - start_ts e >? thresh e)%Z = false) as Hb by lia.
    rewrite Hb in Hc. by apply elem_of_nil in Hc.
Qed.

End nmi.

(** ** A timeout without a callback *)

Section null_callback.
Context {PF : platform}.
Implicit Types (t : latency_tracker) (s : nat) (l : list nat) (w : world).

(** X17: latency_tracker_event_in does not refuse a NULL callback given
    together with a timeout: when such an open returns LATENCY_TRACKER_OK,
    the timer of the new record is pending.  When that timer fires,
    latency_tracker_timeout_cb calls data->cb without testing it, that is,
    through the NULL pointer. *)
Theorem timeout_without_callback_faults C w a t key_arg key_len thresh_arg
    timeout_arg unique priv_arg env w1 :
  hash_min_in_range →
  trackers w !! a = Some t → tracker_ok C t →
  (0 < timeout_arg)%Z →
  latency_tracker_event_in w (Some a) key_arg key_len thresh_arg None
    timeout_arg unique priv_arg env = Some (LATENCY_TRACKER_OK, w1) →
  ∃ t' s,
    trackers w1 !! a = Some t' ∧ tracker_ok C t' ∧
    timers t' !! s
    = Some (u64 (jiffies env + wrapper_nsecs_to_jiffies timeout_arg)) ∧
    latency_tracker_timeout_cb w1 a s = None.
Proof.
  intros Hrange Hlook Hok Hpos Hin.
  destruct (event_in_opened C w a t key_arg key_len thresh_arg None
              timeout_arg unique priv_arg env w1 Hrange Hlook Hok Hin)
    as (h & t1 & t' & s & calls & _ & _ & _ & -> & _ & Hok' & _ & _ & _ & _
        & Hev & Htm & _).
  assert ((timeout_arg >? 0)%Z = true) as Hb by lia. rewrite Hb in Htm.
  exists t', s. split; [simpl; by rewrite lookup_insert_eq|].
  split; [done|]. split; [by rewrite Htm, lookup_insert_eq|].
  unfold latency_tracker_timeout_cb. simpl. rewrite lookup_insert_eq. simpl.
  rewrite Hev, lookup_insert_eq. simpl. by rewrite lookup_insert_eq.
Qed.

End null_callback.

(** ** latency_tracker_event_out in parts, and calls that run in sequence *)

Section parts.
Context {PF : platform}.
Implicit Types (t : latency_tracker) (s : nat) (l : list nat) (w : world).

Local Arguments latency_tracker_event_destroy : simpl never.

Lemma hlist_after_notin n (b : list nat) : n ∉ b → hlist_after n b = None.
Proof.
  induction b as [|x b IH]; intros Hn; [done|]. simpl.
  apply not_elem_of_cons in Hn as [Hne Hn].
  rewrite decide_False by done. by apply IH.
Qed.

Lemma hlist_after_app n (pre l : list nat) :
  n ∉ pre → hlist_after n (pre ++ n :: l) = Some l.
Proof.
  induction pre as [|x pre IH]; intros Hn; simpl.
  - by rewrite decide_True.
  - apply not_elem_of_cons in Hn as [Hne Hn].
    rewrite decide_False by done. by apply IH.
Qed.

Lemma omap_all_none {A B} (f : A → option B) (ls : list A) :
  (∀ i b, ls !! i = Some b → f b = None) → omap f ls = [].
Proof.
  induction ls as [|b ls IH]; intros Hall; [done|]. simpl.
  rewrite (Hall 0 b eq_refl). apply IH.
  intros i b' Hi. by apply (Hall (S i)).
Qed.

Lemma omap_single {A B} (f : A → option B) (ls : list A) i b y :
  ls !! i = Some b → f b = Some y →
  (∀ j b', ls !! j = Some b' → j ≠ i → f b' = None) →
  omap f ls = [y].
Proof.
  revert i. induction ls as [|x ls IH]; intros i Hi Hy Hall; [done|].
  destruct i as [|i]; simpl in Hi.
  - injection Hi as ->. simpl. rewrite Hy. f_equal.
    apply omap_all_none. intros j b' Hj. by apply (Hall (S j)).
  - simpl. rewrite (Hall 0 x eq_refl) by done. apply (IH i); [done|done|].
    intros j b' Hj Hne. apply (Hall (S j)); [done|lia].
Qed.

Lemma NoDup_join_disjoint (ls : list (list nat)) i j b b' x :
  NoDup (mjoin ls) → ls !! i = Some b → ls !! j = Some b' → i ≠ j →
  x ∈ b → x ∉ b'.
Proof.
  revert i j. induction ls as [|y ls IH]; intros i j Hnd Hi Hj Hne Hx Hx';
    [done|].
  simpl in Hnd. apply NoDup_app in Hnd as (Hy & Hdisj & Hls).
  destruct i as [|i]; destruct j as [|j]; simpl in Hi, Hj; simplify_eq.
  - apply (Hdisj x Hx). apply list_elem_of_join. exists b'.
    split; [done|]. by eapply list_elem_of_lookup_2.
  - apply (Hdisj x Hx'). apply list_elem_of_join. exists b.
    split; [done|]. by eapply list_elem_of_lookup_2.
  - apply (IH i j Hls Hi Hj); [lia|done|done].
Qed.

(* in a table without duplicates, the chain from the head of a suffix of
   a bucket is that suffix *)
Lemma chain_from_suffix t k pre l :
  wf t → bucket t k = pre ++ l → chain_from t (head l) = l.
Proof.
  intros Hwf Hb. destruct l as [|n l]; [done|]. simpl.
  unfold bucket in Hb.
  destruct (ht t !! hash_min k) as [b|] eqn:Hlk; simpl in Hb;
    [|by destruct pre].
  subst b.
  destruct (wf_entries t Hwf) as [Hnd _].
  assert (NoDup (pre ++ n :: l)) as Hndb
    by (by eapply NoDup_join_lookup).
  assert (n ∉ pre) as Hpre.
  { apply NoDup_app in Hndb as (_ & Hdisj & _). intros Hin.
    apply (Hdisj n Hin). by left. }
  rewrite (omap_single (hlist_after n) (ht t) (hash_min k) _ l Hlk).
  - done.
  - by apply hlist_after_app.
  - intros j b' Hj Hne. apply hlist_after_notin.
    apply (NoDup_join_disjoint (ht t) (hash_min k) j (pre ++ n :: l) b' n);
      [done|done|done|done|].
    rewrite elem_of_app, elem_of_cons. tauto.
Qed.


Lemma check_walk_parts a key_arg key_len id now k m
    (base : gmap nat latency_tracker) l :
  ∀ fuel t tr found pre,
    wf t → match_fct t = Some m → bucket t k = pre ++ l →
    2 * length l ≤ fuel →
    (r ← check_walk key_arg key_len id now l found (t, tr);
     latency_tracker_event_out_finish fuel
       (mk_world (<[a := r.1.1]> base) r.1.2) a key_arg key_len id now r.2)
    = (r ← for_each (check_visit key_arg key_len id now) l (t, tr, found);
       Some (event_out_ret r.2, mk_world (<[a := r.1.1]> base) r.1.2)).
Proof.
  revert base. induction l as [|s l IH];
    intros base fuel t tr found pre Hwf Hm Hb Hfuel.
  - simpl. by destruct fuel.
  - destruct (proj2 (wf_bucket t k Hwf) s) as [e He].
    { rewrite Hb, elem_of_app, elem_of_cons. tauto. }
    rewrite for_each_cons. simpl. rewrite He, Hm. simpl.
    destruct (bool_decide (m key_arg (key e) key_len ≠ 0%Z)).
    { rewrite bind_Some_l.
      apply (IH base fuel t tr found (pre ++ [s])); [done|done| |simpl in *; lia].
      by rewrite <- (assoc_L (++)). }
    destruct fuel as [|[|fuel]]; [simpl in Hfuel; lia..|].
    assert (∃ t1 tr1 e1,
      (if (u64 (now - start_ts e) >? thresh e)%Z
       then tr1 ← run_cb
                    (store t s
                       (set_cb_out_id id
                          (set_cb_flag LATENCY_TRACKER_CB_NORMAL
                             (set_end_ts now e)))) s tr;
            Some (store t s
                    (set_cb_out_id id
                       (set_cb_flag LATENCY_TRACKER_CB_NORMAL
                          (set_end_ts now e))), tr1)
       else Some (t, tr)) = Some (t1, tr1) ∧
      ht t1 = ht t ∧ events t1 !! s = Some e1 ∧
      ∃ t2, latency_tracker_event_destroy LockFree t1 s = Some t2 ∧
            retired [s] t t2) as (t1 & tr1 & e1 & -> & Hht1 & He1 & t2 & Hd & Hr).
    { destruct (u64 (now - start_ts e) >? thresh e)%Z.
      - unfold run_cb. simpl. rewrite lookup_insert_eq. simpl.
        destruct (destroy_store_spec t s
                    (set_cb_out_id id
                       (set_cb_flag LATENCY_TRACKER_CB_NORMAL
                          (set_end_ts now e)))) as (t2 & Hd & Hr).
        eexists _, _, _. split; [done|]. split; [done|].
        split; [simpl; by rewrite lookup_insert_eq|]. by exists t2.
      - destruct (destroy_spec t s e He) as (t2 & Hd & Hr).
        eexists _, _, _. split; [done|]. split; [done|]. split; [done|].
        by exists t2. }
    rewrite !bind_Some_l. cbn [fst snd]. rewrite Hd. rewrite !bind_Some_l.
    cbn [fst snd latency_tracker_event_out_finish
           latency_tracker_event_out_resume trackers trace].
    rewrite lookup_insert_eq, bind_Some_l, Hd, !bind_Some_l.
    cbn [fst snd latency_tracker_event_out_finish
           latency_tracker_event_out_resume trackers trace].
    rewrite lookup_insert_eq, bind_Some_l.
    assert (wf t2) as Hwf2.
    { apply (retired_wf [s] t t2 Hwf Hr); [apply NoDup_singleton|].
      intros x ->%list_elem_of_singleton.
      apply (elem_of_bucket_entries t k).
      rewrite Hb, elem_of_app, elem_of_cons. tauto. }
    assert (bucket t2 k = pre ++ l) as Hb2.
    { rewrite (retired_bucket _ _ _ _ Hr), Hb.
      destruct (wf_bucket t k Hwf) as [Hnd _]. rewrite Hb in Hnd.
      apply NoDup_app in Hnd as (_ & Hdisj & Hnd).
      apply NoDup_cons in Hnd as [Hs _].
      rewrite filter_app, filter_cons_False
        by (rewrite list_elem_of_singleton; tauto).
      rewrite !filter_all; [done| |].
      - intros x Hx. rewrite list_elem_of_singleton. by intros ->.
      - intros x Hx. rewrite list_elem_of_singleton. intros ->.
        apply (Hdisj s Hx). by left. }
    rewrite (chain_from_suffix t2 k pre l Hwf2 Hb2).
    pose proof (IH (<[a := t2]> (<[a := t1]> base)) fuel t2 tr1 1%Z pre Hwf2)
      as IH'.
    rewrite (retired_match _ _ _ Hr) in IH'.
    specialize (IH' Hm Hb2 ltac:(simpl in Hfuel; lia)).
    etransitivity; [|etransitivity; [exact IH'|]].
    + destruct (check_walk key_arg key_len id now l 1%Z (t2, tr1))
        as [r|]; [|done]. by rewrite !bind_Some_l.
    + destruct (for_each _ l (t2, tr1, 1%Z)) as [r|]; [|done].
      rewrite !bind_Some_l. by rewrite !insert_insert_eq.
Qed.

(** X19: latency_tracker_event_out in parts.  On a tracker that satisfies
    the invariant of the data model, the part of the call up to the first
    point where tracker->lock is free, followed at once by its other
    parts, each run from one such point to the next, with no other call in
    between and fuel for two parts for every record of the bucket, returns
    what latency_tracker_event_out returns and leaves the same world. *)
Theorem event_out_in_parts w a t key_arg key_len id env h m fuel :
  trackers w !! a = Some t → wf t →
  hash_fct t = Some h → match_fct t = Some m →
  2 * length (bucket t (h key_arg key_len 0%Z)) ≤ fuel →
  (r ← latency_tracker_event_out_begin w a key_arg key_len id env;
   latency_tracker_event_out_finish fuel r.1 a key_arg key_len id
     (trace_clock_monotonic_wrapper env) r.2)
  = latency_tracker_event_out w (Some a) key_arg key_len id env.
Proof.
  intros Hlook Hwf Hh Hm Hfuel.
  unfold latency_tracker_event_out_begin, latency_tracker_event_out,
    wrapper_ht_check_event.
  rewrite Hlook, !bind_Some_l, Hh, !bind_Some_l. cbv zeta.
  pose proof (check_walk_parts a key_arg key_len id
                (trace_clock_monotonic_wrapper env) (h key_arg key_len 0%Z) m
                (trackers w) _ fuel t (trace w) 0%Z [] Hwf Hm eq_refl Hfuel)
    as Hparts.
  etransitivity; [|etransitivity; [exact Hparts|]].
  - destruct (check_walk _ _ _ _ _ _ _) as [r|]; [|done].
    by rewrite !bind_Some_l.
  - destruct (for_each _ _ _) as [[[t' tr'] found]|]; [|done].
    rewrite !bind_Some_l. unfold event_out_ret. simpl.
    by case_bool_decide.
Qed.

(** ** Retirement by calls that run one after the other *)

(** X18: when the calls on a tracker run one after the other, each to its
    end, a record is retired once per lifetime of an event.  On a tracker
    that satisfies the invariant of the data model: (1)
    latency_tracker_event_destroy, called with the lock free for a record
    that is in the table, takes it out of the table and puts it in the pool,
    and the invariant still holds, so the record is in the pool once; (2) a
    walk of wrapper_ht_check_event and of wrapper_ht_clear, and where they
    return a sweep of the collector and a duplicate check, only retire
    records they find in the table: a record that is in the pool stays
    there, unchanged and without any callback; (3) after a close, a later
    close of the same key returns -1 (not found) and changes nothing; (4)
    after a run of the collector that returned, any later close returns -1
    and changes nothing. *)
Theorem retirement_once_in_sequence w a t h m :
  trackers w !! a = Some t → wf t →
  hash_fct t = Some h → match_fct t = Some m →
  (∀ s, s ∈ ht_entries t →
     ∃ t', latency_tracker_event_destroy LockFree t s = Some t' ∧ wf t' ∧
           (s ∉ ht_entries t') ∧ s ∈ events_free_list t') ∧
  (∀ p, p ∈ events_free_list t →
     (∀ key_arg key_len id now tr, ∃ t' calls found,
        wrapper_ht_check_event t key_arg key_len id now tr
          = Some (t', tr ++ calls, found) ∧ untouched p t t' calls) ∧
     (∀ now tr, ¬ sweep_deadlocks t →
        ∃ t' calls,
          wrapper_ht_gc LockHeld t now tr = Some (t', tr ++ calls) ∧
          untouched p t t' calls) ∧
     (∀ key_arg key_len tr,
        spin_lock_spins = false ∨
          matching t (h key_arg (u32 key_len) 0%Z) key_arg key_len = [] →
        ∃ t' calls,
          wrapper_ht_unique_check LockHeld t key_arg key_len tr
            = Some (t', tr ++ calls) ∧ untouched p t t' calls) ∧
     (∃ n t', wrapper_ht_clear t = Some (n, t') ∧ untouched p t t' [])) ∧
  (∀ key_arg key_len id env r w1,
     latency_tracker_event_out w (Some a) key_arg key_len id env
       = Some (r, w1) →
     ∀ id' env',
       latency_tracker_event_out w1 (Some a) key_arg key_len id' env'
         = Some ((-1)%Z, w1)) ∧
  (∀ env w1,
     latency_tracker_gc_cb w a env = Some w1 →
     ∀ key_arg key_len id' env',
       latency_tracker_event_out w1 (Some a) key_arg key_len id' env'
         = Some ((-1)%Z, w1)).
Proof.
  intros Hlook Hwf Hh Hm. split; [|split; [|split]].
  - intros s Hs. destruct (wf_entries t Hwf) as [_ Hal].
    destruct (Hal s Hs) as [e He].
    destruct (destroy_spec t s e He) as (t' & Hd & Hr).
    exists t'. split; [done|]. split; [|split].
    + apply (retired_wf [s] t t' Hwf Hr); [apply NoDup_singleton|].
      by intros x ->%list_elem_of_singleton.
    + rewrite (retired_entries _ _ _ Hr), list_elem_of_filter.
      rewrite list_elem_of_singleton. tauto.
    + rewrite (retired_free _ _ _ Hr). by left.
  - intros p Hp. split; [|split; [|split]].
    + intros key_arg key_len id now tr.
      destruct (wrapper_ht_check_event_spec t key_arg key_len id now tr h m
                  Hwf Hh Hm) as (t' & Hchk & Hr).
      eexists t', _, _. split; [exact Hchk|].
      apply (retired_untouched _ t t' p _ Hwf Hr).
      * by apply matching_NoDup.
      * intros s. apply matching_entries.
      * done.
      * intros c. apply bind_call_ptr. intros s c'. apply check_call_ptr.
    + intros now tr Hret.
      destruct (wrapper_ht_gc_returns t now tr Hwf Hret) as (t' & Hgc & Hr).
      eexists t', _. split; [exact Hgc|].
      apply (retired_untouched _ t t' p _ Hwf Hr).
      * by apply wf_entries.
      * done.
      * done.
      * intros c. apply bind_call_ptr. intros s c'. apply gc_call_ptr.
    + intros key_arg key_len tr Hlk.
      destruct (wrapper_ht_unique_check_spec LockHeld t key_arg key_len tr h
                  m Hwf Hh Hm) as (t' & Hchk & Hr).
      { destruct Hlk as [Hspin|HM]; [left; by apply lock_held_returns|].
        by right. }
      eexists t', _. split; [exact Hchk|].
      apply (retired_untouched _ t t' p _ Hwf Hr).
      * apply take_1_NoDup.
      * intros s Hs%take_1_sub. by eapply matching_entries.
      * done.
      * intros c. apply bind_call_ptr. intros s c'. apply unique_call_ptr.
    + destruct (wrapper_ht_clear_spec t Hwf) as (t' & Hclear & Hr).
      eexists _, t'. split; [exact Hclear|].
      apply (retired_untouched _ t t' p _ Hwf Hr).
      * by apply wf_entries.
      * done.
      * done.
      * by intros c ?%elem_of_nil.
  - intros key_arg key_len id env r w1 Hout id' env'.
    destruct (wrapper_ht_check_event_spec t key_arg key_len id
                (trace_clock_monotonic_wrapper env) (trace w) h m Hwf Hh Hm)
      as (t' & Hchk & Hr).
    unfold latency_tracker_event_out in Hout. rewrite Hlook in Hout.
    simpl in Hout. rewrite Hchk in Hout. simpl in Hout.
    assert (w1 = mk_world (<[a := t']> (trackers w))
                   (trace w ++ (matching t (h key_arg key_len 0%Z) key_arg
                                  key_len
                                ≫= check_call t id
                                     (trace_clock_monotonic_wrapper env))))
      as ->.
    { repeat case_bool_decide; by simplify_eq. }
    apply (event_out_nothing _ a t' key_arg key_len id' env' h m).
    + simpl. by rewrite lookup_insert_eq.
    + apply (retired_wf _ t t' Hwf Hr); [by apply matching_NoDup|].
      intros s. apply matching_entries.
    + by rewrite (retired_hash _ _ _ Hr).
    + by rewrite (retired_match _ _ _ Hr).
    + by apply (matching_after_close t).
  - intros env w1 Hgc key_arg key_len id' env'.
    unfold latency_tracker_gc_cb in Hgc. rewrite Hlook in Hgc.
    simpl in Hgc.
    assert (¬ sweep_deadlocks t) as Hret.
    { intros [Hspin Hent].
      by rewrite (wrapper_ht_gc_spins t _ _ Hspin Hent) in Hgc. }
    destruct (wrapper_ht_gc_returns t (trace_clock_monotonic_wrapper env)
                (trace w) Hwf Hret) as (t' & Hsweep & Hr).
    rewrite Hsweep in Hgc. simpl in Hgc. simplify_eq.
    destruct (enable_gc_fields t' env)
      as (_ & _ & Hh' & Hm' & _ & _ & Hht' & Hfree' & Hev').
    assert (wf t') as Hwf'.
    { apply (retired_wf _ t t' Hwf Hr); [by apply wf_entries|done]. }
    apply (event_out_nothing _ a (latency_tracker_enable_gc t' env)
             key_arg key_len id' env' h m).
    + simpl. by rewrite lookup_insert_eq.
    + destruct Hwf' as [Hnd Hal Hsz]. constructor.
      * unfold ht_entries. by rewrite Hht', Hfree'.
      * unfold ht_entries. rewrite Hht', Hfree', Hev'. apply Hal.
      * by rewrite Hht'.
    + by rewrite Hh', (retired_hash _ _ _ Hr).
    + by rewrite Hm', (retired_match _ _ _ Hr).
    + apply matching_empty_table. unfold ht_entries. rewrite Hht'.
      by apply (entries_after_all t).
Qed.

End parts.

(** ** Checking the whole invariant on a given tracker *)

#[global] Instance latency_tracker_cb_flag_eq_dec :
  EqDecision latency_tracker_cb_flag.
Proof. solve_decision. Defined.

#[global] Instance latency_tracker_event_eq_dec :
  EqDecision latency_tracker_event.
Proof. solve_decision. Defined.

Section checking.
Context {PF : platform}.

Lemma tracker_ok_iff C t :
  tracker_ok C t ↔
  wf t ∧ usable t ∧
  length (ht_entries t) + length (events_free_list t) = C ∧
  pool_zeroed t ∧
  map_Forall (λ s _, s ∈ ht_entries t ∧
                     ∃ e, events t !! s = Some e ∧ (0 < timeout e)%Z)
    (timers t) ∧
  records_owned t.
Proof.
  split.
  - intros [? ? ? ? Htm ?]. do 4 (split; [done|]). split; [|done].
    intros s x Hs. destruct (Htm s x Hs) as [Hin He]. split; [done|].
    destruct (events t !! s) as [e|]; [by exists e|done].
  - intros (? & ? & ? & ? & Htm & ?). constructor; try done.
    intros s x Hs. destruct (Htm s x Hs) as (Hin & e & He & Hpos).
    split; [done|]. by rewrite He.
Qed.

#[global] Instance timer_record_dec t s :
  Decision (∃ e, events t !! s = Some e ∧ (0 < timeout e)%Z).
Proof.
  destruct (events t !! s) as [e|].
  - destruct (decide (0 < timeout e)%Z) as [Hp|Hn].
    + left. by exists e.
    + right. intros (e' & [= <-] & Hp). done.
  - right. by intros (e' & [=] & _).
Defined.

#[global] Instance tracker_ok_dec C t : Decision (tracker_ok C t).
Proof.
  refine (cast_if (decide
    (wf t ∧ usable t ∧
     length (ht_entries t) + length (events_free_list t) = C ∧
     pool_zeroed t ∧
     map_Forall (λ s _, s ∈ ht_entries t ∧
                        ∃ e, events t !! s = Some e ∧ (0 < timeout e)%Z)
       (timers t) ∧
     records_owned t))); by rewrite tracker_ok_iff.
Defined.

End checking.

(** ** These theorems at given inputs *)

Lemma demo_up_hash_min_in_range : hash_min_in_range (PF := demo_platform_up).
Proof. intros k. simpl. pose proof (Z.mod_pos_bound k 4). lia. Defined.

Lemma demo_w1_evicts :
  evicts (PF := demo_platform) (demo_tracker demo_w1) demo_k1 3 1.
Proof.
  split; [lia|]. exists demo_jhash. split; [vm_compute; reflexivity|].
  assert (matching (PF := demo_platform) (demo_tracker demo_w1)
            (demo_jhash demo_k1 (u32 3) 0) demo_k1 3 = [0]) as ->
    by (vm_compute; reflexivity).
  discriminate.
Defined.

Lemma event_in_keeps_invariant_witness :
  (hash_min_in_range (PF := demo_platform) ∧
   trackers demo_w1 !! 0 = Some (demo_tracker demo_w1) ∧
   tracker_ok (PF := demo_platform) 2 (demo_tracker demo_w1) ∧
   open_deadlocks (PF := demo_platform) (demo_tracker demo_w1) demo_k1 3 1 ∧
   latency_tracker_event_in (PF := demo_platform) demo_w1 (Some 0) demo_k1 3
     6 (Some 7) 0 1 0 (demo_env 20) = None) ∧
  (hash_min_in_range (PF := demo_platform_up) ∧
   tracker_ok (PF := demo_platform_up) 2 (demo_tracker demo_w1) ∧
   ¬ open_deadlocks (PF := demo_platform_up) (demo_tracker demo_w1) demo_k1 3
       1 ∧
   ∃ r t' calls,
     latency_tracker_event_in (PF := demo_platform_up) demo_w1 (Some 0)
       demo_k1 3 6 (Some 7) 0 1 0 (demo_env 20)
     = Some (r, mk_world (<[0 := t']> (trackers demo_w1))
                  (trace demo_w1 ++ calls)) ∧
     tracker_ok (PF := demo_platform_up) 2 t').
Proof.
  assert (trackers demo_w1 !! 0 = Some (demo_tracker demo_w1)) as H1
    by (vm_compute; reflexivity).
  split.
  - assert (tracker_ok (PF := demo_platform) 2 (demo_tracker demo_w1)) as H2
      by (apply (bool_decide_unpack _); vm_compute; exact I).
    assert (open_deadlocks (PF := demo_platform) (demo_tracker demo_w1)
              demo_k1 3 1) as H3.
    { split; [reflexivity|]. split; [simpl; lia|exact demo_w1_evicts]. }
    split; [exact demo_hash_min_in_range|]. split; [exact H1|].
    split; [exact H2|]. split; [exact H3|].
    exact (proj1 (event_in_keeps_invariant (PF := demo_platform) 2 demo_w1 0 _
                    demo_k1 3 6 (Some 7) 0 1 0 (demo_env 20)
                    demo_hash_min_in_range H1 H2) H3).
  - assert (tracker_ok (PF := demo_platform_up) 2 (demo_tracker demo_w1))
      as H2 by (apply (bool_decide_unpack _); vm_compute; exact I).
    assert (¬ open_deadlocks (PF := demo_platform_up) (demo_tracker demo_w1)
                demo_k1 3 1) as H3.
    { intros [Hspin _]. discriminate Hspin. }
    split; [exact demo_up_hash_min_in_range|]. split; [exact H2|].
    split; [exact H3|].
    destruct (proj2 (event_in_keeps_invariant (PF := demo_platform_up) 2
                       demo_w1 0 _ demo_k1 3 6 (Some 7) 0 1 0 (demo_env 20)
                       demo_up_hash_min_in_range H1 H2) H3)
      as (r & t' & calls & Hin & Hok & _).
    exists r, t', calls. split; [exact Hin|exact Hok].
Defined.

Lemma open_fills_cleared_record_witness :
  hash_min_in_range (PF := demo_platform) ∧
  trackers (demo_created 2) !! 0 = Some (demo_tracker (demo_created 2)) ∧
  tracker_ok (PF := demo_platform) 2 (demo_tracker (demo_created 2)) ∧
  latency_tracker_event_in (PF := demo_platform) (demo_created 2) (Some 0)
    demo_k1 3 6 (Some 7) 0 0 0 (demo_env 10)
  = Some (LATENCY_TRACKER_OK, demo_w1) ∧
  ∃ h t' s,
    hash_fct (demo_tracker (demo_created 2)) = Some h ∧
    trackers demo_w1 !! 0 = Some t' ∧
    last (events_free_list (demo_tracker (demo_created 2))) = Some s ∧
    events t' !! s
    = Some (mk_event (h demo_k1 (u32 3) 0%Z)
              (take (Z.to_nat 3) demo_k1
               ++ replicate
                    (Z.to_nat (@LATENCY_TRACKER_MAX_KEY_SIZE demo_platform)
                     - Z.to_nat 3) 0%Z)
              (trace_clock_monotonic_wrapper (demo_env 10)) 0 6 0 (Some 7) 0
              LATENCY_TRACKER_CB_NONE 0).
Proof.
  assert (trackers (demo_created 2) !! 0
          = Some (demo_tracker (demo_created 2))) as H1
    by (vm_compute; reflexivity).
  assert (tracker_ok (PF := demo_platform) 2
            (demo_tracker (demo_created 2))) as H2
    by (apply (bool_decide_unpack _); vm_compute; exact I).
  assert (latency_tracker_event_in (PF := demo_platform) (demo_created 2)
            (Some 0) demo_k1 3 6 (Some 7) 0 0 0 (demo_env 10)
          = Some (LATENCY_TRACKER_OK, demo_w1)) as H3
    by (vm_compute; reflexivity).
  split; [exact demo_hash_min_in_range|]. split; [exact H1|].
  split; [exact H2|]. split; [exact H3|].
  destruct (open_fills_cleared_record (PF := demo_platform) 2 (demo_created 2)
              0 _ demo_k1 3 6 (Some 7) 0 0 (demo_env 10) demo_w1
              demo_hash_min_in_range H1 H2 H3)
    as (h & t' & s & Hh & Hlook & Hlast & _ & _ & He & _).
  exists h, t', s. split; [exact Hh|]. split; [exact Hlook|].
  split; [exact Hlast|exact He].
Defined.

Lemma event_out_keeps_invariant_witness :
  trackers demo_w1 !! 0 = Some (demo_tracker demo_w1) ∧
  tracker_ok (PF := demo_platform) 2 (demo_tracker demo_w1) ∧
  ∃ r t' calls,
    latency_tracker_event_out (PF := demo_platform) demo_w1 (Some 0) demo_k1 3
      0 (demo_env 30)
    = Some (r, mk_world (<[0 := t']> (trackers demo_w1))
                 (trace demo_w1 ++ calls)) ∧
    tracker_ok (PF := demo_platform) 2 t' ∧ (r = 0%Z ∨ r = (-1)%Z).
Proof.
  assert (trackers demo_w1 !! 0 = Some (demo_tracker demo_w1)) as H1
    by (vm_compute; reflexivity).
  assert (tracker_ok (PF := demo_platform) 2 (demo_tracker demo_w1)) as H2
    by (apply (bool_decide_unpack _); vm_compute; exact I).
  split; [exact H1|]. split; [exact H2|].
  destruct (event_out_keeps_invariant (PF := demo_platform) 2 demo_w1 0 _
              demo_k1 3 0 (demo_env 30) H1 H2)
    as (r & t' & calls & Hout & Hok & Hr & _).
  exists r, t', calls. split; [exact Hout|]. split; [exact Hok|exact Hr].
Defined.

Lemma open_then_close_witness :
  hash_min_in_range (PF := demo_platform) ∧
  trackers (demo_created 2) !! 0 = Some (demo_tracker (demo_created 2)) ∧
  tracker_ok (PF := demo_platform) 2 (demo_tracker (demo_created 2)) ∧
  match_fct (demo_tracker (demo_created 2)) = Some memcmp ∧
  (0 ≤ 3 < 2 ^ 32)%Z ∧ Z.to_nat 3 ≤ length demo_k1 ∧
  latency_tracker_event_in (PF := demo_platform) (demo_created 2) (Some 0)
    demo_k1 3 6 (Some 7) 0 0 0 (demo_env 10)
  = Some (LATENCY_TRACKER_OK, demo_w1) ∧
  ∃ (s : nat) t2 calls,
    latency_tracker_event_out (PF := demo_platform) demo_w1 (Some 0) demo_k1 3
      0 (demo_env 30)
    = Some (0%Z, mk_world (<[0 := t2]> (trackers demo_w1))
                   (trace demo_w1 ++ calls)) ∧
    s ∈ events_free_list t2 ∧
    events t2 !! s = Some (zero_event (PF := demo_platform)).
Proof.
  assert (trackers (demo_created 2) !! 0
          = Some (demo_tracker (demo_created 2))) as H1
    by (vm_compute; reflexivity).
  assert (tracker_ok (PF := demo_platform) 2
            (demo_tracker (demo_created 2))) as H2
    by (apply (bool_decide_unpack _); vm_compute; exact I).
  assert (match_fct (demo_tracker (demo_created 2)) = Some memcmp) as H3
    by (vm_compute; reflexivity).
  assert ((0 ≤ 3 < 2 ^ 32)%Z) as H4 by lia.
  assert (Z.to_nat 3 ≤ length demo_k1) as H5 by (simpl; lia).
  assert (latency_tracker_event_in (PF := demo_platform) (demo_created 2)
            (Some 0) demo_k1 3 6 (Some 7) 0 0 0 (demo_env 10)
          = Some (LATENCY_TRACKER_OK, demo_w1)) as H6
    by (vm_compute; reflexivity).
  split; [exact demo_hash_min_in_range|]. split; [exact H1|].
  split; [exact H2|]. split; [exact H3|]. split; [exact H4|].
  split; [exact H5|]. split; [exact H6|].
  destruct (open_then_close (PF := demo_platform) 2 (demo_created 2) 0 _
              demo_k1 3 6 (Some 7) 0 0 0 (demo_env 10) demo_w1 0 (demo_env 30)
              demo_hash_min_in_range H1 H2 H3 H4 H5 H6)
    as (h & t1 & s & t2 & rest & _ & _ & _ & Hout & _ & _ & Hs & _ & Hz & _).
  exists s, t2. eexists. split; [exact Hout|]. split; [exact Hs|exact Hz].
Defined.


Lemma gc_cb_sweeps_and_rearms_witness :
  (trackers demo_g1 !! 0 = Some (demo_tracker demo_g1) ∧
   tracker_ok (PF := demo_platform) 2 (demo_tracker demo_g1) ∧
   sweep_deadlocks (PF := demo_platform) (demo_tracker demo_g1) ∧
   latency_tracker_gc_cb (PF := demo_platform) demo_g1 0 (demo_env 500)
   = None) ∧
  (tracker_ok (PF := demo_platform_up) 2 (demo_tracker demo_g1) ∧
   ¬ sweep_deadlocks (PF := demo_platform_up) (demo_tracker demo_g1) ∧
   ∃ t',
     latency_tracker_gc_cb (PF := demo_platform_up) demo_g1 0 (demo_env 500)
     = Some (mk_world (<[0 := t']> (trackers demo_g1))
               [Call 7 0
                  (mk_event 6 [1; 2; 3; 0; 0; 0; 0; 0]%Z 10 500 6 0 (Some 7)
                     0 LATENCY_TRACKER_CB_GC 0)]) ∧
     ht_entries t' = [] ∧ length (events_free_list t') = 2 ∧ timers t' = ∅ ∧
     gc_timer t' = Some 1%Z).
Proof.
  assert (trackers demo_g1 !! 0 = Some (demo_tracker demo_g1)) as H1
    by (vm_compute; reflexivity).
  split.
  - assert (tracker_ok (PF := demo_platform) 2 (demo_tracker demo_g1)) as H2
      by (apply (bool_decide_unpack _); vm_compute; exact I).
    assert (sweep_deadlocks (PF := demo_platform) (demo_tracker demo_g1))
      as H3.
    { split; [reflexivity|].
      assert (ht_entries (demo_tracker demo_g1) = [0]) as ->
        by (vm_compute; reflexivity).
      discriminate. }
    split; [exact H1|]. split; [exact H2|]. split; [exact H3|].
    exact (proj1 (gc_cb_sweeps_and_rearms (PF := demo_platform) 2 demo_g1 0 _
                    (demo_env 500) H1 H2) H3).
  - assert (tracker_ok (PF := demo_platform_up) 2 (demo_tracker demo_g1))
      as H2 by (apply (bool_decide_unpack _); vm_compute; exact I).
    assert (¬ sweep_deadlocks (PF := demo_platform_up)
                (demo_tracker demo_g1)) as H3.
    { intros [Hspin _]. discriminate Hspin. }
    assert (trace demo_g1
            ++ (ht_entries (demo_tracker demo_g1)
                ≫= gc_call (demo_tracker demo_g1)
                     (trace_clock_monotonic_wrapper (demo_env 500)))
            = [Call 7 0
                 (mk_event 6 [1; 2; 3; 0; 0; 0; 0; 0]%Z 10 500 6 0 (Some 7)
                    0 LATENCY_TRACKER_CB_GC 0)]) as H4
      by (vm_compute; reflexivity).
    assert ((if bool_decide (gc_period (demo_tracker demo_g1) = 0%Z
                             ∨ gc_thresh (demo_tracker demo_g1) = 0%Z)
             then None
             else Some (u64 (jiffies (demo_env 500)
                             + @wrapper_nsecs_to_jiffies demo_platform_up
                                 (gc_period (demo_tracker demo_g1)))))
            = Some 1%Z) as H5
      by (vm_compute; reflexivity).
    split; [exact H2|]. split; [exact H3|].
    pose proof (proj2 (gc_cb_sweeps_and_rearms (PF := demo_platform_up) 2
                         demo_g1 0 _ (demo_env 500) H1 H2) H3) as H.
    cbv zeta in H. rewrite H4, H5 in H.
    destruct H as (t' & Hgc & _ & Hent & Hlen & Htm & Hgt & _).
    exists t'. split; [exact Hgc|]. split; [exact Hent|].
    split; [exact Hlen|]. split; [exact Htm|exact Hgt].
Defined.

Lemma timeout_cb_on_pending_timer_witness :
  trackers demo_wt !! 0 = Some (demo_tracker demo_wt) ∧
  tracker_ok (PF := demo_platform) 2 (demo_tracker demo_wt) ∧
  timers (demo_tracker demo_wt) !! 0 = Some 5000%Z ∧
  ∃ e, events (demo_tracker demo_wt) !! 0 = Some e ∧
       0 ∈ ht_entries (demo_tracker demo_wt) ∧ (0 < timeout e)%Z.
Proof.
  assert (trackers demo_wt !! 0 = Some (demo_tracker demo_wt)) as H1
    by (vm_compute; reflexivity).
  assert (tracker_ok (PF := demo_platform) 2 (demo_tracker demo_wt)) as H2
    by (apply (bool_decide_unpack _); vm_compute; exact I).
  assert (timers (demo_tracker demo_wt) !! 0 = Some 5000%Z) as H3
    by (vm_compute; reflexivity).
  split; [exact H1|]. split; [exact H2|]. split; [exact H3|].
  destruct (timeout_cb_on_pending_timer (PF := demo_platform) 2 demo_wt 0 _ 0
              5000%Z H1 H2 H3) as (e & He & Hin & Hpos & _).
  exists e. split; [exact He|]. split; [exact Hin|exact Hpos].
Defined.


Lemma destroy_releases_everything_witness :
  trackers demo_w2 !! 0 = Some (demo_tracker demo_w2) ∧
  tracker_ok (PF := demo_platform) 2 (demo_tracker demo_w2) ∧
  latency_tracker_destroy (PF := demo_platform) demo_w2 0
  = Some (Z.of_nat (length (ht_entries (demo_tracker demo_w2))),
          mk_world (delete 0 (trackers demo_w2)) (trace demo_w2)).
Proof.
  assert (trackers demo_w2 !! 0 = Some (demo_tracker demo_w2)) as H1
    by (vm_compute; reflexivity).
  assert (tracker_ok (PF := demo_platform) 2 (demo_tracker demo_w2)) as H2
    by (apply (bool_decide_unpack _); vm_compute; exact I).
  split; [exact H1|]. split; [exact H2|].
  destruct (destroy_releases_everything (PF := demo_platform) 2 demo_w2 0 _
              H1 H2) as (t1 & _ & _ & _ & _ & _ & _ & _ & Hd).
  exact Hd.
Defined.

Lemma rhashtable_check_event_spins_on_collision_witness :
  wf (PF := demo_platform) (demo_tracker demo_w14) ∧
  hash_fct (demo_tracker demo_w14) = Some demo_jhash ∧
  match_fct (demo_tracker demo_w14) = Some memcmp ∧
  RHASHTABLE.same_hash (PF := demo_platform) (demo_tracker demo_w14)
    (demo_jhash demo_k1 3 0) = [1; 0] ∧
  key_matches (demo_tracker demo_w14) demo_k1 3 1 = false ∧
  ∀ fuel,
    RHASHTABLE.wrapper_ht_check_event (PF := demo_platform) fuel
      (demo_tracker demo_w14) demo_k1 3 0 30 [] = None.
Proof.
  assert (wf (PF := demo_platform) (demo_tracker demo_w14)) as H1
    by (apply (bool_decide_unpack _); vm_compute; exact I).
  assert (hash_fct (demo_tracker demo_w14) = Some demo_jhash) as H2
    by (vm_compute; reflexivity).
  assert (match_fct (demo_tracker demo_w14) = Some memcmp) as H3
    by (vm_compute; reflexivity).
  assert (RHASHTABLE.same_hash (PF := demo_platform) (demo_tracker demo_w14)
            (demo_jhash demo_k1 3 0) = [1; 0]) as H4
    by (vm_compute; reflexivity).
  assert (key_matches (demo_tracker demo_w14) demo_k1 3 1 = false) as H5
    by (vm_compute; reflexivity).
  split; [exact H1|]. split; [exact H2|]. split; [exact H3|].
  split; [exact H4|]. split; [exact H5|].
  destruct (rhashtable_check_event_spins_on_collision (PF := demo_platform)
              (demo_tracker demo_w14) demo_k1 3 0 30 [] demo_jhash memcmp
              H1 H2 H3) as [_ Hspin].
  apply Hspin. rewrite H4. intros HF.
  apply Forall_cons in HF as [HF _]. rewrite H5 in HF. exact HF.
Defined.


Lemma demo16_hash_min_in_range : hash_min_in_range (PF := demo_platform16).
Proof. intros k. simpl. pose proof (Z.mod_pos_bound k 4). lia. Defined.

Lemma test_tracker_outcome_witness :
  hash_min_in_range (PF := demo_platform16) ∧
  ∃ w', test_tracker (PF := demo_platform16) demo_w0 demo_clock 200 true
        = Some (0%Z, w') ∧
        trackers w' = ∅ ∧
        flags (trace w')
        = [(0, LATENCY_TRACKER_CB_NORMAL); (1, LATENCY_TRACKER_CB_NORMAL)] ∧
        latency_tracker_init (PF := demo_platform16) demo_w0 demo_clock 200
          true 0 = Some (0%Z, w').
Proof.
  split; [exact demo16_hash_min_in_range|].
  destruct (test_tracker_outcome (PF := demo_platform16) demo_w0 demo_clock
              200 true demo16_hash_min_in_range) as [Ht Hi].
  eexists. split; [exact Ht|]. split; [vm_compute; reflexivity|].
  split; [vm_compute; reflexivity|]. exact (Hi 0%Z).
Defined.

Lemma close_in_nmi_takes_error_for_time_witness :
  trackers demo_w1 !! 0 = Some (demo_tracker demo_w1) ∧
  wf (PF := demo_platform) (demo_tracker demo_w1) ∧
  hash_fct (demo_tracker demo_w1) = Some demo_jhash ∧
  match_fct (demo_tracker demo_w1) = Some memcmp ∧
  in_nmi demo_nmi = true ∧
  matching (PF := demo_platform) (demo_tracker demo_w1)
    (demo_jhash demo_k1 3 0) demo_k1 3 = [0] ∧
  events (demo_tracker demo_w1) !! 0 = Some (demo_event demo_w1 0) ∧
  cb (demo_event demo_w1 0) = Some 7 ∧
  start_ts (demo_event demo_w1 0) = 10%Z ∧
  thresh (demo_event demo_w1 0) = 6%Z ∧
  ∃ t' calls,
    latency_tracker_event_out (PF := demo_platform) demo_w1 (Some 0) demo_k1 3
      0 demo_nmi
    = Some (0%Z, mk_world (<[0 := t']> (trackers demo_w1))
                   (trace demo_w1 ++ calls)) ∧
    Call 7 0 (set_cb_out_id 0
                (set_cb_flag LATENCY_TRACKER_CB_NORMAL
                   (set_end_ts (2 ^ 64 - 5) (demo_event demo_w1 0))))
      ∈ calls.
Proof.
  assert (trackers demo_w1 !! 0 = Some (demo_tracker demo_w1)) as H1
    by (vm_compute; reflexivity).
  assert (wf (PF := demo_platform) (demo_tracker demo_w1)) as H2
    by (apply (bool_decide_unpack _); vm_compute; exact I).
  assert (hash_fct (demo_tracker demo_w1) = Some demo_jhash) as H3
    by (vm_compute; reflexivity).
  assert (match_fct (demo_tracker demo_w1) = Some memcmp) as H4
    by (vm_compute; reflexivity).
  assert (in_nmi demo_nmi = true) as H5 by reflexivity.
  assert (matching (PF := demo_platform) (demo_tracker demo_w1)
            (demo_jhash demo_k1 3 0) demo_k1 3 = [0]) as H6
    by (vm_compute; reflexivity).
  assert (0 ∈ matching (PF := demo_platform) (demo_tracker demo_w1)
                (demo_jhash demo_k1 3 0) demo_k1 3) as H6'
    by (rewrite H6; left).
  assert (events (demo_tracker demo_w1) !! 0 = Some (demo_event demo_w1 0))
    as H7 by (vm_compute; reflexivity).
  assert (cb (demo_event demo_w1 0) = Some 7) as H8
    by (vm_compute; reflexivity).
  assert (start_ts (demo_event demo_w1 0) = 10%Z) as H9
    by (vm_compute; reflexivity).
  assert (thresh (demo_event demo_w1 0) = 6%Z) as H10
    by (vm_compute; reflexivity).
  assert ((0 ≤ start_ts (demo_event demo_w1 0) ≤ 2 ^ 64 - 5)%Z) as H9'
    by (rewrite H9; lia).
  do 10 (split; [assumption|]).
  destruct (close_in_nmi_takes_error_for_time (PF := demo_platform) demo_w1 0
              _ demo_k1 3 0 demo_nmi demo_jhash memcmp 0 _ 7 H1 H2 H3 H4 H5
              H6' H7 H8 H9') as (t' & calls & Hout & _ & Hcall & _).
  exists t', calls. split; [exact Hout|]. apply Hcall.
  rewrite H9, H10. lia.
Defined.

Lemma tracker_life_keeps_invariant_witness :
  hash_min_in_range (PF := demo_platform) ∧
  latency_tracker_create (PF := demo_platform) demo_w0 None None 2 0 0 0
    (demo_env 0) 200 true = (Some 0, demo_created 2) ∧
  rtc (tracker_step (PF := demo_platform) 0) (demo_created 2) demo_w2 ∧
  ∃ t, trackers demo_w2 !! 0 = Some t ∧
       tracker_ok (PF := demo_platform) (capacity 2) t ∧
       placed (PF := demo_platform) t ∧
       latency_tracker_event_in (PF := demo_platform) demo_w2 (Some 0)
         demo_k1 3 6 (Some 7) 0 1 0 (demo_env 30) = None ∧
       is_Some (latency_tracker_event_in (PF := demo_platform) demo_w2
                  (Some 0) demo_k3 3 6 (Some 7) 0 1 0 (demo_env 30)) ∧
       latency_tracker_gc_cb (PF := demo_platform) demo_w2 0 (demo_env 30)
       = None.
Proof.
  assert (latency_tracker_create (PF := demo_platform) demo_w0 None None 2
            0 0 0 (demo_env 0) 200 true = (Some 0, demo_created 2)) as H1
    by (vm_compute; reflexivity).
  assert (rtc (tracker_step (PF := demo_platform) 0) (demo_created 2)
            demo_w2) as H2.
  { apply (rtc_l _ _ demo_w1).
    - apply (step_event_in (PF := demo_platform) 0 _ demo_k1 3 6 (Some 7) 0 0
               0 (demo_env 10) LATENCY_TRACKER_OK).
      vm_compute; reflexivity.
    - apply (rtc_l _ _ demo_w2); [|apply rtc_refl].
      apply (step_event_in (PF := demo_platform) 0 _ demo_k2 3 400 (Some 7) 0
               0 0 (demo_env 20) LATENCY_TRACKER_OK).
      vm_compute; reflexivity. }
  assert (trackers demo_w2 !! 0 = Some (demo_tracker demo_w2)) as H3
    by (vm_compute; reflexivity).
  split; [exact demo_hash_min_in_range|]. split; [exact H1|].
  split; [exact H2|].
  destruct (tracker_life_keeps_invariant (PF := demo_platform) demo_w0 2 0 0 0
              (demo_env 0) 200 true 0 (demo_created 2) demo_w2
              demo_hash_min_in_range H1 H2)
    as (t & Hlook & Hok & Hpl & _ & _ & Hin & _ & Hgc).
  rewrite H3 in Hlook. injection Hlook as <-.
  exists (demo_tracker demo_w2). split; [exact H3|]. split; [exact Hok|].
  split; [exact Hpl|]. split; [|split].
  - apply (Hin demo_k1 3%Z 6%Z (Some 7) 0%Z 1%Z 0%Z (demo_env 30)).
    split; [reflexivity|]. split; [simpl; lia|].
    split; [lia|]. exists demo_jhash. split; [vm_compute; reflexivity|].
    assert (matching (PF := demo_platform) (demo_tracker demo_w2)
              (demo_jhash demo_k1 (u32 3) 0) demo_k1 3 = [0]) as ->
      by (vm_compute; reflexivity).
    discriminate.
  - apply (Hin demo_k3 3%Z 6%Z (Some 7) 0%Z 1%Z 0%Z (demo_env 30)).
    intros (_ & _ & _ & h & Hh & HM).
    assert (hash_fct (demo_tracker demo_w2) = Some demo_jhash) as Hh'
      by (vm_compute; reflexivity).
    rewrite Hh' in Hh. injection Hh as <-. apply HM.
    vm_compute; reflexivity.
  - apply (Hgc (demo_env 30)). split; [reflexivity|].
    assert (ht_entries (demo_tracker demo_w2) = [0; 1]) as ->
      by (vm_compute; reflexivity).
    discriminate.
Defined.

Lemma timeout_without_callback_faults_witness :
  hash_min_in_range (PF := demo_platform) ∧
  trackers (demo_created 2) !! 0 = Some (demo_tracker (demo_created 2)) ∧
  tracker_ok (PF := demo_platform) 2 (demo_tracker (demo_created 2)) ∧
  (0 < 5000000)%Z ∧
  latency_tracker_event_in (PF := demo_platform) (demo_created 2) (Some 0)
    demo_k1 3 6 None 5000000 0 0 (demo_env 10)
  = Some (LATENCY_TRACKER_OK, demo_wtn) ∧
  ∃ s, is_Some (timers (demo_tracker demo_wtn) !! s) ∧
       latency_tracker_timeout_cb demo_wtn 0 s = None.
Proof.
  assert (trackers (demo_created 2) !! 0
          = Some (demo_tracker (demo_created 2))) as H1
    by (vm_compute; reflexivity).
  assert (tracker_ok (PF := demo_platform) 2
            (demo_tracker (demo_created 2))) as H2
    by (apply (bool_decide_unpack _); vm_compute; exact I).
  assert ((0 < 5000000)%Z) as H3 by lia.
  assert (latency_tracker_event_in (PF := demo_platform) (demo_created 2)
            (Some 0) demo_k1 3 6 None 5000000 0 0 (demo_env 10)
          = Some (LATENCY_TRACKER_OK, demo_wtn)) as H4
    by (vm_compute; reflexivity).
  split; [exact demo_hash_min_in_range|]. split; [exact H1|].
  split; [exact H2|]. split; [exact H3|]. split; [exact H4|].
  destruct (timeout_without_callback_faults (PF := demo_platform) 2
              (demo_created 2) 0 _ demo_k1 3 6 5000000 0 0 (demo_env 10)
              demo_wtn demo_hash_min_in_range H1 H2 H3 H4)
    as (t' & s & Hlook & _ & Htm & Hto).
  exists s. split; [|exact Hto].
  assert (demo_tracker demo_wtn = t') as ->.
  { unfold demo_tracker. by rewrite Hlook. }
  by rewrite Htm.
Defined.

Lemma event_out_in_parts_witness :
  trackers demo_w13 !! 0 = Some (demo_tracker demo_w13) ∧
  wf (PF := demo_platform) (demo_tracker demo_w13) ∧
  hash_fct (demo_tracker demo_w13) = Some demo_jhash ∧
  match_fct (demo_tracker demo_w13) = Some memcmp ∧
  bucket (PF := demo_platform) (demo_tracker demo_w13)
    (demo_jhash demo_k1 3 0) = [1; 0] ∧
  (r ← latency_tracker_event_out_begin (PF := demo_platform) demo_w13 0
         demo_k1 3 0 (demo_env 30);
   latency_tracker_event_out_finish (PF := demo_platform) 4 r.1 0 demo_k1 3 0
     (trace_clock_monotonic_wrapper (demo_env 30)) r.2)
  = latency_tracker_event_out (PF := demo_platform) demo_w13 (Some 0) demo_k1
      3 0 (demo_env 30).
Proof.
  assert (trackers demo_w13 !! 0 = Some (demo_tracker demo_w13)) as H1
    by (vm_compute; reflexivity).
  assert (wf (PF := demo_platform) (demo_tracker demo_w13)) as H2
    by (apply (bool_decide_unpack _); vm_compute; exact I).
  assert (hash_fct (demo_tracker demo_w13) = Some demo_jhash) as H3
    by (vm_compute; reflexivity).
  assert (match_fct (demo_tracker demo_w13) = Some memcmp) as H4
    by (vm_compute; reflexivity).
  assert (bucket (PF := demo_platform) (demo_tracker demo_w13)
            (demo_jhash demo_k1 3 0) = [1; 0]) as H5
    by (vm_compute; reflexivity).
  assert (2 * length (bucket (PF := demo_platform) (demo_tracker demo_w13)
                        (demo_jhash demo_k1 3 0)) ≤ 4) as H6.
  { rewrite H5. simpl. lia. }
  split; [exact H1|]. split; [exact H2|]. split; [exact H3|].
  split; [exact H4|]. split; [exact H5|].
  exact (event_out_in_parts (PF := demo_platform) demo_w13 0 _ demo_k1 3 0
           (demo_env 30) demo_jhash memcmp 4 H1 H2 H3 H4 H6).
Defined.

Lemma retirement_once_in_sequence_witness :
  trackers demo_w2 !! 0 = Some (demo_tracker demo_w2) ∧
  wf (PF := demo_platform) (demo_tracker demo_w2) ∧
  hash_fct (demo_tracker demo_w2) = Some demo_jhash ∧
  match_fct (demo_tracker demo_w2) = Some memcmp ∧
  ∀ r w1,
    latency_tracker_event_out (PF := demo_platform) demo_w2 (Some 0) demo_k1
      3 0 (demo_env 30) = Some (r, w1) →
    latency_tracker_event_out (PF := demo_platform) w1 (Some 0) demo_k1 3 1
      (demo_env 40) = Some ((-1)%Z, w1).
Proof.
  assert (trackers demo_w2 !! 0 = Some (demo_tracker demo_w2)) as H1
    by (vm_compute; reflexivity).
  assert (hash_fct (demo_tracker demo_w2) = Some demo_jhash) as H3
    by (vm_compute; reflexivity).
  assert (match_fct (demo_tracker demo_w2) = Some memcmp) as H4
    by (vm_compute; reflexivity).
  split; [exact H1|]. split; [exact demo_wf_w2|].
  split; [exact H3|]. split; [exact H4|].
  destruct (retirement_once_in_sequence (PF := demo_platform) demo_w2 0 _
              demo_jhash memcmp H1 demo_wf_w2 H3 H4) as (_ & _ & Hclose & _).
  intros r w1 Hout.
  exact (Hclose demo_k1 3%Z 0%Z (demo_env 30) r w1 Hout 1%Z (demo_env 40)).
Defined.
